(** * Cruncher: iterative grid-narrowing search (cruncher.py)

    A shallow embedding of the [Cruncher] class and the properties of its
    point generation, selection, range narrowing and driver loop.

    Python objects are embedded as follows.
    - [int] is [Z]; [float] is the primitive binary64 type [float], so the
      arithmetic below rounds, overflows and produces NaN exactly as the
      interpreter does.
    - A [dict] is an association list in insertion order.
    - A raised exception is the [Raise] outcome of the [result] monad.
    - The attributes of [self] are the fields of the record [Cruncher];
      a method that assigns to an attribute returns the updated record. *)

From Stdlib Require Import ZArith List String Bool Lia Floats.
Import ListNotations.
Local Open Scope Z_scope.

Set Warnings "-inexact-float,-register-all".

(* ================================================================== *)
(** * Exceptions and the result monad *)
(* ================================================================== *)

Inductive value : Type :=
| VInt (z : Z)
| VFloat (f : float)
| VBool (b : bool)
| VStr (s : string)
| VNone
| VList (xs : list value)
| VTuple (xs : list value).

(** The exceptions the class raises itself carry their formatted fields;
    the others are the interpreter's. *)
Inductive exn : Type :=
| MinimumPoints (given : Z)
    (* "Must check a minimum of 3 spots on range (start, middle, end)." *)
| NeedOneIteration
    (* "Need at least one iteration" *)
| VariablesMustExist
    (* "variables must exist" *)
| FailedValidation (key : string) (v : value)
    (* "Failed variable validation on key: ... value: ... type: ..." *)
| FailedToIdentify
    (* "Failed to identify key from types" *)
| TypeError
| ValueError
| KeyError (key : string)
| IndexError
| OverflowError
| ZeroDivisionError
| UnboundLocalError.

Inductive result (A : Type) : Type :=
| Ok (a : A)
| Raise (e : exn).
Arguments Ok {A} a.
Arguments Raise {A} e.

Definition bind {A B : Type} (c : result A) (k : A -> result B) : result B :=
  match c with
  | Ok a => k a
  | Raise e => Raise e
  end.

Declare Scope py_scope.
Delimit Scope py_scope with py.
Notation "x <- c ;; k" := (bind c (fun x => k))
  (at level 61, c at next level, right associativity) : py_scope.
Notation "' p <- c ;; k" := (bind c (fun p => k))
  (at level 61, p pattern, c at next level, right associativity) : py_scope.
Local Open Scope py_scope.

(** [for _ in range(n): s = body(s)] *)
Fixpoint repeatM {S : Type} (n : nat) (body : S -> result S) (s : S) : result S :=
  match n with
  | O => Ok s
  | S n' => s' <- body s ;; repeatM n' body s'
  end.

(** [for x in xs: s = body(s, x)] *)
Fixpoint foldM {S X : Type} (body : S -> X -> result S) (xs : list X) (s : S)
  : result S :=
  match xs with
  | [] => Ok s
  | x :: xs' => s' <- body s x ;; foldM body xs' s'
  end.

(* ================================================================== *)
(** * Dictionaries *)
(* ================================================================== *)

Definition dict (A : Type) : Type := list (string * A).

Fixpoint dict_find {A : Type} (d : dict A) (k : string) : option A :=
  match d with
  | [] => None
  | (k', v) :: d' => if String.eqb k k' then Some v else dict_find d' k
  end.

(** [d[k]] *)
Definition dict_get {A : Type} (d : dict A) (k : string) : result A :=
  match dict_find d k with
  | Some v => Ok v
  | None => Raise (KeyError k)
  end.

(** [d[k] = v]: an existing key keeps its position, a new one goes last. *)
Fixpoint dict_set {A : Type} (d : dict A) (k : string) (v : A) : dict A :=
  match d with
  | [] => [(k, v)]
  | (k', v') :: d' =>
      if String.eqb k k' then (k', v) :: d' else (k', v') :: dict_set d' k v
  end.

Definition dict_keys {A : Type} (d : dict A) : list string := map fst d.

(* ================================================================== *)
(** * Numbers *)
(* ================================================================== *)

Inductive pytype : Type := TInt | TFloat | TBool | TStr | TNoneType | TList | TTuple.

Definition type_of (v : value) : pytype :=
  match v with
  | VInt _ => TInt
  | VFloat _ => TFloat
  | VBool _ => TBool
  | VStr _ => TStr
  | VNone => TNoneType
  | VList _ => TList
  | VTuple _ => TTuple
  end.

Definition pytype_eqb (a b : pytype) : bool :=
  match a, b with
  | TInt, TInt | TFloat, TFloat | TBool, TBool | TStr, TStr
  | TNoneType, TNoneType | TList, TList | TTuple, TTuple => true
  | _, _ => false
  end.

(** The two numeric types; a [bool] takes part in arithmetic as the
    integer 0 or 1. *)
Inductive num : Type :=
| Int (z : Z)
| Flt (f : float).

Definition of_num (n : num) : value :=
  match n with
  | Int z => VInt z
  | Flt f => VFloat f
  end.

Definition num_of (v : value) : result num :=
  match v with
  | VInt z => Ok (Int z)
  | VFloat f => Ok (Flt f)
  | VBool b => Ok (Int (Z.b2z b))
  | _ => Raise TypeError
  end.

(** Nearest binary64 to an integer, ties to even. *)
Definition Z2float (z : Z) : float :=
  SF2Prim (binary_normalize prec emax z 0 false).

(** The least magnitude that no longer rounds to a finite binary64:
    halfway between the largest float and 2^1024. *)
Definition float_overflow_bound : Z := 2 ^ 1024 - 2 ^ 970.

(** [float(z)]: "int too large to convert to float" past the bound. *)
Definition float_of_int (z : Z) : result float :=
  if Z.abs z <? float_overflow_bound then Ok (Z2float z) else Raise OverflowError.

Definition Z2SF (z : Z) : spec_float :=
  match z with
  | Z0 => S754_zero false
  | Zpos p => S754_finite false p 0
  | Zneg p => S754_finite true p 0
  end.

Definition is_finite (f : float) : bool :=
  negb (is_nan f) && negb (is_infinity f).

(** [a / b] on two ints: the correctly rounded quotient. *)
Definition int_truediv (a b : Z) : result float :=
  if b =? 0 then Raise ZeroDivisionError
  else
    let q := SF2Prim (SFdiv prec emax (Z2SF a) (Z2SF b)) in
    if is_finite q then Ok q else Raise OverflowError.

(** [a / b] on two floats. *)
Definition float_truediv (a b : float) : result float :=
  if (b =? 0)%float then Raise ZeroDivisionError else Ok (a / b)%float.

Definition arith (opZ : Z -> Z -> Z) (opF : float -> float -> float)
  (a b : num) : result num :=
  match a, b with
  | Int x, Int y => Ok (Int (opZ x y))
  | Int x, Flt y => fx <- float_of_int x ;; Ok (Flt (opF fx y))
  | Flt x, Int y => fy <- float_of_int y ;; Ok (Flt (opF x fy))
  | Flt x, Flt y => Ok (Flt (opF x y))
  end.

Definition num_add := arith Z.add PrimFloat.add.
Definition num_sub := arith Z.sub PrimFloat.sub.
Definition num_mul := arith Z.mul PrimFloat.mul.

Definition num_truediv (a b : num) : result num :=
  match a, b with
  | Int x, Int y => q <- int_truediv x y ;; Ok (Flt q)
  | Int x, Flt y => fx <- float_of_int x ;; q <- float_truediv fx y ;; Ok (Flt q)
  | Flt x, Int y => fy <- float_of_int y ;; q <- float_truediv x fy ;; Ok (Flt q)
  | Flt x, Flt y => q <- float_truediv x y ;; Ok (Flt q)
  end.

Definition lift2 (op : num -> num -> result num) (a b : value) : result value :=
  x <- num_of a ;; y <- num_of b ;; r <- op x y ;; Ok (of_num r).

(** [a + b], [a - b], [a / b] where at least one operand is a number
    (anything else is a TypeError there). *)
Definition py_add := lift2 num_add.
Definition py_sub := lift2 num_sub.
Definition py_truediv := lift2 num_truediv.

(** Exact comparison of an integer with a float, as the interpreter
    does it: no conversion of the integer. *)
Definition SF_compare_Z (z : Z) (f : spec_float) : option comparison :=
  match f with
  | S754_nan => None
  | S754_infinity s => Some (if s then Gt else Lt)
  | S754_zero _ => Some (z ?= 0)
  | S754_finite s m e =>
      let v := cond_Zopp s (Zpos m) in
      Some (if 0 <=? e then z ?= v * 2 ^ e else z * 2 ^ (- e) ?= v)
  end.

Definition float_compare (x y : float) : option comparison :=
  match (x ?= y)%float with
  | FEq => Some Eq
  | FLt => Some Lt
  | FGt => Some Gt
  | FNotComparable => None
  end.

(** [None] when an operand is NaN. *)
Definition num_compare (a b : num) : option comparison :=
  match a, b with
  | Int x, Int y => Some (x ?= y)
  | Flt x, Flt y => float_compare x y
  | Int x, Flt y => SF_compare_Z x (Prim2SF y)
  | Flt x, Int y => option_map CompOpp (SF_compare_Z y (Prim2SF x))
  end.

Definition is_lt (c : option comparison) : bool :=
  match c with Some Lt => true | _ => false end.
Definition is_gt (c : option comparison) : bool :=
  match c with Some Gt => true | _ => false end.
Definition is_eq (c : option comparison) : bool :=
  match c with Some Eq => true | _ => false end.
Definition is_le (c : option comparison) : bool :=
  match c with Some Lt | Some Eq => true | _ => false end.
Definition is_ge (c : option comparison) : bool :=
  match c with Some Gt | Some Eq => true | _ => false end.

Definition num_lt (a b : num) : bool := is_lt (num_compare a b).
Definition num_gt (a b : num) : bool := is_gt (num_compare a b).
Definition num_le (a b : num) : bool := is_le (num_compare a b).
Definition num_ge (a b : num) : bool := is_ge (num_compare a b).
Definition num_eq (a b : num) : bool := is_eq (num_compare a b).

Definition num_is_nan (a : num) : bool :=
  match a with
  | Int _ => false
  | Flt f => is_nan f
  end.

Definition cmp2 (op : num -> num -> bool) (a b : value) : result bool :=
  x <- num_of a ;; y <- num_of b ;; Ok (op x y).

(** [a < b], [a > b], [a <= b], [a >= b] where at least one operand is
    a number. *)
Definition py_lt := cmp2 num_lt.
Definition py_gt := cmp2 num_gt.
Definition py_le := cmp2 num_le.
Definition py_ge := cmp2 num_ge.

(** [c == v] for an int [c]: false on anything that is not a number. *)
Definition int_eq (c : Z) (v : value) : bool :=
  match num_of v with
  | Ok n => num_eq (Int c) n
  | Raise _ => false
  end.

(** Nearest integer of [m * 2^e], ties to even. *)
Definition round_half_even (m : positive) (e : Z) : Z :=
  if 0 <=? e then Zpos m * 2 ^ e
  else
    let d := 2 ^ (- e) in
    let q := Zpos m / d in
    let r := Zpos m mod d in
    match 2 * r ?= d with
    | Lt => q
    | Gt => q + 1
    | Eq => if Z.even q then q else q + 1
    end.

(** [round(x)] with one argument: an int. *)
Definition float_round (x : float) : result Z :=
  match Prim2SF x with
  | S754_nan => Raise ValueError
  | S754_infinity _ => Raise OverflowError
  | S754_zero _ => Ok 0
  | S754_finite s m e => Ok (cond_Zopp s (round_half_even m e))
  end.

Definition py_round (v : value) : result Z :=
  n <- num_of v ;;
  match n with
  | Int z => Ok z
  | Flt f => float_round f
  end.

(** [v[i]] for a literal index [i]. *)
Definition py_index (v : value) (i : nat) : result value :=
  match v with
  | VList xs | VTuple xs =>
      match nth_error xs i with
      | Some x => Ok x
      | None => Raise IndexError
      end
  | VStr s =>
      match String.get i s with
      | Some c => Ok (VStr (String c EmptyString))
      | None => Raise IndexError
      end
  | _ => Raise TypeError
  end.

(** [list(range(a, b))] *)
Definition Zrange (a b : Z) : list Z :=
  map (fun i => a + Z.of_nat i) (seq 0 (Z.to_nat (b - a))).


(** [xs[-1]] *)
Definition py_last (xs : list value) : result value :=
  match rev xs with
  | x :: _ => Ok x
  | [] => Raise IndexError
  end.

(** An argument of [range]: an int (or a bool), never a float. *)
Definition as_index (v : value) : result Z :=
  match v with
  | VInt z => Ok z
  | VBool b => Ok (Z.b2z b)
  | _ => Raise TypeError
  end.

(** [itertools.product] of the lists [arrs]: the rightmost varies fastest. *)
Fixpoint product {A : Type} (arrs : list (list A)) : list (list A) :=
  match arrs with
  | [] => [[]]
  | a :: rest => flat_map (fun x => map (cons x) (product rest)) a
  end.

(* ================================================================== *)
(** * The class *)
(* ================================================================== *)

(** The strings "constant", "float", "int" and "bool" of [self.types];
    [None] is Python's. *)
Inductive kind : Type := KConstant | KFloat | KInt | KBool.

(** [self.goal]: 'max', 'min', or anything else, which [float(...)]
    turns into the target [t]. *)
Inductive goal_t : Type :=
| GoalMax
| GoalMin
| GoalTarget (t : float).

(** The evaluation function takes an assignment and, as the module's
    docstring has it, returns a floating point number. *)
Record Cruncher : Type := {
  function : dict value -> float;
  variables : dict value;
  points_per_split : Z;
  iterations : Z;
  check_all_ints : bool;
  goal : goal_t;
  global_increment_storage : dict value;
  types : dict (option kind);
}.

Definition set_global_increment_storage (self : Cruncher) (s : dict value)
  : Cruncher :=
  {| function := function self;
     variables := variables self;
     points_per_split := points_per_split self;
     iterations := iterations self;
     check_all_ints := check_all_ints self;
     goal := goal self;
     global_increment_storage := s;
     types := types self |}.

(** ** Validation and classification *)

Definition type_in (v : value) (ts : list pytype) : bool :=
  existsb (pytype_eqb (type_of v)) ts.

Definition validate_list (some_list : list value) : bool :=
  match some_list with
  | [x0; x1] =>
      if negb (type_in x0 [TFloat; TInt]) || negb (type_in x1 [TFloat; TInt])
      then false
      else true
  | _ => false (* len(some_list) != 2 *)
  end.

Definition validate_tuple (some_tuple : list value) : bool :=
  match some_tuple with
  | [x0; x1] =>
      if negb (pytype_eqb (type_of x0) (type_of x1)) then false
      else if negb (type_in x0 [TBool; TInt]) then false
      else true
  | _ => false (* len(some_tuple) != 2 *)
  end.

Definition validate_single (value_to_check : value) : bool :=
  match value_to_check with
  | VInt _ | VFloat _ => true
  | VList xs => validate_list xs
  | VTuple xs => validate_tuple xs
  | _ => false (* prints "failed no recognition" *)
  end.

Definition _validate_variables (vars : dict value) : result unit :=
  match vars with
  | [] => Raise VariablesMustExist
  | _ =>
      foldM (fun _ key =>
               v <- dict_get vars key ;;
               if negb (validate_single v) then Raise (FailedValidation key v)
               else Ok tt)
            (dict_keys vars) tt
  end.

Definition _determine_variable_type (value_to_check : value)
  : result (option kind) :=
  match value_to_check with
  | VInt _ | VFloat _ => Ok (Some KConstant)
  | VList _ => Ok (Some KFloat)
  | VTuple _ =>
      x0 <- py_index value_to_check 0 ;;
      Ok (Some (if pytype_eqb (type_of x0) TInt then KInt else KBool))
  | _ => Ok None
  end.

Definition _sort_keys (vars : dict value) : result (dict (option kind)) :=
  foldM (fun key_types key =>
           v <- dict_get vars key ;;
           ty <- _determine_variable_type v ;;
           Ok (dict_set key_types key ty))
        (dict_keys vars) [].

Definition __init__ (function : dict value -> float) (variables : dict value)
  (points_per_split iterations : Z) (goal : goal_t) (check_all_ints : bool)
  : result Cruncher :=
  if points_per_split <? 3 then Raise (MinimumPoints points_per_split)
  else if iterations <? 1 then Raise NeedOneIteration
  else
    _ <- _validate_variables variables ;;
    types <- _sort_keys variables ;;
    Ok {| function := function;
          variables := variables;
          points_per_split := points_per_split;
          iterations := iterations;
          check_all_ints := check_all_ints;
          goal := goal;
          global_increment_storage := [];
          types := types |}.

(** ** Candidate values of one variable *)

Definition _get_every_int_in_tuple (t : value) : result (list value) :=
  t0 <- py_index t 0 ;;
  t1 <- py_index t 1 ;;
  stop <- py_add t1 (VInt 1) ;;
  a <- as_index t0 ;;
  b <- as_index stop ;;
  Ok (map VInt (Zrange a b)).

Definition _split_int_tuple_and_get_increment (self : Cruncher) (t : value)
  : result (list value * value) :=
  t1 <- py_index t 1 ;;
  t0 <- py_index t 0 ;;
  diff <- py_sub t1 t0 ;;
  increment <- py_truediv diff (VInt (points_per_split self - 1)) ;;
  let points := [t0] in
  let points_but_float := [t0] in
  '(points, _) <-
    repeatM (Z.to_nat (points_per_split self - 2))
      (fun '(points, points_but_float) =>
         prev <- py_last points_but_float ;;
         p <- py_add prev increment ;;
         let points_but_float := points_but_float ++ [p] in
         cur <- py_last points_but_float ;;
         c <- py_round cur ;;
         if negb (existsb (int_eq c) points) && negb (int_eq c t1)
         then Ok (points ++ [VInt c], points_but_float)
         else Ok (points, points_but_float))
      (points, points_but_float) ;;
  Ok (points ++ [t1], increment).

Definition _split_float_list_and_get_increment (self : Cruncher) (l : value)
  : result (list value * value) :=
  l1 <- py_index l 1 ;;
  l0 <- py_index l 0 ;;
  diff <- py_sub l1 l0 ;;
  increment <- py_truediv diff (VInt (points_per_split self - 1)) ;;
  points <-
    repeatM (Z.to_nat (points_per_split self - 2))
      (fun points =>
         prev <- py_last points ;;
         p <- py_add prev increment ;;
         Ok (points ++ [p]))
      [l0] ;;
  Ok (points ++ [l1], increment).

(** ** Point-set generation *)

(** One turn of the first loop of [_generate_test_points]: the candidate
    list of [key] and the increment stored for it. *)
Definition candidates (self : Cruncher) (some_variable_dic_of_ranges : dict value)
  (key : string) : result (list value * value) :=
  ty <- dict_get (types self) key ;;
  match ty with
  | Some KConstant =>
      v <- dict_get some_variable_dic_of_ranges key ;;
      Ok ([v], VInt 0)
  | Some KFloat =>
      r <- dict_get some_variable_dic_of_ranges key ;;
      _split_float_list_and_get_increment self r
  | Some KInt =>
      if check_all_ints self then
        r <- dict_get some_variable_dic_of_ranges key ;;
        points <- _get_every_int_in_tuple r ;;
        Ok (points, VInt 0)
      else
        r <- dict_get some_variable_dic_of_ranges key ;;
        _split_int_tuple_and_get_increment self r
  | Some KBool => Ok ([VBool true; VBool false], VInt 0)
  | None => Raise FailedToIdentify
  end.

(** The first loop: [option_dic], and [self] with its
    [global_increment_storage] updated. *)
Definition candidate_lists (self : Cruncher)
  (some_variable_dic_of_ranges : dict value)
  : result (dict (list value) * Cruncher) :=
  '(option_dic, storage) <-
    foldM (fun '(option_dic, storage) key =>
             '(points, inc) <- candidates self some_variable_dic_of_ranges key ;;
             Ok (dict_set option_dic key points, dict_set storage key inc))
          (dict_keys (variables self))
          ([], global_increment_storage self) ;;
  Ok (option_dic, set_global_increment_storage self storage).

(** [new_dict] for one [combo]. *)
Definition assignment (l_keys : list string) (combo : list value) : dict value :=
  fold_left (fun new_dict '(k, x) => dict_set new_dict k x)
            (combine l_keys combo) [].

(** The rest of [_generate_test_points]: one assignment per element of
    the product of the candidate lists. *)
Definition combinations (option_dic : dict (list value))
  : result (list (dict value)) :=
  '(arrs, l_keys) <-
    foldM (fun '(arrs, l_keys) key =>
             a <- dict_get option_dic key ;;
             Ok (arrs ++ [a], l_keys ++ [key]))
          (dict_keys option_dic) ([], []) ;;
  Ok (map (assignment l_keys) (product arrs)).

Definition _generate_test_points (self : Cruncher)
  (some_variable_dic_of_ranges : dict value)
  : result (list (dict value) * Cruncher) :=
  '(option_dic, self) <- candidate_lists self some_variable_dic_of_ranges ;;
  variable_list <- combinations option_dic ;;
  Ok (variable_list, self).

(** ** Selection *)

Definition closeness (goal value : float) : float := abs (goal - value).

(** [a > b] and [a < b] on floats *)
Definition float_gt (a b : float) : bool := (b <? a)%float.
Definition float_lt (a b : float) : bool := (a <? b)%float.

(** One step of the loop: [best_val_var_pair] is [None] while it is
    the empty tuple. *)
Definition consider (self : Cruncher) (best_val_var_pair : option (float * dict value))
  (var_set : dict value) : option (float * dict value) :=
  match best_val_var_pair with
  | None => Some (function self var_set, var_set)
  | Some (best_val, best_set) =>
      let val := function self var_set in
      match goal self with
      | GoalMax =>
          if float_gt val best_val then Some (val, var_set)
          else best_val_var_pair
      | GoalMin =>
          if float_lt val best_val then Some (val, var_set)
          else best_val_var_pair
      | GoalTarget float_of_goal =>
          if float_lt (closeness float_of_goal val)
                      (closeness float_of_goal best_val)
          then Some (val, var_set)
          else best_val_var_pair
      end
  end.

Definition _find_ideal_choice (self : Cruncher)
  (list_of_dictionary_variables : list (dict value))
  : option (float * dict value) :=
  fold_left (consider self) list_of_dictionary_variables None.

(** ** Range narrowing *)

(** "don't break given range no matter what": the two [if]s that follow
    each computation of [start] and [end]. *)
Definition keep_in_given_range (self : Cruncher) (key : string)
  (start end_ : value) : result (value * value) :=
  d <- dict_get (variables self) key ;;
  lo <- py_index d 0 ;;
  below <- py_lt start lo ;;
  let start := if below then lo else start in
  d <- dict_get (variables self) key ;;
  hi <- py_index d 1 ;;
  above <- py_gt end_ hi ;;
  let end_ := if above then hi else end_ in
  Ok (start, end_).

(** One turn of the loop of [_convert_best_val_var_pair_into_ranges]:
    what [new_range[key]] is set to; [None] when no branch is taken. *)
Definition narrowed (self : Cruncher) (best_val_var_pair : float * dict value)
  (key : string) : result (option value) :=
  ty <- dict_get (types self) key ;;
  match ty with
  | Some KConstant =>
      v <- dict_get (snd best_val_var_pair) key ;;
      Ok (Some v)
  | Some KBool => Ok (Some (VTuple [VBool true; VBool false]))
  | Some KInt =>
      if check_all_ints self then
        d <- dict_get (variables self) key ;;
        lo <- py_index d 0 ;;
        d <- dict_get (variables self) key ;;
        hi <- py_index d 1 ;;
        Ok (Some (VTuple [lo; hi]))
      else
        inc <- dict_get (global_increment_storage self) key ;;
        small <- py_lt inc (VInt 1) ;;
        if small then
          best <- dict_get (snd best_val_var_pair) key ;;
          start <- py_sub best (VInt 1) ;;
          end_ <- py_add best (VInt 1) ;;
          '(start, end_) <- keep_in_given_range self key start end_ ;;
          Ok (Some (VTuple [start; end_]))
        else
          best <- dict_get (snd best_val_var_pair) key ;;
          below <- py_sub best inc ;;
          start <- py_round below ;;
          above <- py_add best inc ;;
          end_ <- py_round above ;;
          '(start, end_) <-
            keep_in_given_range self key (VInt start) (VInt end_) ;;
          Ok (Some (VTuple [start; end_]))
  | Some KFloat =>
      inc <- dict_get (global_increment_storage self) key ;;
      best <- dict_get (snd best_val_var_pair) key ;;
      start <- py_sub best inc ;;
      end_ <- py_add best inc ;;
      '(start, end_) <- keep_in_given_range self key start end_ ;;
      Ok (Some (VList [start; end_]))
  | None => Ok None
  end.

Definition _convert_best_val_var_pair_into_ranges (self : Cruncher)
  (best_val_var_pair : float * dict value) : result (dict value) :=
  foldM (fun new_range key =>
           r <- narrowed self best_val_var_pair key ;;
           match r with
           | Some v => Ok (dict_set new_range key v)
           | None => Ok new_range
           end)
        (dict_keys (snd best_val_var_pair)) [].

(** ** The driver *)

(** The local variables of [crunch] at the head of the loop, with
    [self]. [ret_vars] and [var_range] are unbound until the first
    pass. *)
Record frame : Type := {
  self_ : Cruncher;
  points_ : list (dict value);
  ret_vars : option (float * dict value);
  var_range : option (dict value);
}.

(** What one pass of the loop body does: return from inside the loop,
    or go on with new locals. *)
Inductive pass : Type :=
| Return (ret_vars : float * dict value) (self : Cruncher)
| Continue (fr : frame).

Definition goal_reached (g : goal_t) (ret : float) : bool :=
  match g with
  | GoalMax | GoalMin => false
  | GoalTarget t => (ret =? t)%float
  end.

Definition crunch_pass (fr : frame) : result pass :=
  let self := self_ fr in
  match _find_ideal_choice self (points_ fr) with
  | None => Raise ValueError (* nothing to unpack *)
  | Some (ret, vars) =>
      if goal_reached (goal self) ret then Ok (Return (ret, vars) self)
      else
        var_range <- _convert_best_val_var_pair_into_ranges self (ret, vars) ;;
        '(points, self) <- _generate_test_points self var_range ;;
        Ok (Continue {| self_ := self; points_ := points;
                        ret_vars := Some (ret, vars);
                        var_range := Some var_range |})
  end.

Fixpoint crunch_loop (n : nat) (fr : frame)
  : result ((float * dict value) * Cruncher) :=
  match n with
  | O =>
      match ret_vars fr with
      | Some rv => Ok (rv, self_ fr)
      | None => Raise UnboundLocalError
      end
  | S n' =>
      p <- crunch_pass fr ;;
      match p with
      | Return rv self => Ok (rv, self)
      | Continue fr' => crunch_loop n' fr'
      end
  end.

(** The locals on entering the loop. *)
Definition crunch_entry (self : Cruncher) : result frame :=
  '(points, self) <- _generate_test_points self (variables self) ;;
  Ok {| self_ := self; points_ := points; ret_vars := None; var_range := None |}.

Definition crunch (self : Cruncher) : result ((float * dict value) * Cruncher) :=
  fr <- crunch_entry self ;;
  crunch_loop (Z.to_nat (iterations self)) fr.

(** ** Time estimation *)

(** The seven numbers the returned text is formatted from. *)
Record breakdown : Type := {
  years : Z; months : Z; weeks : Z; days : Z;
  hours : Z; minutes : Z; secs : Z;
}.

Definition more_than (seconds : num) (unit_ : Z) : result bool :=
  rest <- num_sub seconds (Int unit_) ;;
  Ok (num_gt rest (Int 1)).

(** The [while seconds > 1] loop; [None] when [fuel] passes are not
    enough to leave it. *)
Fixpoint pretty_loop (fuel : nat) (seconds : num) (b : breakdown)
  : result (option breakdown) :=
  match fuel with
  | O => Ok None
  | S fuel' =>
      if negb (num_gt seconds (Int 1)) then Ok (Some b)
      else
        y <- more_than seconds 31557600 ;;
        if y then
          s <- num_sub seconds (Int 31557600) ;;
          pretty_loop fuel' s
            {| years := years b + 1; months := months b; weeks := weeks b;
               days := days b; hours := hours b; minutes := minutes b;
               secs := secs b |}
        else
        mo <- more_than seconds 2629800 ;;
        if mo then
          s <- num_sub seconds (Int 2629800) ;;
          pretty_loop fuel' s
            {| years := years b; months := months b + 1; weeks := weeks b;
               days := days b; hours := hours b; minutes := minutes b;
               secs := secs b |}
        else
        w <- more_than seconds 604800 ;;
        if w then
          s <- num_sub seconds (Int 604800) ;;
          pretty_loop fuel' s
            {| years := years b; months := months b; weeks := weeks b + 1;
               days := days b; hours := hours b; minutes := minutes b;
               secs := secs b |}
        else
        d <- more_than seconds 86400 ;;
        if d then
          s <- num_sub seconds (Int 86400) ;;
          pretty_loop fuel' s
            {| years := years b; months := months b; weeks := weeks b;
               days := days b + 1; hours := hours b; minutes := minutes b;
               secs := secs b |}
        else
        h <- more_than seconds 3600 ;;
        if h then
          s <- num_sub seconds (Int 3600) ;;
          pretty_loop fuel' s
            {| years := years b; months := months b; weeks := weeks b;
               days := days b; hours := hours b + 1; minutes := minutes b;
               secs := secs b |}
        else
        mi <- more_than seconds 60 ;;
        if mi then
          s <- num_sub seconds (Int 60) ;;
          pretty_loop fuel' s
            {| years := years b; months := months b; weeks := weeks b;
               days := days b; hours := hours b; minutes := minutes b + 1;
               secs := secs b |}
        else
          s <- num_sub seconds (Int 1) ;;
          pretty_loop fuel' s
            {| years := years b; months := months b; weeks := weeks b;
               days := days b; hours := hours b; minutes := minutes b;
               secs := secs b + 1 |}
  end.

Definition _pretty_print_estimated_time_in_seconds (fuel : nat) (seconds : num)
  : result (option breakdown) :=
  pretty_loop fuel seconds
    {| years := 0; months := 0; weeks := 0; days := 0;
       hours := 0; minutes := 0; secs := 0 |}.

(** The counting loop of [estimate_crunch_time]:
    [(num_bool, num_int, num_float)]. *)
Definition count_kinds (self : Cruncher) : result (Z * Z * Z) :=
  foldM (fun '(num_bool, num_int, num_float) key =>
           ty <- dict_get (types self) key ;;
           match ty with
           | Some KBool => Ok (num_bool + 1, num_int, num_float)
           | Some KInt => Ok (num_bool, num_int + 1, num_float)
           | Some KFloat => Ok (num_bool, num_int, num_float + 1)
           | _ => Ok (num_bool, num_int, num_float)
           end)
        (dict_keys (types self)) (0, 0, 0).

(** The number of seconds handed to the pretty-printer; [None] when
    [check_all_ints] is set, where the method returns the text
    "Time estimation not supported when checking each integer". *)
Definition estimated_seconds (self : Cruncher) (time_of_one_sim_in_seconds : num)
  : result (option num) :=
  '(num_bool, num_int, num_float) <- count_kinds self ;;
  let tos := time_of_one_sim_in_seconds in
  if negb (check_all_ints self) then
    if negb (num_bool =? 0) then
      a <- num_mul tos (Int (points_per_split self ^ (num_int + num_float))) ;;
      b <- num_mul a (Int (2 * num_bool)) ;;
      c <- num_mul b (Int (iterations self)) ;;
      Ok (Some c)
    else
      a <- num_mul tos (Int (points_per_split self ^ (num_int + num_float))) ;;
      c <- num_mul a (Int (iterations self)) ;;
      Ok (Some c)
  else Ok None.

Inductive estimate : Type :=
| Estimated (text : breakdown)
| NotSupported.

(** [None] when the pretty-printer does not leave its loop within
    [fuel] passes. *)
Definition estimate_crunch_time (fuel : nat) (self : Cruncher)
  (time_of_one_sim_in_seconds : num) : result (option estimate) :=
  s <- estimated_seconds self time_of_one_sim_in_seconds ;;
  match s with
  | Some seconds =>
      r <- _pretty_print_estimated_time_in_seconds fuel seconds ;;
      Ok (option_map Estimated r)
  | None => Ok (Some NotSupported)
  end.

(* ================================================================== *)
(** * Specification-level definitions *)
(* ================================================================== *)

(** ** The four recognized shapes of a declaration *)

Definition is_number (v : value) : bool :=
  match v with
  | VInt _ | VFloat _ => true
  | _ => false
  end.

(** A constant number, a list of two numbers, a tuple of two ints, or
    a tuple of two booleans. *)
Definition recognized_shape (v : value) : bool :=
  match v with
  | VInt _ | VFloat _ => true
  | VList [a; b] => is_number a && is_number b
  | VTuple [VInt _; VInt _] => true
  | VTuple [VBool _; VBool _] => true
  | _ => false
  end.

(** ** Engines used as examples *)

Definition zero_function (_ : dict value) : float := 0%float.

(** The float stored under [k] in an assignment (NaN when there is
    none). *)
Definition float_at (k : string) (d : dict value) : float :=
  match dict_find d k with
  | Some (VFloat x) => x
  | _ => nan
  end.

Definition a_boolean : value := VTuple [VBool true; VBool false].

Definition three_booleans : dict value :=
  [("a"%string, a_boolean); ("b"%string, a_boolean); ("c"%string, a_boolean)].

Definition engine_three_booleans : Cruncher :=
  {| function := zero_function;
     variables := three_booleans;
     points_per_split := 3;
     iterations := 1;
     check_all_ints := false;
     goal := GoalMax;
     global_increment_storage := [];
     types := [("a"%string, Some KBool); ("b"%string, Some KBool);
               ("c"%string, Some KBool)] |}.

(** The number of evaluations of one iteration times the cost of one:
    what an estimate of the time of a run multiplies out. *)
Definition evaluations_cost (unit_cost points_per_split iterations : Z)
  (num_float num_int num_bool : Z) : Z :=
  unit_cost * points_per_split ^ (num_float + num_int) * 2 ^ num_bool * iterations.

Definition both_true : dict value :=
  [("flag"%string, VTuple [VBool true; VBool true])].

Definition a_string_declaration : dict value :=
  [("x"%string, VList [VInt 0; VInt 10]); ("name"%string, VStr "ten")].


(** ** Runs of the driver *)

(** [passes k fr fr']: [k] passes of the loop body, none of which
    returns, lead from the locals [fr] to the locals [fr']. *)
Inductive passes : nat -> frame -> frame -> Prop :=
| passes_none (fr : frame) : passes 0 fr fr
| passes_more (k : nat) (fr fr' fr'' : frame) :
    passes k fr fr' -> crunch_pass fr' = Ok (Continue fr'') ->
    passes (S k) fr fr''.

(** [loop_head self k fr]: in a run of [crunch] on [self], [fr] holds
    the locals at the head of the loop after [k] passes. *)
Definition loop_head (self : Cruncher) (k : nat) (fr : frame) : Prop :=
  exists fr0, crunch_entry self = Ok fr0 /\ passes k fr0 fr.

(** What the caller of a method sees: its value or its exception. *)
Definition outcome {A : Type} (r : result (A * Cruncher)) : result A :=
  match r with
  | Ok (a, _) => Ok a
  | Raise e => Raise e
  end.


(** An engine with one float variable, 0..10. *)
Definition zero_to_ten : dict value := [("x"%string, VList [VFloat 0; VFloat 10])].

(** -(x - 7)^2 *)
Definition near_seven (d : dict value) : float :=
  let x := float_at "x" d in (- ((x - 7) * (x - 7)))%float.

Definition engine_near_seven : Cruncher :=
  {| function := near_seven;
     variables := zero_to_ten;
     points_per_split := 3;
     iterations := 2;
     check_all_ints := false;
     goal := GoalMax;
     global_increment_storage := [];
     types := [("x"%string, Some KFloat)] |}.

(** Two step-size tables with the same entries under [keys]. *)
Definition agree_on (keys : list string) (s1 s2 : dict value) : Prop :=
  forall k, In k keys -> dict_find s1 k = dict_find s2 k.

(** Two frames of runs on engines that differ in their step-size
    tables only: the same locals, and tables that agree on the declared
    variables, which are the keys of every assignment of the batch. *)
Definition same_locals (self : Cruncher) (fr1 fr2 : frame) : Prop :=
  points_ fr1 = points_ fr2
  /\ ret_vars fr1 = ret_vars fr2
  /\ var_range fr1 = var_range fr2
  /\ (exists s1 s2,
         self_ fr1 = set_global_increment_storage self s1
         /\ self_ fr2 = set_global_increment_storage self s2
         /\ agree_on (dict_keys (variables self)) s1 s2)
  /\ (forall a k, In a (points_ fr1) -> In k (dict_keys a) ->
                  In k (dict_keys (variables self))).

(** ** Order on binary64 values *)

(** [a <= b] on the values of [Prim2SF]; false when one is NaN. *)
Definition SFle (a b : spec_float) : Prop :=
  match SFcompare a b with
  | Some Lt | Some Eq => True
  | _ => False
  end.

Definition SF_is_finite (x : spec_float) : bool :=
  match x with
  | S754_zero _ | S754_finite _ _ _ => true
  | _ => false
  end.

(** The least exponent of binary64. *)
Definition emin64 : Z := -1074.

(** ** The selector, as a fold over the scores *)

(** [better g val best_val]: under goal [g], a point of score [val]
    replaces a best of score [best_val]. *)
Definition better (g : goal_t) (val best_val : float) : bool :=
  match g with
  | GoalMax => float_gt val best_val
  | GoalMin => float_lt val best_val
  | GoalTarget t => float_lt (closeness t val) (closeness t best_val)
  end.

(** The quantity the goal compares: the score, or its distance to the
    target. *)
Definition rank (g : goal_t) (val : float) : float :=
  match g with
  | GoalMax | GoalMin => val
  | GoalTarget t => closeness t val
  end.

(** The running best after one more evaluated point. *)
Definition choose (g : goal_t) (best : option (float * dict value))
  (scored : float * dict value) : option (float * dict value) :=
  match best with
  | None => Some scored
  | Some (best_val, best_set) =>
      if better g (fst scored) best_val then Some scored else best
  end.

(** A batch of three assignments scoring 1, 3, 3. *)
Definition batch_133 : list (dict value) :=
  [[("x"%string, VFloat 1)]; [("x"%string, VFloat 3); ("tag"%string, VInt 1)];
   [("x"%string, VFloat 3); ("tag"%string, VInt 2)]].

(** A batch of three assignments scoring NaN, 1, 2. *)
Definition batch_nan12 : list (dict value) :=
  [[("x"%string, VFloat nan)]; [("x"%string, VFloat 1)]; [("x"%string, VFloat 2)]].

Definition engine_score_x (g : goal_t) : Cruncher :=
  {| function := float_at "x";
     variables := [("x"%string, VList [VFloat 1; VFloat 3])];
     points_per_split := 3;
     iterations := 3;
     check_all_ints := false;
     goal := g;
     global_increment_storage := [];
     types := [("x"%string, Some KFloat)] |}.

(** [fle a b]: [a <= b] as binary64 values. *)
Definition fle (a b : float) : Prop := SFle (Prim2SF a) (Prim2SF b).

(** [pref g a b]: under goal [g], the score [a] is at least as good as
    the score [b]. *)
Definition pref (g : goal_t) (a b : float) : Prop :=
  match g with
  | GoalMax => fle b a
  | GoalMin => fle a b
  | GoalTarget t => fle (closeness t a) (closeness t b)
  end.

(** [no_worse g s v]: under goal [g], the score [s] is at least as good
    as the score [v]. *)
Definition no_worse (g : goal_t) (s v : float) : bool :=
  match g with
  | GoalMax => (v <=? s)%float
  | GoalMin => (s <=? v)%float
  | GoalTarget t => (closeness t s <=? closeness t v)%float
  end.

(** [s] is the best score of the batch: the score of one of its
    assignments, and at least as good as the score of each. *)
Definition batch_optimal (self : Cruncher) (batch : list (dict value))
  (s : float) : Prop :=
  (exists a, In a batch /\ function self a = s)
  /\ forall y, In y batch -> no_worse (goal self) s (function self y) = true.

(** The score [v] is as good as [s]: equal to it, or as far from the
    target. *)
Definition attains (g : goal_t) (v s : float) : bool :=
  (rank g v =? rank g s)%float.

(** ** Engines with a target *)

Definition zero_to_one : dict value := [("x"%string, VList [VFloat 0; VFloat 1])].

(** 2.0 if x > 0.75 else float('nan') *)
Definition two_or_nan (d : dict value) : float :=
  if (0.75 <? float_at "x" d)%float then 2%float else nan.

(** float('inf') if x > 0.75 else 0.0 *)
Definition inf_or_zero (d : dict value) : float :=
  if (0.75 <? float_at "x" d)%float then infinity else 0%float.

(** 2.0 if x > 0.75 else 0.0 *)
Definition two_or_zero (d : dict value) : float :=
  if (0.75 <? float_at "x" d)%float then 2%float else 0%float.

Definition engine_target (f : dict value -> float) (t : float) : Cruncher :=
  {| function := f;
     variables := zero_to_one;
     points_per_split := 3;
     iterations := 2;
     check_all_ints := false;
     goal := GoalTarget t;
     global_increment_storage := [];
     types := [("x"%string, Some KFloat)] |}.

(** The batch of the first pass of [engine_target]: x = 0, 0.5, 1. *)
Definition first_batch_zero_to_one : list (dict value) :=
  [[("x"%string, VFloat 0)]; [("x"%string, VFloat 0.5)]; [("x"%string, VFloat 1)]].

(** The locals of [engine_target f t] on entering the loop. *)
Definition entry_frame_target (f : dict value -> float) (t : float) : frame :=
  {| self_ := set_global_increment_storage (engine_target f t)
                [("x"%string, VFloat 0.5)];
     points_ := first_batch_zero_to_one;
     ret_vars := None;
     var_range := None |}.

(** ** Interpolation *)

(** [k] successive additions of [inc], starting after [prev]. *)
Fixpoint ramp (k : nat) (prev inc : value) : result (list value) :=
  match k with
  | O => Ok []
  | S k' =>
      p <- py_add prev inc ;;
      rest <- ramp k' p inc ;;
      Ok (p :: rest)
  end.

(** The same on floats, where no addition fails. *)
Fixpoint framp (k : nat) (prev inc : float) : list float :=
  match k with
  | O => []
  | S k' => (prev + inc)%float :: framp k' (prev + inc)%float inc
  end.

(** [for x in xs: ys.append(f(x))] *)
Fixpoint mapM {X Y : Type} (f : X -> result Y) (xs : list X) : result (list Y) :=
  match xs with
  | [] => Ok []
  | x :: xs' => y <- f x ;; ys <- mapM f xs' ;; Ok (y :: ys)
  end.

(** The rounded points that are kept: those that are neither among the
    points collected so far ([seen]) nor equal to [hi]. *)
Fixpoint keep_new (seen : list Z) (hi : Z) (cs : list Z) : list Z :=
  match cs with
  | [] => []
  | c :: cs' =>
      if negb (existsb (Z.eqb c) seen) && negb (c =? hi)
      then c :: keep_new (seen ++ [c]) hi cs'
      else keep_new seen hi cs'
  end.

(** A float range one step above 1e16, where the floats are 2 apart. *)
Definition near_1e16 : dict value :=
  [("x"%string, VList [VFloat 1e16; VFloat 10000000000000002])].

(** An engine that splits the range of one float variable into three
    points. *)
Definition engine_three_points (declared : dict value) : Cruncher :=
  {| function := zero_function;
     variables := declared;
     points_per_split := 3;
     iterations := 1;
     check_all_ints := false;
     goal := GoalMax;
     global_increment_storage := [];
     types := [("x"%string, Some KFloat)] |}.


(** The loop of [_split_int_tuple_and_get_increment], on the last
    unrounded point instead of the list of them: the points collected
    after [k] more turns. *)
Fixpoint int_interior (k : nat) (prev inc hi : value) (points : list value)
  : result (list value) :=
  match k with
  | O => Ok points
  | S k' =>
      p <- py_add prev inc ;;
      c <- py_round p ;;
      int_interior k' p inc hi
        (if negb (existsb (int_eq c) points) && negb (int_eq c hi)
         then points ++ [VInt c]
         else points)
  end.

(** ** Search spaces within the declared one *)

Definition value_is_nan (v : value) : bool :=
  match v with
  | VFloat f => is_nan f
  | _ => false
  end.

(** An engine as [__init__] leaves it, whatever its step-size table:
    at least three points per split, every declaration of a recognized
    shape, and classified in [self.types]. *)
Definition well_formed (self : Cruncher) : Prop :=
  3 <= points_per_split self
  /\ forall key decl,
       dict_find (variables self) key = Some decl ->
       recognized_shape decl = true
       /\ exists ty, _determine_variable_type decl = Ok ty
                     /\ dict_find (types self) key = Some ty.

(** The batch holds, under each constant, the declared constant, and
    under each integer variable an int. *)
Definition points_ok (self : Cruncher) (points : list (dict value)) : Prop :=
  forall a key decl,
    In a points -> dict_find (variables self) key = Some decl ->
    In key (dict_keys a)
    /\ (is_number decl = true -> dict_find a key = Some decl)
    /\ (forall lo hi, decl = VTuple [VInt lo; VInt hi] ->
                      exists z, dict_find a key = Some (VInt z)).

(** The search space holds each declared constant as declared, and for
    each integer variable a pair of ints. *)
Definition space_ok (self : Cruncher) (r : dict value) : Prop :=
  forall key decl,
    dict_find (variables self) key = Some decl ->
    (is_number decl = true -> dict_find r key = Some decl)
    /\ (forall lo hi, decl = VTuple [VInt lo; VInt hi] ->
                      exists s e, dict_find r key = Some (VTuple [VInt s; VInt e])).

(** What narrowing leaves under [key], declared as [decl]: a constant as
    declared; a boolean as (True, False); an integer range within the
    declared one; a float range whose bounds, when they are not NaN,
    are within the declared ones. *)
Definition narrowed_entry (decl : value) (entry : option value) : Prop :=
  match decl with
  | VInt _ | VFloat _ => entry = Some decl
  | VList [lo; hi] =>
      py_le lo hi = Ok true ->
      exists s e,
        entry = Some (VList [s; e])
        /\ (py_ge s lo = Ok true \/ value_is_nan s = true)
        /\ (py_le e hi = Ok true \/ value_is_nan e = true)
  | VTuple [VInt lo; VInt hi] =>
      exists s e, entry = Some (VTuple [VInt s; VInt e]) /\ lo <= s /\ e <= hi
  | VTuple [VBool _; VBool _] => entry = Some (VTuple [VBool true; VBool false])
  | _ => True
  end.

(** ** Engines whose narrowing leaves the declared space *)

Definition wide : dict value :=
  [("x"%string, VList [VFloat (-1e308); VFloat 1e308])].

(** 1.0 if x > 1e308 else 0.0 *)
Definition beyond (d : dict value) : float :=
  if (1e308 <? float_at "x" d)%float then 1%float else 0%float.

Definition engine_wide : Cruncher :=
  {| function := beyond;
     variables := wide;
     points_per_split := 3;
     iterations := 1;
     check_all_ints := false;
     goal := GoalMax;
     global_increment_storage := [];
     types := [("x"%string, Some KFloat)] |}.

Definition false_true : dict value :=
  [("b"%string, VTuple [VBool false; VBool true])].

Definition engine_false_true : Cruncher :=
  {| function := zero_function;
     variables := false_true;
     points_per_split := 3;
     iterations := 1;
     check_all_ints := false;
     goal := GoalMax;
     global_increment_storage := [];
     types := [("b"%string, Some KBool)] |}.

(** A float range, an integer range, a constant and a boolean. *)
Definition mixed : dict value :=
  [("x"%string, VList [VFloat 0; VFloat 10]);
   ("i"%string, VTuple [VInt 0; VInt 10]);
   ("c"%string, VInt 5);
   ("b"%string, VTuple [VBool true; VBool false])].

Definition engine_mixed : Cruncher :=
  {| function := near_seven;
     variables := mixed;
     points_per_split := 3;
     iterations := 2;
     check_all_ints := false;
     goal := GoalMax;
     global_increment_storage := [];
     types := [("x"%string, Some KFloat); ("i"%string, Some KInt);
               ("c"%string, Some KConstant); ("b"%string, Some KBool)] |}.

(** ** The text of the time estimate *)

(** The fields before the loop. *)
Definition no_time : breakdown :=
  {| years := 0; months := 0; weeks := 0; days := 0;
     hours := 0; minutes := 0; secs := 0 |}.

(** The number of seconds a breakdown stands for, a year being
    31557600 seconds, a month 2629800 and a week 604800. *)
Definition total_seconds (b : breakdown) : Z :=
  years b * 31557600 + months b * 2629800 + weeks b * 604800
  + days b * 86400 + hours b * 3600 + minutes b * 60 + secs b.

(** [r] seconds in years, months, weeks, days, hours and minutes, each
    unit taken out of what the larger ones left, and the rest in
    seconds. *)
Definition in_units (r : Z) : breakdown :=
  let r1 := r mod 31557600 in
  let r2 := r1 mod 2629800 in
  let r3 := r2 mod 604800 in
  let r4 := r3 mod 86400 in
  let r5 := r4 mod 3600 in
  {| years := r / 31557600;
     months := r1 / 2629800;
     weeks := r2 / 604800;
     days := r3 / 86400;
     hours := r4 / 3600;
     minutes := r5 / 60;
     secs := r5 mod 60 |}.

Definition add_breakdown (a b : breakdown) : breakdown :=
  {| years := years a + years b;
     months := months a + months b;
     weeks := weeks a + weeks b;
     days := days a + days b;
     hours := hours a + hours b;
     minutes := minutes a + minutes b;
     secs := secs a + secs b |}.

Definition one_second : breakdown :=
  {| years := 0; months := 0; weeks := 0; days := 0;
     hours := 0; minutes := 0; secs := 1 |}.

(** ** Counting the variables of each kind *)

Definition kind_eqb (a b : kind) : bool :=
  match a, b with
  | KConstant, KConstant | KFloat, KFloat | KInt, KInt | KBool, KBool => true
  | _, _ => false
  end.

(** The number of entries of [self.types] that hold the kind [k]. *)
Fixpoint count_kind (k : kind) (ts : dict (option kind)) : Z :=
  match ts with
  | [] => 0
  | (_, t) :: ts' =>
      (match t with
       | Some k' => if kind_eqb k' k then 1 else 0
       | None => 0
       end) + count_kind k ts'
  end.

(** An engine that checks every integer, with a boolean variable
    besides. *)
Definition engine_every_int_and_flag : Cruncher :=
  {| function := zero_function;
     variables := [("i"%string, VTuple [VInt (-2); VInt 3]);
                   ("flag"%string, a_boolean)];
     points_per_split := 3;
     iterations := 2;
     check_all_ints := true;
     goal := GoalMax;
     global_increment_storage := [];
     types := [("i"%string, Some KInt); ("flag"%string, Some KBool)] |}.

(** ** The kind of a declaration *)

(** The kind a declaration of a recognized shape stands for: a number
    is a constant, a list a range of floats, a tuple a range of ints
    when its first element is an int and a boolean otherwise. *)
Definition declared_kind (v : value) : kind :=
  match v with
  | VInt _ | VFloat _ => KConstant
  | VList _ => KFloat
  | VTuple (VInt _ :: _) => KInt
  | _ => KBool
  end.

(** A search space whose second declaration is not recognized and
    whose third is not either. *)
Definition two_bad_declarations : dict value :=
  [("x"%string, VList [VInt 0; VInt 10]);
   ("name"%string, VStr "ten");
   ("flag"%string, VBool true)].

(** ** An integer range given backwards *)

(** An engine that checks every integer of 3..-2, of which there is
    none. *)
Definition engine_backwards : Cruncher :=
  {| function := zero_function;
     variables := [("x"%string, VList [VFloat 0; VFloat 1]);
                   ("i"%string, VTuple [VInt 3; VInt (-2)])];
     points_per_split := 3;
     iterations := 2;
     check_all_ints := true;
     goal := GoalMax;
     global_increment_storage := [];
     types := [("x"%string, Some KFloat); ("i"%string, Some KInt)] |}.

(** ** What a run can raise, and what it holds *)

(** The exceptions of the interpreter's arithmetic: an int too large
    for a float, the rounding of an infinity or of a NaN, and the
    unpacking of the empty tuple. *)
Definition may_raise (e : exn) : bool :=
  match e with
  | OverflowError | ValueError => true
  | _ => false
  end.

(** Every exception, and none. *)
Definition any_exception (e : exn) : bool := true.
Definition no_exception (e : exn) : bool := false.

(** [safe allowed P c]: the computation [c] returns a value that
    satisfies [P], or raises an exception of [allowed]. *)
Definition safe {A : Type} (allowed : exn -> bool) (P : A -> Prop)
  (c : result A) : Prop :=
  match c with
  | Ok a => P a
  | Raise e => allowed e = true
  end.

(** A float; an int or a float. *)
Definition a_float (v : value) : Prop := exists q, v = VFloat q.
Definition a_number (v : value) : Prop := is_number v = true.

(** What an assignment holds under a key declared as [decl]; [N] is
    what it holds for a range of floats. *)
Definition entry_typed (N : value -> Prop) (decl x : value) : Prop :=
  match declared_kind decl with
  | KConstant => x = decl
  | KFloat => N x
  | KInt => exists z, x = VInt z
  | KBool => exists b, x = VBool b
  end.

(** What a search space holds under a key declared as [decl]; when
    every integer is checked, a range of ints stays as declared. *)
Definition range_typed (N : value -> Prop) (check_all : bool)
  (decl r : value) : Prop :=
  match declared_kind decl with
  | KConstant => r = decl
  | KFloat => exists a b, r = VList [a; b] /\ N a /\ N b
  | KInt => if check_all then r = decl
            else exists s e, r = VTuple [VInt s; VInt e]
  | KBool => True
  end.

(** What the step-size table holds under a key declared as [decl]. *)
Definition step_typed (check_all : bool) (decl inc : value) : Prop :=
  match declared_kind decl with
  | KFloat => a_float inc
  | KInt => if check_all then inc = VInt 0 else a_float inc
  | _ => inc = VInt 0
  end.

(** [d] has, under each declared key, a value that [R] relates to the
    declaration. *)
Definition typed_dict (R : value -> value -> Prop) (vars d : dict value) : Prop :=
  forall key decl,
    dict_find vars key = Some decl ->
    exists x, dict_find d key = Some x /\ R decl x.

(** Every assignment of the batch holds the declared keys and no
    other, each with a value of its kind. *)
Definition batch_typed (N : value -> Prop) (self : Cruncher)
  (points : list (dict value)) : Prop :=
  forall a, In a points ->
            typed_dict (entry_typed N) (variables self) a
            /\ forall k, In k (dict_keys a) -> In k (dict_keys (variables self)).

(** An engine as [__init__] leaves it, whatever its step-size table,
    with what the arithmetic on its ranges can raise: the bounds of the
    float ranges are in [N], the division of a width by
    [points_per_split - 1] raises within [allowed], and so do, when
    there is a range of ints, the arithmetic on it or, when every integer
    is checked, the choice among no candidate. *)
Definition typed_engine (allowed : exn -> bool) (N : value -> Prop)
  (self : Cruncher) : Prop :=
  well_formed self
  /\ (forall d, N d ->
                safe allowed a_float
                     (py_truediv d (VInt (points_per_split self - 1))))
  /\ (forall key a b,
         dict_find (variables self) key = Some (VList [a; b]) -> N a /\ N b)
  /\ (forall key lo hi,
         dict_find (variables self) key = Some (VTuple [VInt lo; VInt hi]) ->
         if check_all_ints self then hi < lo -> allowed ValueError = true
         else forall e, may_raise e = true -> allowed e = true).

(** The locals at the head of the loop in a run on [self]. *)
Definition frame_typed (allowed : exn -> bool) (N : value -> Prop)
  (self : Cruncher) (fr : frame) : Prop :=
  self_ fr = set_global_increment_storage self (global_increment_storage (self_ fr))
  /\ batch_typed N self (points_ fr)
  /\ typed_dict (step_typed (check_all_ints self)) (variables self)
                (global_increment_storage (self_ fr))
  /\ (points_ fr = [] -> allowed ValueError = true).

(** A declaration whose candidates need no arithmetic on ints: a
    number, a list of two floats, a tuple of two booleans or, when every
    integer is checked, a tuple of two ints in order. *)
Definition plain_space (check_all : bool) (decl : value) : bool :=
  match decl with
  | VInt _ | VFloat _ => true
  | VList [VFloat _; VFloat _] => true
  | VTuple [VBool _; VBool _] => true
  | VTuple [VInt lo; VInt hi] => check_all && (lo <=? hi)
  | _ => false
  end.

(** A float range, a constant, a boolean and an integer range of which
    every integer is checked. *)
Definition plain_declarations : dict value :=
  [("x"%string, VList [VFloat 0; VFloat 10]);
   ("c"%string, VInt 5);
   ("b"%string, VTuple [VBool true; VBool false]);
   ("i"%string, VTuple [VInt 1; VInt 3])].

Definition engine_plain : Cruncher :=
  {| function := near_seven;
     variables := plain_declarations;
     points_per_split := 4;
     iterations := 3;
     check_all_ints := true;
     goal := GoalMax;
     global_increment_storage := [];
     types := [("x"%string, Some KFloat); ("c"%string, Some KConstant);
               ("b"%string, Some KBool); ("i"%string, Some KInt)] |}.

(** ** The drivers that print *)

(** What [verbose_crunch] and [detailed_crunch] print: one constructor
    for each call of [print], with the objects it is given. *)
Inductive printed : Type :=
| POriginalPoints                       (* "Original points:" *)
| PPoint (x : dict value)               (* '\t', x *)
| PBlankLine                            (* '\n' *)
| PFindings (vars : dict value) (ret : float)
                                        (* "Findings of ideal choice:\n\t", vars, '=', ret *)
| PFound (after : Z)                    (* "\nfound after {x+1} iterations!" *)
| PNewStartRange (var_range : dict value)
                                        (* "New start range:\n\t", var_range *)
| PNewPoints                            (* "New points:" *)
| PTwoBlankLines                        (* '\n\n' *)
| PFinished.                            (* 'Finished!\n' *)

(** A computation that prints: what it printed, in order, and its
    result; what was printed before an exception stays printed. *)
Definition talk (A : Type) : Type := (list printed * result A)%type.

Definition say (p : printed) : talk unit := ([p], Ok tt).

Definition quiet {A : Type} (c : result A) : talk A := ([], c).

Definition bind_talk {A B : Type} (c : talk A) (k : A -> talk B) : talk B :=
  match c with
  | (out, Ok a) => (out ++ fst (k a), snd (k a))
  | (out, Raise e) => (out, Raise e)
  end.

Notation "x <~ c ;; k" := (bind_talk c (fun x => k))
  (at level 61, c at next level, right associativity) : py_scope.
Notation "' p <~ c ;; k" := (bind_talk c (fun p => k))
  (at level 61, p pattern, c at next level, right associativity) : py_scope.

(** [for x in points: print('\t', x)] *)
Definition say_points (points : list (dict value)) : talk unit :=
  (map PPoint points, Ok tt).

(** [ret, vars = self._find_ideal_choice(points)] *)
Definition unpack_choice (self : Cruncher) (points : list (dict value))
  : result (float * dict value) :=
  match _find_ideal_choice self points with
  | None => Raise ValueError
  | Some rv => Ok rv
  end.

(** One pass of the loop of [detailed_crunch], [x] being the loop
    variable. *)
Definition detailed_pass (x : Z) (fr : frame) : talk pass :=
  let self := self_ fr in
  '(ret, vars) <~ quiet (unpack_choice self (points_ fr)) ;;
  _ <~ say (PFindings vars ret) ;;
  if goal_reached (goal self) ret then
    _ <~ say (PFound (x + 1)) ;;
    quiet (Ok (Return (ret, vars) self))
  else
    var_range <~ quiet (_convert_best_val_var_pair_into_ranges self (ret, vars)) ;;
    _ <~ say (PNewStartRange var_range) ;;
    '(points, self) <~ quiet (_generate_test_points self var_range) ;;
    quiet (Ok (Continue {| self_ := self; points_ := points;
                           ret_vars := Some (ret, vars);
                           var_range := Some var_range |})).

Fixpoint detailed_loop (n : nat) (x : Z) (fr : frame)
  : talk ((float * dict value) * Cruncher) :=
  match n with
  | O =>
      _ <~ say PFinished ;;
      quiet (match ret_vars fr with
             | Some rv => Ok (rv, self_ fr)
             | None => Raise UnboundLocalError
             end)
  | S n' =>
      p <~ detailed_pass x fr ;;
      match p with
      | Return rv self => quiet (Ok (rv, self))
      | Continue fr' => detailed_loop n' (x + 1) fr'
      end
  end.

Definition detailed_crunch (self : Cruncher)
  : talk ((float * dict value) * Cruncher) :=
  '(points, self1) <~ quiet (_generate_test_points self (variables self)) ;;
  detailed_loop (Z.to_nat (iterations self1)) 0
    {| self_ := self1; points_ := points; ret_vars := None; var_range := None |}.

(** One pass of the loop of [verbose_crunch]. *)
Definition verbose_pass (x : Z) (fr : frame) : talk pass :=
  let self := self_ fr in
  '(ret, vars) <~ quiet (unpack_choice self (points_ fr)) ;;
  _ <~ say (PFindings vars ret) ;;
  if goal_reached (goal self) ret then
    _ <~ say (PFound (x + 1)) ;;
    quiet (Ok (Return (ret, vars) self))
  else
    var_range <~ quiet (_convert_best_val_var_pair_into_ranges self (ret, vars)) ;;
    _ <~ say (PNewStartRange var_range) ;;
    '(points, self) <~ quiet (_generate_test_points self var_range) ;;
    _ <~ say PNewPoints ;;
    _ <~ say_points points ;;
    _ <~ say PTwoBlankLines ;;
    quiet (Ok (Continue {| self_ := self; points_ := points;
                           ret_vars := Some (ret, vars);
                           var_range := Some var_range |})).

Fixpoint verbose_loop (n : nat) (x : Z) (fr : frame)
  : talk ((float * dict value) * Cruncher) :=
  match n with
  | O =>
      _ <~ say PFinished ;;
      quiet (match ret_vars fr with
             | Some rv => Ok (rv, self_ fr)
             | None => Raise UnboundLocalError
             end)
  | S n' =>
      p <~ verbose_pass x fr ;;
      match p with
      | Return rv self => quiet (Ok (rv, self))
      | Continue fr' => verbose_loop n' (x + 1) fr'
      end
  end.

Definition verbose_crunch (self : Cruncher)
  : talk ((float * dict value) * Cruncher) :=
  '(points, self1) <~ quiet (_generate_test_points self (variables self)) ;;
  _ <~ say POriginalPoints ;;
  _ <~ say_points points ;;
  _ <~ say PBlankLine ;;
  verbose_loop (Z.to_nat (iterations self1)) 0
    {| self_ := self1; points_ := points; ret_vars := None; var_range := None |}.

(** The lines that [detailed_crunch] prints too. *)
Definition detailed_line (p : printed) : bool :=
  match p with
  | PFindings _ _ | PFound _ | PNewStartRange _ | PFinished => true
  | _ => false
  end.

(** The last thing printed. *)
Definition last_printed (out : list printed) : option printed :=
  match rev out with
  | p :: _ => Some p
  | [] => None
  end.

(** ** The grid of an exhaustive search *)

(** A declaration that needs no interpolation: a number, a tuple of
    two booleans, or a tuple of two ints in order. *)
Definition discrete (decl : value) : bool :=
  match decl with
  | VInt _ | VFloat _ => true
  | VTuple [VBool _; VBool _] => true
  | VTuple [VInt lo; VInt hi] => lo <=? hi
  | _ => false
  end.

(** [x] is one of the values the declaration [decl] stands for: an
    int of the range, a boolean, or the constant itself. *)
Definition admits (decl x : value) : Prop :=
  match decl with
  | VTuple [VInt lo; VInt hi] => exists z, x = VInt z /\ lo <= z <= hi
  | VTuple [VBool _; VBool _] => exists b, x = VBool b
  | _ => x = decl
  end.

(** The assignments of the grid: the declared keys in their order,
    each with a value its declaration admits. *)
Definition in_grid (vars a : dict value) : Prop :=
  Forall2 (fun d e => fst e = fst d /\ admits (snd d) (snd e)) vars a.

(** What a range of floats holds where there is none. *)
Definition nothing (v : value) : Prop := False.

(** An integer range, a boolean and a constant. *)
Definition small_grid : dict value :=
  [("i"%string, VTuple [VInt (-2); VInt 3]);
   ("flag"%string, VTuple [VBool true; VBool false]);
   ("c"%string, VFloat 0.5)].

(** 1.0 if flag else 0.0 *)
Definition flag_score (d : dict value) : float :=
  match dict_find d "flag" with
  | Some (VBool true) => 1%float
  | _ => 0%float
  end.

Definition engine_small_grid : Cruncher :=
  {| function := flag_score;
     variables := small_grid;
     points_per_split := 3;
     iterations := 2;
     check_all_ints := true;
     goal := GoalMax;
     global_increment_storage := [];
     types := [("i"%string, Some KInt); ("flag"%string, Some KBool);
               ("c"%string, Some KConstant)] |}.

(** ** A narrow range of ints *)

(** An engine with more points per split than the range 0..2 has
    ints. *)
Definition engine_narrow_ints : Cruncher :=
  {| function := zero_function;
     variables := [("i"%string, VTuple [VInt 0; VInt 2])];
     points_per_split := 4;
     iterations := 1;
     check_all_ints := false;
     goal := GoalMax;
     global_increment_storage := [("i"%string, VFloat 0.66666666666666663)];
     types := [("i"%string, Some KInt)] |}.

(** ** A range of floats whose width is not a number *)

(** A range whose two ends are infinity: its width, inf - inf, is NaN. *)
Definition all_infinity : dict value :=
  [("x"%string, VList [VFloat infinity; VFloat infinity])].

(** The engine constructed on that range, before any point is
    generated. *)
Definition engine_all_infinity : Cruncher :=
  {| function := zero_function;
     variables := all_infinity;
     points_per_split := 3;
     iterations := 1;
     check_all_ints := false;
     goal := GoalMax;
     global_increment_storage := [];
     types := [("x"%string, Some KFloat)] |}.

(* ================================================================== *)
(** * Properties *)
(* ================================================================== *)

(** ** The result monad and dictionaries *)

Lemma bind_Ok {A B : Type} (c : result A) (k : A -> result B) (b : B) :
  bind c k = Ok b -> exists a, c = Ok a /\ k a = Ok b.
Proof. destruct c as [a|e]; simpl; [eauto | discriminate]. Qed.

(** Splits a hypothesis [x <- c ;; k = Ok r] into its two halves. *)
Tactic Notation "bind_inv" hyp(H) "as" simple_intropattern(a) ident(E) :=
  apply bind_Ok in H; destruct H as (a & E & H).

Lemma dict_find_set_same {A : Type} (d : dict A) k v :
  dict_find (dict_set d k v) k = Some v.
Proof.
  induction d as [|[k' v'] d IH]; simpl.
  - rewrite String.eqb_refl. reflexivity.
  - destruct (String.eqb k k') eqn:E; simpl; rewrite E; auto.
Qed.

Lemma dict_find_set_other {A : Type} (d : dict A) k k' v :
  k <> k' -> dict_find (dict_set d k v) k' = dict_find d k'.
Proof.
  intros Hne. induction d as [|[k0 v0] d IH]; simpl.
  - destruct (String.eqb_spec k' k); congruence.
  - destruct (String.eqb_spec k k0) as [->|]; simpl.
    + destruct (String.eqb_spec k' k0); congruence.
    + rewrite IH. reflexivity.
Qed.

Lemma dict_find_None {A : Type} (d : dict A) k :
  dict_find d k = None <-> ~ In k (dict_keys d).
Proof.
  induction d as [|[k' v'] d IH]; simpl; [tauto|].
  destruct (String.eqb_spec k k') as [->|Hne].
  - split; [discriminate | intros H; exfalso; auto].
  - rewrite IH. split; intros H; [intros [?|?]; [congruence|auto] | auto].
Qed.

Lemma dict_find_Some_key {A : Type} (d : dict A) k :
  In k (dict_keys d) -> exists v, dict_find d k = Some v.
Proof.
  intros H. destruct (dict_find d k) eqn:E; [eauto|].
  apply dict_find_None in E. contradiction.
Qed.

Lemma dict_get_find {A : Type} (d : dict A) k v :
  dict_get d k = Ok v <-> dict_find d k = Some v.
Proof.
  unfold dict_get. destruct (dict_find d k); split; congruence.
Qed.

Lemma dict_keys_set_in {A : Type} (d : dict A) k v :
  In k (dict_keys d) -> dict_keys (dict_set d k v) = dict_keys d.
Proof.
  induction d as [|[k' v'] d IH]; simpl; [tauto|].
  destruct (String.eqb_spec k k') as [->|Hne]; simpl; [reflexivity|].
  intros [?|H]; [congruence|]. rewrite IH; auto.
Qed.

Lemma dict_keys_set_notin {A : Type} (d : dict A) k v :
  ~ In k (dict_keys d) -> dict_keys (dict_set d k v) = dict_keys d ++ [k].
Proof.
  induction d as [|[k' v'] d IH]; simpl; [reflexivity|].
  destruct (String.eqb_spec k k') as [->|Hne]; simpl; intros H.
  - exfalso; auto.
  - rewrite IH; auto.
Qed.

(** ** C7: validation *)

Lemma validate_single_shape (v : value) :
  validate_single v = recognized_shape v.
Proof.
  destruct v as [z|f|b|s| |xs|xs]; try reflexivity; simpl.
  - destruct xs as [|a [|b [|c xs]]]; try reflexivity;
      try (destruct a; reflexivity); destruct a, b; reflexivity.
  - destruct xs as [|a [|b [|c xs]]]; try reflexivity;
      try (destruct a; reflexivity); destruct a, b; reflexivity.
Qed.

(** The first declaration that fails validation is the one reported. *)
Lemma validation_loop_raises (vars : dict value) (keys : list string) :
  (forall k, In k keys -> In k (dict_keys vars)) ->
  (exists k v, In k keys /\ dict_find vars k = Some v /\ validate_single v = false) ->
  exists k v,
    foldM (fun (_ : unit) key =>
             v <- dict_get vars key ;;
             if negb (validate_single v) then Raise (FailedValidation key v)
             else Ok tt) keys tt
    = Raise (FailedValidation k v)
    /\ dict_find vars k = Some v /\ validate_single v = false.
Proof.
  induction keys as [|key keys IH]; intros Hin (k & v & Hk & Hf & Hv).
  - destruct Hk.
  - simpl. destruct (dict_find_Some_key vars key) as [v0 E0]; [apply Hin; left; auto|].
    unfold dict_get at 1. rewrite E0. simpl.
    destruct (validate_single v0) eqn:Ev0; simpl.
    + apply IH; [intros; apply Hin; right; auto|].
      destruct Hk as [->|Hk]; [congruence|]. eauto.
    + eauto.
Qed.

Lemma init_raises_on_bad_declaration f vars n it g ca key v :
  dict_find vars key = Some v -> recognized_shape v = false ->
  3 <= n -> 1 <= it ->
  exists k' v',
    __init__ f vars n it g ca = Raise (FailedValidation k' v')
    /\ dict_find vars k' = Some v' /\ recognized_shape v' = false.
Proof.
  intros Hf Hs Hn Hit. unfold __init__.
  destruct (Z.ltb_spec n 3); [lia|]. destruct (Z.ltb_spec it 1); [lia|].
  destruct (validation_loop_raises vars (dict_keys vars)) as (k' & v' & E & Hf' & Hv').
  - auto.
  - exists key, v. rewrite validate_single_shape. repeat split; auto.
    destruct (in_dec string_dec key (dict_keys vars)) as [?|Hn']; auto.
    apply dict_find_None in Hn'. congruence.
  - exists k', v'. rewrite <- validate_single_shape. repeat split; auto.
    unfold _validate_variables. destruct vars; [discriminate Hf|].
    rewrite E. reflexivity.
Qed.

(** C7, as the code has it. Construction fails for every search space
    holding a declaration that is none of the four recognized shapes (an
    int or float constant, a list of two numbers, a tuple of two ints, a
    tuple of two booleans), and with valid [points_per_split] and
    [iterations] the failure is the validation error of such a
    declaration. A tuple of two booleans is recognized whatever the two
    literals are: a variable declared as (True, True) or (False, False)
    alone is accepted and classified as a boolean. *)
Theorem construction_validates_shapes :
  (forall f vars n it g ca key v,
      dict_find vars key = Some v -> recognized_shape v = false ->
      exists e, __init__ f vars n it g ca = Raise e
      /\ (3 <= n -> 1 <= it ->
          exists k' v', e = FailedValidation k' v'
                        /\ dict_find vars k' = Some v'
                        /\ recognized_shape v' = false))
  /\ (forall f key b1 b2 n it g ca,
         3 <= n -> 1 <= it ->
         exists self,
           __init__ f [(key, VTuple [VBool b1; VBool b2])] n it g ca = Ok self
           /\ dict_find (types self) key = Some (Some KBool)).
Proof.
  split.
  - intros f vars n it g ca key v Hf Hs.
    destruct (Z.ltb_spec n 3) as [Hn|Hn].
    { exists (MinimumPoints n). split; [|lia].
      unfold __init__. destruct (Z.ltb_spec n 3); [reflexivity|lia]. }
    destruct (Z.ltb_spec it 1) as [Hit|Hit].
    { exists NeedOneIteration. split; [|lia].
      unfold __init__. destruct (Z.ltb_spec n 3); [lia|].
      destruct (Z.ltb_spec it 1); [reflexivity|lia]. }
    destruct (init_raises_on_bad_declaration f vars n it g ca key v)
      as (k' & v' & E & Hf' & Hv'); auto.
    exists (FailedValidation k' v'). split; [exact E|]. intros _ _. eauto.
  - intros f key b1 b2 n it g ca Hn Hit. unfold __init__.
    destruct (Z.ltb_spec n 3); [lia|]. destruct (Z.ltb_spec it 1); [lia|].
    unfold _validate_variables, _sort_keys, dict_get. simpl.
    rewrite String.eqb_refl. simpl. eexists. split; [reflexivity|].
    simpl. rewrite String.eqb_refl. reflexivity.
Qed.

Lemma construction_validates_shapes_witness :
  (exists e, __init__ zero_function a_string_declaration 3 1 GoalMax false = Raise e
   /\ (3 <= 3 -> 1 <= 1 ->
       exists k' v', e = FailedValidation k' v'
                     /\ dict_find a_string_declaration k' = Some v'
                     /\ recognized_shape v' = false))
  /\ (exists self,
        __init__ zero_function [("flag"%string, VTuple [VBool false; VBool false])]
                 3 1 GoalMax false = Ok self
        /\ dict_find (types self) "flag"%string = Some (Some KBool)).
Proof.
  split.
  - apply (proj1 construction_validates_shapes zero_function a_string_declaration
             3 1 GoalMax false "name"%string (VStr "ten")); reflexivity.
  - apply (proj2 construction_validates_shapes zero_function "flag"%string
             false false 3 1 GoalMax false); lia.
Defined.

(** C7, as stated, fails: a search space whose only variable is declared
    as (True, True) is constructed without any error. *)
Lemma both_true_is_accepted :
  __init__ zero_function both_true 3 1 GoalMax false
  = Ok {| function := zero_function;
          variables := both_true;
          points_per_split := 3;
          iterations := 1;
          check_all_ints := false;
          goal := GoalMax;
          global_increment_storage := [];
          types := [("flag"%string, Some KBool)] |}.
Proof. reflexivity. Qed.

(** ** C6: time estimation *)

(** What the method hands to the pretty-printer, for any numbers of
    variables: the boolean variables enter as the factor [2 * num_bool]. *)
Lemma estimated_seconds_formula (self : Cruncher) (unit_cost nb ni nf : Z) :
  count_kinds self = Ok (nb, ni, nf) ->
  check_all_ints self = false ->
  estimated_seconds self (Int unit_cost)
  = Ok (Some (Int (if nb =? 0
                   then unit_cost * points_per_split self ^ (ni + nf)
                        * iterations self
                   else unit_cost * points_per_split self ^ (ni + nf)
                        * (2 * nb) * iterations self))).
Proof.
  intros Hc Ha. unfold estimated_seconds. rewrite Hc, Ha. simpl.
  destruct (nb =? 0); reflexivity.
Qed.

Lemma estimate_not_supported (fuel : nat) (self : Cruncher) (tos : num) r :
  check_all_ints self = true ->
  estimate_crunch_time fuel self tos = Ok r -> r = Some NotSupported.
Proof.
  intros Ha. unfold estimate_crunch_time, estimated_seconds. rewrite Ha.
  destruct (count_kinds self) as [[[nb ni] nf]|e]; simpl; congruence.
Qed.

(** C6. With three boolean variables, three points per split, one
    iteration and a unit cost of one second, one iteration evaluates the
    function on 2^3 = 8 assignments, so that the product
    [c * points_per_split^(#float + #int) * 2^(#bool) * iterations] is 8
    seconds; the method hands 1 * 3^0 * (2 * 3) * 1 = 6 seconds to its
    pretty-printer, which reports them as "Seconds: 5". *)
Theorem estimate_three_booleans :
  __init__ zero_function three_booleans 3 1 GoalMax false = Ok engine_three_booleans
  /\ estimated_seconds engine_three_booleans (Int 1) = Ok (Some (Int 6))
  /\ evaluations_cost 1 3 1 0 0 3 = 8
  /\ (exists points self',
        _generate_test_points engine_three_booleans three_booleans
        = Ok (points, self') /\ List.length points = 8%nat)
  /\ estimate_crunch_time 10 engine_three_booleans (Int 1)
     = Ok (Some (Estimated {| years := 0; months := 0; weeks := 0; days := 0;
                              hours := 0; minutes := 0; secs := 5 |})).
Proof.
  split; [reflexivity|]. split; [reflexivity|]. split; [reflexivity|].
  split; [|reflexivity].
  eexists. eexists. split; [vm_compute; reflexivity | reflexivity].
Qed.

(** ** Loops that fill a dictionary *)

Lemma fill_two_dicts {A B : Type} (g : string -> result (A * B)) (keys : list string) :
  forall od0 st0 od st,
    foldM (fun '(od, st) key =>
             '(p, i) <- g key ;;
             Ok (dict_set od key p, dict_set st key i))
          keys (od0, st0) = Ok (od, st) ->
    (forall k, In k keys ->
               exists p i, g k = Ok (p, i)
                           /\ dict_find od k = Some p /\ dict_find st k = Some i)
    /\ (forall k, ~ In k keys ->
                  dict_find od k = dict_find od0 k /\ dict_find st k = dict_find st0 k).
Proof.
  induction keys as [|key keys IH]; intros od0 st0 od st H; simpl in H.
  - inversion H; subst. split; [intros k []|auto].
  - destruct (g key) as [[p i]|e] eqn:Eg; simpl in H; [|discriminate].
    apply IH in H as [Hin Hout]. split.
    + intros k [<-|Hk]; [|auto].
      destruct (in_dec string_dec key keys) as [Hk|Hk]; [auto|].
      exists p, i. destruct (Hout key Hk) as [-> ->].
      rewrite !dict_find_set_same. auto.
    + intros k Hk. destruct (Hout k) as [-> ->]; [intros ?; apply Hk; right; auto|].
      rewrite !dict_find_set_other by (intros ->; apply Hk; left; auto). auto.
Qed.

Lemma fill_one_dict {A : Type} (g : string -> result (option A)) (keys : list string) :
  forall d0 d,
    foldM (fun d key =>
             r <- g key ;;
             match r with
             | Some v => Ok (dict_set d key v)
             | None => Ok d
             end)
          keys d0 = Ok d ->
    (forall k, In k keys ->
               exists r, g k = Ok r
                         /\ dict_find d k = match r with
                                            | Some v => Some v
                                            | None => dict_find d0 k
                                            end)
    /\ (forall k, ~ In k keys -> dict_find d k = dict_find d0 k).
Proof.
  induction keys as [|key keys IH]; intros d0 d H; simpl in H.
  - inversion H; subst. split; [intros k []|auto].
  - destruct (g key) as [r|e] eqn:Eg; simpl in H; [|discriminate].
    destruct r as [v|]; apply IH in H as [Hin Hout]; split.
    + intros k [<-|Hk].
      * destruct (in_dec string_dec key keys) as [Hk|Hk].
        -- destruct (Hin key Hk) as (r & Er & Hr). exists r. split; [auto|].
           rewrite Hr. destruct r; [reflexivity|]. rewrite dict_find_set_same.
           congruence.
        -- exists (Some v). rewrite (Hout key Hk), dict_find_set_same. auto.
      * destruct (Hin k Hk) as (r & Er & Hr). exists r. split; [auto|].
        rewrite Hr. destruct r as [w|]; [reflexivity|].
        destruct (string_dec key k) as [<-|Hne].
        -- congruence.
        -- apply dict_find_set_other; auto.
    + intros k Hk. rewrite Hout by (intros ?; apply Hk; right; auto).
      apply dict_find_set_other. intros ->. apply Hk. left. auto.
    + intros k [<-|Hk]; [|auto].
      destruct (in_dec string_dec key keys) as [Hk|Hk]; [auto|].
      exists None. rewrite (Hout key Hk). auto.
    + intros k Hk. apply Hout. intros ?. apply Hk. right. auto.
Qed.

(** What the first loop of [_generate_test_points] leaves for each
    declared variable; nothing of [self] changes but the increments. *)
Lemma candidate_lists_spec (self : Cruncher) (ranges : dict value) option_dic self' :
  candidate_lists self ranges = Ok (option_dic, self') ->
  self' = set_global_increment_storage self (global_increment_storage self')
  /\ (forall k, In k (dict_keys (variables self)) ->
                exists points inc,
                  candidates self ranges k = Ok (points, inc)
                  /\ dict_find option_dic k = Some points
                  /\ dict_find (global_increment_storage self') k = Some inc)
  /\ (forall k, ~ In k (dict_keys (variables self)) ->
                dict_find option_dic k = None
                /\ dict_find (global_increment_storage self') k
                   = dict_find (global_increment_storage self) k).
Proof.
  unfold candidate_lists. intros H. bind_inv H as [od st] E.
  inversion H; subst; clear H. simpl.
  apply fill_two_dicts in E as [Hin Hout]. repeat split; auto.
  - apply (Hout k H).
  - apply (Hout k H).
Qed.

Lemma narrowing_spec (self : Cruncher) (best : float * dict value) new_range :
  _convert_best_val_var_pair_into_ranges self best = Ok new_range ->
  (forall k, In k (dict_keys (snd best)) ->
             exists r, narrowed self best k = Ok r /\ dict_find new_range k = r)
  /\ (forall k, ~ In k (dict_keys (snd best)) -> dict_find new_range k = None).
Proof.
  unfold _convert_best_val_var_pair_into_ranges. intros H.
  apply fill_one_dict in H as [Hin Hout]. split; [|auto].
  intros k Hk. destruct (Hin k Hk) as (r & Er & Hr). exists r. split; [auto|].
  rewrite Hr. destruct r; reflexivity.
Qed.

(** ** Ranges of integers *)

Lemma Zrange_length a b : Z.of_nat (List.length (Zrange a b)) = Z.max 0 (b - a).
Proof. unfold Zrange. rewrite length_map, length_seq. lia. Qed.


Lemma Zrange_In a b z : In z (Zrange a b) <-> a <= z < b.
Proof.
  unfold Zrange. rewrite in_map_iff. split.
  - intros (i & <- & Hi). apply in_seq in Hi. lia.
  - intros Hz. exists (Z.to_nat (z - a)). split; [lia|]. apply in_seq. lia.
Qed.

Lemma get_every_int (lo hi : Z) :
  _get_every_int_in_tuple (VTuple [VInt lo; VInt hi])
  = Ok (map VInt (Zrange lo (hi + 1))).
Proof. reflexivity. Qed.

(** ** The batch of assignments *)

Lemma dict_set_NoDup {A : Type} (d : dict A) k v :
  NoDup (dict_keys d) -> NoDup (dict_keys (dict_set d k v)).
Proof.
  intros H. destruct (in_dec string_dec k (dict_keys d)) as [Hin|Hin].
  - rewrite dict_keys_set_in; auto.
  - rewrite dict_keys_set_notin by auto.
    apply NoDup_app; [auto | repeat constructor; intros [] | ].
    intros x Hx [<-|[]]. contradiction.
Qed.

Lemma dict_keys_set_incl {A : Type} (d : dict A) k v x :
  In x (dict_keys (dict_set d k v)) <-> x = k \/ In x (dict_keys d).
Proof.
  destruct (in_dec string_dec k (dict_keys d)) as [Hin|Hin].
  - rewrite dict_keys_set_in by auto. split; [auto|]. intros [->|?]; auto.
  - rewrite dict_keys_set_notin by auto. rewrite in_app_iff. simpl.
    split; [intros [?|[?|[]]]; auto | intros [?|?]; auto].
Qed.

Lemma fill_two_dicts_keys {A B : Type} (g : string -> result (A * B))
  (keys : list string) :
  forall od0 st0 od st,
    foldM (fun '(od, st) key =>
             '(p, i) <- g key ;;
             Ok (dict_set od key p, dict_set st key i))
          keys (od0, st0) = Ok (od, st) ->
    (NoDup (dict_keys od0) -> NoDup (dict_keys od))
    /\ (forall x, In x (dict_keys od) <-> In x (dict_keys od0) \/ In x keys).
Proof.
  induction keys as [|key keys IH]; intros od0 st0 od st H; simpl in H.
  - inversion H; subst. split; [auto|]. intros x. simpl. tauto.
  - destruct (g key) as [[p i]|e] eqn:Eg; simpl in H; [|discriminate].
    apply IH in H as [Hnd Hk]. split.
    + intros H0. apply Hnd, dict_set_NoDup, H0.
    + intros x. rewrite Hk, dict_keys_set_incl. simpl. intuition.
Qed.

Lemma dict_find_NoDup_In {A : Type} (d : dict A) k v :
  NoDup (dict_keys d) -> In (k, v) d -> dict_find d k = Some v.
Proof.
  induction d as [|[k' v'] d IH]; simpl; intros Hnd Hin; [destruct Hin|].
  inversion Hnd; subst.
  destruct Hin as [E|Hin].
  - inversion E; subst. rewrite String.eqb_refl. reflexivity.
  - destruct (String.eqb_spec k k') as [->|Hne]; [|auto].
    exfalso. apply H1. change k' with (fst (k', v)). apply in_map. exact Hin.
Qed.

Lemma dict_find_In {A : Type} (d : dict A) k v :
  dict_find d k = Some v -> In (k, v) d.
Proof.
  induction d as [|[k' v'] d IH]; simpl; [discriminate|].
  destruct (String.eqb_spec k k') as [->|Hne]; intros H.
  - inversion H; subst. left. reflexivity.
  - right. auto.
Qed.

(** Reading a dictionary key by key gives its entries in order. *)
Lemma read_by_keys {A : Type} (d : dict A) (keys : list string) (vals : list A) :
  forall arrs0 keys0,
    (forall k, In k keys -> In k (dict_keys d)) ->
    exists vals,
      foldM (fun '(arrs, l_keys) key =>
               a <- dict_get d key ;;
               Ok (arrs ++ [a], l_keys ++ [key]))
            keys (arrs0, keys0)
      = Ok (arrs0 ++ vals, keys0 ++ keys)
      /\ Forall2 (fun k a => dict_find d k = Some a) keys vals.
Proof.
  clear vals.
  induction keys as [|key keys IH]; intros arrs0 keys0 Hin; simpl.
  - exists []. rewrite !app_nil_r. split; [reflexivity|constructor].
  - destruct (dict_find_Some_key d key) as [a Ea]; [apply Hin; left; auto|].
    unfold dict_get at 1. rewrite Ea. simpl.
    destruct (IH (arrs0 ++ [a]) (keys0 ++ [key])) as (vals & E & HF).
    { intros; apply Hin; right; auto. }
    exists (a :: vals). rewrite E, <- !app_assoc. simpl.
    split; [reflexivity|]. constructor; auto.
Qed.

Lemma combinations_spec (option_dic : dict (list value)) :
  exists arrs,
    combinations option_dic
    = Ok (map (assignment (dict_keys option_dic)) (product arrs))
    /\ Forall2 (fun k a => dict_find option_dic k = Some a)
               (dict_keys option_dic) arrs.
Proof.
  unfold combinations.
  destruct (read_by_keys option_dic (dict_keys option_dic) [] [] [])
    as (arrs & E & HF); [auto|].
  rewrite E. simpl. eauto.
Qed.

Lemma product_Forall2 {A : Type} (arrs : list (list A)) (combo : list A) :
  In combo (product arrs) -> Forall2 (fun x a => In x a) combo arrs.
Proof.
  revert combo. induction arrs as [|a arrs IH]; simpl; intros combo H.
  - destruct H as [<-|[]]. constructor.
  - apply in_flat_map in H as (x & Hx & H).
    apply in_map_iff in H as (rest & <- & Hrest). constructor; auto.
Qed.

Lemma assignment_combine_aux (keys : list string) (combo : list value) :
  forall d0,
    NoDup (dict_keys d0 ++ keys) -> List.length keys = List.length combo ->
    fold_left (fun new_dict '(k, x) => dict_set new_dict k x)
              (combine keys combo) d0
    = d0 ++ combine keys combo.
Proof.
  revert combo. induction keys as [|k keys IH]; intros combo d0 Hnd Hlen.
  - simpl. rewrite app_nil_r. reflexivity.
  - destruct combo as [|x combo]; [discriminate|]. simpl.
    assert (Hk : ~ In k (dict_keys d0)).
    { apply NoDup_remove_2 in Hnd. intros Hin. apply Hnd.
      apply in_or_app. left. exact Hin. }
    assert (Eset : dict_set d0 k x = d0 ++ [(k, x)]).
    { clear -Hk. induction d0 as [|[k' v'] d0 IH]; simpl; [reflexivity|].
      simpl in Hk. destruct (String.eqb_spec k k') as [->|Hne].
      - exfalso; auto.
      - rewrite IH; auto. }
    rewrite Eset, IH.
    + rewrite <- app_assoc. reflexivity.
    + unfold dict_keys. rewrite map_app. simpl. rewrite <- app_assoc. exact Hnd.
    + simpl in Hlen. lia.
Qed.

Lemma assignment_combine (keys : list string) (combo : list value) :
  NoDup keys -> List.length keys = List.length combo ->
  assignment keys combo = combine keys combo.
Proof.
  intros Hnd Hlen. unfold assignment.
  rewrite assignment_combine_aux; auto.
Qed.

Lemma combine_find {A : Type} (P : string -> list A -> Prop)
  (keys : list string) (arrs : list (list A)) :
  Forall2 P keys arrs ->
  forall combo, Forall2 (fun x a => In x a) combo arrs ->
  forall k, In k keys ->
  exists x arr, dict_find (combine keys combo) k = Some x /\ P k arr /\ In x arr.
Proof.
  induction 1 as [|k0 a0 ks arrs' H0 HF IH]; intros combo Hc k Hk; [destruct Hk|].
  inversion Hc as [|x a1 combo' arrs'' Hx Hc']; subst. simpl.
  destruct (String.eqb_spec k k0) as [->|Hne]; [eauto|].
  destruct Hk as [->|Hk]; [congruence|]. eauto.
Qed.

Lemma combine_keys {A : Type} (keys : list string) (combo : list A) :
  List.length keys = List.length combo -> dict_keys (combine keys combo) = keys.
Proof.
  revert combo. induction keys as [|k ks IH]; intros [|x combo] Hlen;
    simpl in *; try discriminate; [reflexivity|].
  f_equal. apply IH. lia.
Qed.

(** Every assignment of the batch has the keys of [option_dic], in
    order, and under each key one of its candidates. *)
Lemma combinations_members (option_dic : dict (list value)) batch a :
  NoDup (dict_keys option_dic) ->
  combinations option_dic = Ok batch -> In a batch ->
  dict_keys a = dict_keys option_dic
  /\ (forall k arr, dict_find option_dic k = Some arr ->
                    exists x, dict_find a k = Some x /\ In x arr).
Proof.
  intros Hnd Hc Ha.
  destruct (combinations_spec option_dic) as (arrs & E & HF).
  rewrite E in Hc. inversion Hc; subst; clear Hc.
  apply in_map_iff in Ha as (combo & <- & Hcombo).
  apply product_Forall2 in Hcombo.
  assert (Hlen : List.length (dict_keys option_dic) = List.length combo).
  { rewrite (Forall2_length HF), (Forall2_length Hcombo). reflexivity. }
  rewrite assignment_combine by assumption.
  split; [apply combine_keys; assumption|].
  intros k arr Hk.
  destruct (combine_find _ _ _ HF combo Hcombo k) as (x & arr' & Hx & Hk' & Hin).
  - destruct (in_dec string_dec k (dict_keys option_dic)) as [?|Hn]; auto.
    apply dict_find_None in Hn. congruence.
  - exists x. split; [exact Hx|]. congruence.
Qed.

(** The batch generated from a search space. *)
Lemma generated_points (self : Cruncher) (ranges : dict value) points self' a :
  _generate_test_points self ranges = Ok (points, self') -> In a points ->
  self' = set_global_increment_storage self (global_increment_storage self')
  /\ (forall k, In k (dict_keys a) <-> In k (dict_keys (variables self)))
  /\ (forall k, In k (dict_keys (variables self)) ->
                exists cands inc x,
                  candidates self ranges k = Ok (cands, inc)
                  /\ dict_find (global_increment_storage self') k = Some inc
                  /\ dict_find a k = Some x /\ In x cands).
Proof.
  unfold _generate_test_points. intros H Ha.
  bind_inv H as [od self1] E. bind_inv H as batch Ec.
  inversion H; subst; clear H.
  pose proof E as Hspec. apply candidate_lists_spec in Hspec as (Hself & Hin & Hout).
  unfold candidate_lists in E. bind_inv E as [od' st] Ef.
  inversion E; subst; clear E.
  apply fill_two_dicts_keys in Ef as [Hnd Hkeys].
  destruct (combinations_members od points a (Hnd (NoDup_nil _)) Ec Ha) as [Hk Hm].
  split; [exact Hself|]. split.
  - intros k. rewrite Hk, Hkeys. simpl. tauto.
  - intros k Hkv. destruct (Hin k Hkv) as (cands & inc & Hc & Hod & Hst).
    destruct (Hm k cands Hod) as (x & Hx & Hxin).
    exists cands, inc, x. auto.
Qed.

(** The candidate list and the step of one declared variable, in the
    table of candidate lists, in the step-size table and in the batch. *)
Lemma generated_at (self : Cruncher) (ranges : dict value) batch self' key :
  In key (dict_keys (variables self)) ->
  _generate_test_points self ranges = Ok (batch, self') ->
  exists option_dic points step,
    candidate_lists self ranges = Ok (option_dic, self')
    /\ candidates self ranges key = Ok (points, step)
    /\ dict_find option_dic key = Some points
    /\ dict_find (global_increment_storage self') key = Some step
    /\ forall a, In a batch ->
                 exists x, dict_find a key = Some x /\ In x points.
Proof.
  intros Hkey Hg. pose proof Hg as H. unfold _generate_test_points in H.
  bind_inv H as [od self1] E. bind_inv H as batch0 Ec.
  inversion H; subst; clear H.
  pose proof E as Hspec. apply candidate_lists_spec in Hspec as (_ & Hin & _).
  destruct (Hin key Hkey) as (points & step & Hc & Hod & Hst).
  exists od, points, step. repeat (split; [assumption|]).
  intros a Ha.
  destruct (generated_points _ _ _ _ a Hg Ha) as (_ & _ & Hm).
  destruct (Hm key Hkey) as (cands & inc & x & Hc' & _ & Hx & Hxin).
  rewrite Hc in Hc'. inversion Hc'; subst. exists x. auto.
Qed.

(** The branch of the first loop taken for a float variable. *)
Lemma candidates_float (self : Cruncher) (ranges : dict value) key r :
  dict_find (types self) key = Some (Some KFloat) ->
  dict_find ranges key = Some r ->
  candidates self ranges key = _split_float_list_and_get_increment self r.
Proof.
  intros Hty Hr. unfold candidates.
  apply dict_get_find in Hty, Hr. rewrite Hty. cbn [bind]. rewrite Hr.
  reflexivity.
Qed.


(** ** The selector returns a member of the batch with its score *)

Lemma consider_member (self : Cruncher) best x v a :
  consider self best x = Some (v, a) ->
  (best = Some (v, a)) \/ (a = x /\ v = function self x).
Proof.
  unfold consider. destruct best as [[bv bs]|].
  - destruct (goal self);
      match goal with |- context [if ?c then _ else _] => destruct c end;
      intros H; inversion H; subst; auto.
  - intros H; inversion H; subst; auto.
Qed.

Lemma consider_Some (self : Cruncher) best x :
  consider self best x <> None.
Proof.
  unfold consider. destruct best as [[bv bs]|]; [|discriminate].
  destruct (goal self);
    match goal with |- context [if ?c then _ else _] => destruct c end;
    discriminate.
Qed.

Lemma find_ideal_member_aux (self : Cruncher) (batch : list (dict value)) :
  forall best v a,
    fold_left (consider self) batch best = Some (v, a) ->
    best = Some (v, a) \/ (In a batch /\ v = function self a).
Proof.
  induction batch as [|x batch IH]; intros best v a H; simpl in H; [auto|].
  apply IH in H as [H|[H1 H2]].
  - apply consider_member in H as [H|[-> ->]]; [auto|]. right. simpl. auto.
  - right. simpl. auto.
Qed.

Lemma find_ideal_member (self : Cruncher) (batch : list (dict value)) v a :
  _find_ideal_choice self batch = Some (v, a) ->
  In a batch /\ v = function self a.
Proof.
  intros H. apply find_ideal_member_aux in H as [H|H]; [discriminate|exact H].
Qed.

Lemma find_ideal_nonempty (self : Cruncher) (batch : list (dict value)) :
  batch <> [] -> _find_ideal_choice self batch <> None.
Proof.
  unfold _find_ideal_choice. destruct batch as [|x batch]; [congruence|].
  intros _. cbn [fold_left]. pose proof (consider_Some self None x) as Hb.
  revert Hb. generalize (consider self None x).
  induction batch as [|y batch IH]; intros best Hb; cbn [fold_left]; [exact Hb|].
  apply IH. apply consider_Some.
Qed.

(** ** The driver loop *)

Lemma passes_first (k : nat) (fr fr1 fr' : frame) :
  crunch_pass fr = Ok (Continue fr1) -> passes k fr1 fr' -> passes (S k) fr fr'.
Proof.
  intros H0 H. induction H as [fr1|k fr1 fr2 fr3 H IH H3].
  - eapply passes_more; [apply passes_none|exact H0].
  - eapply passes_more; [apply IH; exact H0|exact H3].
Qed.

(** A run returns from inside a pass, or after the last one. *)
Lemma crunch_loop_passes (n : nat) : forall fr rv self',
  crunch_loop n fr = Ok (rv, self') ->
  exists k fr',
    (k <= n)%nat /\ passes k fr fr'
    /\ ((k < n)%nat /\ crunch_pass fr' = Ok (Return rv self')
        \/ k = n /\ ret_vars fr' = Some rv /\ self' = self_ fr').
Proof.
  induction n as [|n IH]; intros fr rv self' H; simpl in H.
  - destruct (ret_vars fr) as [rv0|] eqn:E; [|discriminate].
    inversion H; subst. exists 0%nat, fr.
    split; [lia|]. split; [constructor|]. right. auto.
  - destruct (crunch_pass fr) as [[rv0 s0|fr1]|e] eqn:E; simpl in H;
      [|apply IH in H|discriminate].
    + inversion H; subst. exists 0%nat, fr.
      split; [lia|]. split; [constructor|]. left. split; [lia|exact E].
    + destruct H as (k & fr' & Hk & Hp & Hend).
      exists (S k), fr'. split; [lia|]. split; [eapply passes_first; eauto|].
      destruct Hend as [[? ?]|(-> & ? & ?)]; [left|right]; split; auto; lia.
Qed.

Lemma set_storage_same (self : Cruncher) :
  set_global_increment_storage self (global_increment_storage self) = self.
Proof. destruct self; reflexivity. Qed.

Lemma set_storage_twice (self : Cruncher) s1 s2 :
  set_global_increment_storage (set_global_increment_storage self s1) s2
  = set_global_increment_storage self s2.
Proof. reflexivity. Qed.

Lemma generate_keeps_configuration (self : Cruncher) ranges points self' :
  _generate_test_points self ranges = Ok (points, self') ->
  self' = set_global_increment_storage self (global_increment_storage self').
Proof.
  unfold _generate_test_points. intros H.
  bind_inv H as [od self1] E. bind_inv H as batch Ec.
  inversion H; subst. apply candidate_lists_spec in E as [E _]. exact E.
Qed.

Lemma pass_keeps_configuration (fr fr' : frame) :
  crunch_pass fr = Ok (Continue fr') ->
  self_ fr' = set_global_increment_storage (self_ fr)
                (global_increment_storage (self_ fr')).
Proof.
  unfold crunch_pass. intros H.
  destruct (_find_ideal_choice _ _) as [[ret vars]|]; [|discriminate].
  destruct (goal_reached _ _); [discriminate|].
  bind_inv H as r Er. bind_inv H as [points self'] Eg.
  inversion H; subst. simpl. eapply generate_keeps_configuration; eauto.
Qed.

Lemma return_keeps_self (fr : frame) rv self' :
  crunch_pass fr = Ok (Return rv self') -> self' = self_ fr.
Proof.
  unfold crunch_pass. intros H.
  destruct (_find_ideal_choice _ _) as [[ret vars]|]; [|discriminate].
  destruct (goal_reached _ _).
  - inversion H; subst. reflexivity.
  - bind_inv H as r Er. bind_inv H as [points s] Eg. discriminate.
Qed.

Lemma passes_keep_configuration (k : nat) (fr fr' : frame) :
  passes k fr fr' ->
  self_ fr' = set_global_increment_storage (self_ fr)
                (global_increment_storage (self_ fr')).
Proof.
  induction 1 as [fr|k fr fr1 fr2 H IH H2].
  - symmetry. apply set_storage_same.
  - apply pass_keeps_configuration in H2. rewrite H2, IH. reflexivity.
Qed.

Lemma entry_keeps_configuration (self : Cruncher) (fr : frame) :
  crunch_entry self = Ok fr ->
  self_ fr = set_global_increment_storage self
               (global_increment_storage (self_ fr)).
Proof.
  unfold crunch_entry. intros H. bind_inv H as [points self'] E.
  inversion H; subst. simpl. eapply generate_keeps_configuration; eauto.
Qed.

Lemma loop_head_keeps_configuration (self : Cruncher) (k : nat) (fr : frame) :
  loop_head self k fr ->
  self_ fr = set_global_increment_storage self
               (global_increment_storage (self_ fr)).
Proof.
  intros (fr0 & E & H). apply passes_keep_configuration in H.
  apply entry_keeps_configuration in E. rewrite H, E. reflexivity.
Qed.

Lemma crunch_keeps_configuration (self : Cruncher) rv self' :
  crunch self = Ok (rv, self') ->
  self' = set_global_increment_storage self (global_increment_storage self').
Proof.
  unfold crunch. intros H. bind_inv H as fr0 E.
  apply crunch_loop_passes in H as (k & fr' & _ & Hp & Hend).
  assert (Hh : loop_head self k fr') by (exists fr0; auto).
  apply loop_head_keeps_configuration in Hh.
  destruct Hend as [[_ Hr]|(_ & _ & ->)]; [|exact Hh].
  apply return_keeps_self in Hr. subst. exact Hh.
Qed.

Lemma init_fields f vars n it g ca self :
  __init__ f vars n it g ca = Ok self ->
  function self = f /\ variables self = vars /\ points_per_split self = n
  /\ iterations self = it /\ goal self = g /\ check_all_ints self = ca
  /\ global_increment_storage self = []
  /\ _sort_keys vars = Ok (types self)
  /\ 3 <= n /\ 1 <= it.
Proof.
  unfold __init__. intros H.
  destruct (Z.ltb_spec n 3); [discriminate|].
  destruct (Z.ltb_spec it 1); [discriminate|].
  bind_inv H as u Ev. bind_inv H as tys Es. inversion H; subst; simpl.
  repeat split; auto.
Qed.

(** C10. From construction on, the declarations in [self.variables] are
    the ones passed in: at the head of the loop after any number of
    passes, and when [crunch] returns, [self] differs from the
    constructed engine in [global_increment_storage] at most; so the
    clamping of the range narrower reads, in every pass, the bounds
    that were declared. *)
Theorem declarations_are_never_mutated f vars n it g ca (self : Cruncher) :
  __init__ f vars n it g ca = Ok self ->
  variables self = vars
  /\ (forall k fr,
         loop_head self k fr ->
         variables (self_ fr) = vars
         /\ self_ fr = set_global_increment_storage self
                         (global_increment_storage (self_ fr))
         /\ forall key start end_,
              keep_in_given_range (self_ fr) key start end_
              = keep_in_given_range self key start end_)
  /\ (forall rv self',
         crunch self = Ok (rv, self') ->
         variables self' = vars
         /\ self' = set_global_increment_storage self
                      (global_increment_storage self')).
Proof.
  intros Hinit. apply init_fields in Hinit as (_ & Hv & _).
  split; [exact Hv|]. split.
  - intros k fr Hh. apply loop_head_keeps_configuration in Hh.
    split; [rewrite Hh; exact Hv|]. split; [exact Hh|].
    intros key start end_. rewrite Hh. reflexivity.
  - intros rv self' H. apply crunch_keeps_configuration in H.
    split; [rewrite H; exact Hv|exact H].
Qed.

Lemma declarations_are_never_mutated_witness :
  exists rv self',
    crunch engine_near_seven = Ok (rv, self')
    /\ variables self' = zero_to_ten
    /\ global_increment_storage self' = [("x"%string, VFloat 5)].
Proof.
  destruct (declarations_are_never_mutated near_seven zero_to_ten 3 2 GoalMax false
              engine_near_seven eq_refl) as (_ & _ & H).
  eexists. eexists. split; [vm_compute; reflexivity|].
  split; [|reflexivity].
  eapply H. vm_compute. reflexivity.
Defined.

(** ** C9: the result does not depend on what earlier runs left *)

Lemma fill_two_dicts_sim {A B : Type} (g : string -> result (A * B))
  (keys : list string) :
  forall od0 st1 st2,
    match
      foldM (fun '(od, st) key =>
               '(p, i) <- g key ;;
               Ok (dict_set od key p, dict_set st key i))
            keys (od0, st1),
      foldM (fun '(od, st) key =>
               '(p, i) <- g key ;;
               Ok (dict_set od key p, dict_set st key i))
            keys (od0, st2)
    with
    | Ok (od, s1), Ok (od', s2) =>
        od = od'
        /\ forall k, In k keys \/ dict_find st1 k = dict_find st2 k ->
                     dict_find s1 k = dict_find s2 k
    | Raise e1, Raise e2 => e1 = e2
    | _, _ => False
    end.
Proof.
  induction keys as [|key keys IH]; intros od0 st1 st2; simpl.
  - split; [reflexivity|]. intros k [[]|H]; exact H.
  - destruct (g key) as [[p i]|e]; simpl; [|reflexivity].
    specialize (IH (dict_set od0 key p) (dict_set st1 key i) (dict_set st2 key i)).
    destruct (foldM _ keys (_, dict_set st1 key i)) as [[od s1]|e1];
      destruct (foldM _ keys (_, dict_set st2 key i)) as [[od' s2]|e2]; auto.
    destruct IH as [-> IH]. split; [reflexivity|].
    intros k Hk. apply IH.
    destruct (string_dec key k) as [<-|Hne].
    + right. rewrite !dict_find_set_same. reflexivity.
    + destruct Hk as [[?|Hk]|Hk]; [contradiction|auto|].
      right. rewrite !dict_find_set_other by assumption. exact Hk.
Qed.

Lemma candidates_storage (self : Cruncher) s ranges key :
  candidates (set_global_increment_storage self s) ranges key
  = candidates self ranges key.
Proof. reflexivity. Qed.

Lemma generate_sim (self : Cruncher) (s1 s2 : dict value) ranges :
  match _generate_test_points (set_global_increment_storage self s1) ranges,
        _generate_test_points (set_global_increment_storage self s2) ranges
  with
  | Ok (points1, self1), Ok (points2, self2) =>
      points1 = points2
      /\ exists s1' s2',
          self1 = set_global_increment_storage self s1'
          /\ self2 = set_global_increment_storage self s2'
          /\ agree_on (dict_keys (variables self)) s1' s2'
  | Raise e1, Raise e2 => e1 = e2
  | _, _ => False
  end.
Proof.
  unfold _generate_test_points, candidate_lists. simpl.
  pose proof (fill_two_dicts_sim (candidates self ranges)
                (dict_keys (variables self)) [] s1 s2) as H.
  change (fun '(option_dic, storage) key =>
            '(points, inc) <- candidates (set_global_increment_storage self s1) ranges key ;;
            Ok (dict_set option_dic key points, dict_set storage key inc))
    with (fun '(od, st) key =>
            '(p, i) <- candidates self ranges key ;;
            Ok (dict_set (A:=list value) od key p, dict_set st key i)).
  change (fun '(option_dic, storage) key =>
            '(points, inc) <- candidates (set_global_increment_storage self s2) ranges key ;;
            Ok (dict_set option_dic key points, dict_set storage key inc))
    with (fun '(od, st) key =>
            '(p, i) <- candidates self ranges key ;;
            Ok (dict_set (A:=list value) od key p, dict_set st key i)).
  destruct (foldM _ _ (_, s1)) as [[od s1']|e1];
    destruct (foldM _ _ (_, s2)) as [[od' s2']|e2]; simpl; auto;
    try contradiction.
  destruct H as [-> H].
  destruct (combinations od') as [batch|e]; simpl; [|reflexivity].
  split; [reflexivity|]. exists s1', s2'. repeat split. intros k Hk. auto.
Qed.

Lemma foldM_ext_in {S X : Type} (f g : S -> X -> result S) (xs : list X) :
  (forall s x, In x xs -> f s x = g s x) ->
  forall s, foldM f xs s = foldM g xs s.
Proof.
  induction xs as [|x xs IH]; intros H s; simpl; [reflexivity|].
  rewrite H by (left; reflexivity).
  destruct (g s x); simpl; [|reflexivity]. apply IH.
  intros; apply H; right; assumption.
Qed.

Lemma narrowed_sim (self : Cruncher) (s1 s2 : dict value) best key :
  dict_find s1 key = dict_find s2 key ->
  narrowed (set_global_increment_storage self s1) best key
  = narrowed (set_global_increment_storage self s2) best key.
Proof.
  intros H. unfold narrowed.
  cbn [global_increment_storage set_global_increment_storage].
  unfold dict_get. rewrite H. reflexivity.
Qed.

Lemma convert_sim (self : Cruncher) (s1 s2 : dict value) best :
  agree_on (dict_keys (snd best)) s1 s2 ->
  _convert_best_val_var_pair_into_ranges (set_global_increment_storage self s1) best
  = _convert_best_val_var_pair_into_ranges (set_global_increment_storage self s2) best.
Proof.
  intros H. unfold _convert_best_val_var_pair_into_ranges.
  apply foldM_ext_in. intros d k Hk. rewrite (narrowed_sim self s1 s2); auto.
Qed.

Lemma pass_sim (self : Cruncher) (fr1 fr2 : frame) :
  same_locals self fr1 fr2 ->
  match crunch_pass fr1, crunch_pass fr2 with
  | Ok (Return rv1 _), Ok (Return rv2 _) => rv1 = rv2
  | Ok (Continue fr1'), Ok (Continue fr2') => same_locals self fr1' fr2'
  | Raise e1, Raise e2 => e1 = e2
  | _, _ => False
  end.
Proof.
  intros (Hp & Hr & Hv & (s1 & s2 & E1 & E2 & Hag) & Hkeys).
  unfold crunch_pass. rewrite E1, E2, <- Hp.
  change (_find_ideal_choice (set_global_increment_storage self s2) (points_ fr1))
    with (_find_ideal_choice (set_global_increment_storage self s1) (points_ fr1)).
  destruct (_find_ideal_choice _ _) as [[ret vars]|] eqn:Ef; [|reflexivity].
  cbn [goal set_global_increment_storage].
  destruct (goal_reached (goal self) ret); [reflexivity|].
  apply find_ideal_member in Ef as [Hin _].
  rewrite (convert_sim self s1 s2 (ret, vars))
    by (intros k Hk; apply Hag; eapply Hkeys; eauto).
  destruct (_convert_best_val_var_pair_into_ranges _ _) as [r|e]; simpl;
    [|reflexivity].
  pose proof (generate_sim self s1 s2 r) as Hg.
  destruct (_generate_test_points (set_global_increment_storage self s1) r)
    as [[points1 self1]|e1] eqn:G1;
    destruct (_generate_test_points (set_global_increment_storage self s2) r)
    as [[points2 self2]|e2]; simpl; auto.
  destruct Hg as (-> & s1' & s2' & -> & -> & Hag').
  repeat split; simpl; eauto.
  intros a k Ha Hk.
  destruct (generated_points _ _ _ _ a G1 Ha) as (_ & Hka & _).
  apply Hka in Hk. exact Hk.
Qed.

Lemma loop_sim (self : Cruncher) (n : nat) : forall fr1 fr2,
  same_locals self fr1 fr2 ->
  outcome (crunch_loop n fr1) = outcome (crunch_loop n fr2).
Proof.
  induction n as [|n IH]; intros fr1 fr2 H; simpl.
  - destruct H as (_ & <- & _). destruct (ret_vars fr1); reflexivity.
  - pose proof (pass_sim self fr1 fr2 H) as Hp.
    destruct (crunch_pass fr1) as [[rv1 x1|fr1']|e1];
      destruct (crunch_pass fr2) as [[rv2 x2|fr2']|e2]; simpl;
      try contradiction; try congruence.
    apply IH. exact Hp.
Qed.

(** C9. The value [crunch] returns, or the exception it raises, is a
    function of the configuration (declarations, [points_per_split],
    [iterations], [goal], [check_all_ints]) and of the evaluation
    function alone: it is the same whatever step-size table earlier runs
    have left in the engine. So two runs give the same score and the
    same assignment, be it on engines built alike or one after the other
    on the same engine. *)
Theorem crunch_is_deterministic (self : Cruncher) :
  (forall s1 s2 : dict value,
      outcome (crunch (set_global_increment_storage self s1))
      = outcome (crunch (set_global_increment_storage self s2)))
  /\ (forall rv self',
         crunch self = Ok (rv, self') -> outcome (crunch self') = Ok rv).
Proof.
  assert (H : forall s1 s2 : dict value,
             outcome (crunch (set_global_increment_storage self s1))
             = outcome (crunch (set_global_increment_storage self s2))).
  { intros s1 s2. unfold crunch, crunch_entry.
    cbn [variables iterations set_global_increment_storage].
    pose proof (generate_sim self s1 s2 (variables self)) as Hg.
    destruct (_generate_test_points (set_global_increment_storage self s1) _)
      as [[points1 self1]|e1] eqn:G1;
      destruct (_generate_test_points (set_global_increment_storage self s2) _)
      as [[points2 self2]|e2]; simpl; try contradiction; try congruence.
    destruct Hg as (-> & s1' & s2' & -> & -> & Hag).
    apply (loop_sim self). repeat split; simpl; eauto.
    intros a k Ha Hk.
    destruct (generated_points _ _ _ _ a G1 Ha) as (_ & Hka & _).
    apply Hka in Hk. exact Hk. }
  split; [exact H|].
  intros rv self' Hc.
  pose proof (crunch_keeps_configuration _ _ _ Hc) as Hs.
  rewrite Hs, (H _ (global_increment_storage self)), set_storage_same, Hc.
  reflexivity.
Qed.

Lemma crunch_is_deterministic_witness :
  exists rv self',
    crunch engine_near_seven = Ok (rv, self')
    /\ outcome (crunch self') = Ok rv.
Proof.
  eexists. eexists. split; [vm_compute; reflexivity|].
  apply (proj2 (crunch_is_deterministic engine_near_seven)).
  vm_compute. reflexivity.
Defined.

(** ** Binary64 comparison and subtraction

    The facts below are read off the specification of the primitive
    operations ([SFcompare], [SFsub]) on the values of [Prim2SF]. *)

Lemma is_nan_Prim2SF (f : float) : Prim2SF f = S754_nan <-> is_nan f = true.
Proof.
  unfold Prim2SF. destruct (is_nan f); [tauto|].
  destruct (is_zero f); [split; discriminate|].
  destruct (is_infinity f); [split; discriminate|].
  destruct (Z.frexp f) as [r e].
  destruct (shr_fexp _ _ _ _ _) as [mrs e'].
  destruct (shr_m mrs); split; discriminate.
Qed.

Ltac cmp_split :=
  repeat match goal with
  | H : context [Pos.compare_cont Eq ?a ?b] |- _ => change (Pos.compare_cont Eq a b) with (Pos.compare a b) in H
  | |- context [Pos.compare_cont Eq ?a ?b] => change (Pos.compare_cont Eq a b) with (Pos.compare a b)
  end;
  repeat match goal with
  | H : context [Z.compare ?a ?b] |- _ => destruct (Z.compare_spec a b); simpl in H
  | |- context [Z.compare ?a ?b] => destruct (Z.compare_spec a b); simpl
  | H : context [Pos.compare ?a ?b] |- _ => destruct (Pos.compare_spec a b); simpl in H
  | |- context [Pos.compare ?a ?b] => destruct (Pos.compare_spec a b); simpl
  end.

Lemma SFcompare_none a b : SFcompare a b = None <-> a = S754_nan \/ b = S754_nan.
Proof.
  destruct a as [s| s | | s m e], b as [s'| s' | | s' m' e']; simpl; split; intros H;
    try discriminate; try tauto; try (destruct H; discriminate).
Qed.

Lemma SFcompare_refl a : a <> S754_nan -> SFcompare a a = Some Eq.
Proof.
  destruct a as [s| s | | s m e]; simpl; intros H; try congruence.
  - destruct s; reflexivity.
  - destruct s; rewrite Z.compare_refl;
    change (Pos.compare_cont Eq m m) with (Pos.compare m m); rewrite Pos.compare_refl; reflexivity.
Qed.

Lemma SFcompare_antisym a b : SFcompare b a = option_map CompOpp (SFcompare a b).
Proof.
  destruct a as [s| s | | s m e], b as [s'| s' | | s' m' e']; simpl; try reflexivity;
    try (destruct s; reflexivity); try (destruct s'; reflexivity);
    try (destruct s, s'; reflexivity).
  destruct s, s'; simpl; try reflexivity;
  rewrite (Z.compare_antisym e e');
  change (Pos.compare_cont Eq m' m) with (Pos.compare m' m);
  change (Pos.compare_cont Eq m m') with (Pos.compare m m');
  rewrite (Pos.compare_antisym m m');
  destruct (e ?= e'); simpl; try reflexivity; destruct (m ?= m')%positive; reflexivity.
Qed.

Lemma SFle_trans a b c : SFle a b -> SFle b c -> SFle a c.
Proof.
  unfold SFle.
  destruct a as [s| s | | s m e], b as [s'| s' | | s' m' e'], c as [s''| s'' | | s'' m'' e''];
    simpl; try tauto;
    try (destruct s; simpl; tauto); try (destruct s'; simpl; tauto); try (destruct s''; simpl; tauto);
    try (destruct s, s'; simpl; tauto); try (destruct s, s''; simpl; tauto); try (destruct s', s''; simpl; tauto);
    try (destruct s, s', s''; simpl; tauto).
  destruct s, s', s''; simpl; try tauto; intros H1 H2; cmp_split; try tauto; try lia.
Qed.

(** *** Rounding never turns a nonzero value into zero *)

Lemma digits2_pos_bound p :
  2 ^ (Zpos (digits2_pos p) - 1) <= Zpos p < 2 ^ Zpos (digits2_pos p).
Proof.
  induction p as [p IH | p IH |]; simpl digits2_pos.
  - rewrite Pos2Z.inj_succ.
    replace (Z.succ (Zpos (digits2_pos p)) - 1) with (Z.succ (Zpos (digits2_pos p) - 1)) by lia.
    rewrite !Z.pow_succ_r by lia. lia.
  - rewrite Pos2Z.inj_succ.
    replace (Z.succ (Zpos (digits2_pos p)) - 1) with (Z.succ (Zpos (digits2_pos p) - 1)) by lia.
    rewrite !Z.pow_succ_r by lia. lia.
  - simpl. lia.
Qed.

Lemma digits2_pos_iter m d :
  digits2_pos (Pos.iter xO m d) = (digits2_pos m + d)%positive.
Proof.
  induction d as [|d IH] using Pos.peano_ind.
  - simpl. lia.
  - rewrite Pos.iter_succ. simpl. rewrite IH. lia.
Qed.

Lemma shr_1_m mrs : 0 <= shr_m mrs -> shr_m (shr_1 mrs) = shr_m mrs / 2.
Proof.
  destruct mrs as [m r s]; simpl. intros Hm.
  destruct m as [|p|p]; try lia; [reflexivity|].
  destruct p as [p|p|]; simpl shr_m.
  - rewrite Pos2Z.inj_xI. apply Z.div_unique with 1; lia.
  - rewrite Pos2Z.inj_xO. apply Z.div_unique with 0; lia.
  - reflexivity.
Qed.

Lemma iter_pos_shr_1_m p : forall mrs,
  0 <= shr_m mrs -> shr_m (iter_pos shr_1 p mrs) = shr_m mrs / 2 ^ Zpos p.
Proof.
  assert (Hnn : forall x k, 0 <= x -> 0 <= k -> 0 <= x / 2 ^ k).
  { intros. apply Z.div_pos; [lia|]. apply Z.pow_pos_nonneg; lia. }
  assert (Hpow : forall k, 0 <= k -> 0 < 2 ^ k)
    by (intros; apply Z.pow_pos_nonneg; lia).
  induction p as [p IH | p IH |]; intros mrs Hm; simpl iter_pos.
  - assert (H1 : 0 <= shr_m (shr_1 mrs))
      by (rewrite shr_1_m by lia; apply Z.div_pos; lia).
    assert (H2 : 0 <= shr_m (iter_pos shr_1 p (shr_1 mrs)))
      by (rewrite IH by lia; apply Hnn; lia).
    rewrite IH, IH, shr_1_m by assumption.
    rewrite !Z.div_div by (try apply Hpow; lia).
    f_equal. replace (Zpos p~1) with (1 + Zpos p + Zpos p) by lia.
    rewrite !Z.pow_add_r, Z.pow_1_r by lia. lia.
  - assert (H2 : 0 <= shr_m (iter_pos shr_1 p mrs))
      by (rewrite IH by lia; apply Hnn; lia).
    rewrite IH, IH by assumption.
    rewrite !Z.div_div by (try apply Hpow; lia).
    f_equal. replace (Zpos p~0) with (Zpos p + Zpos p) by lia.
    rewrite !Z.pow_add_r by lia. reflexivity.
  - rewrite shr_1_m by lia. reflexivity.
Qed.

Lemma fexp64 e : fexp prec emax e = Z.max (e - 53) emin64.
Proof. reflexivity. Qed.

Lemma shr_fexp_pos m e l mrs e' :
  0 < m -> emin64 <= e ->
  shr_fexp prec emax m e l = (mrs, e') ->
  0 < shr_m mrs /\ emin64 <= e'.
Proof.
  intros Hm He. unfold shr_fexp, shr. rewrite fexp64.
  assert (Hrec : shr_m (shr_record_of_loc m l) = m)
    by (destruct l as [|[]]; reflexivity).
  destruct m as [|pm|pm]; try lia. simpl Zdigits2.
  pose proof (digits2_pos_bound pm) as [Hlo _].
  destruct (Z.max (Zpos (digits2_pos pm) + e - 53) emin64 - e) as [|n|n] eqn:Hn;
    intros H; inversion H; subst; clear H; rewrite ?Hrec; try lia.
  rewrite iter_pos_shr_1_m by (rewrite Hrec; lia). rewrite Hrec.
  split; [|lia].
  apply Z.div_str_pos. split; [apply Z.pow_pos_nonneg; lia|].
  eapply Z.le_trans; [|exact Hlo]. apply Z.pow_le_mono_r; lia.
Qed.

Lemma round_nearest_even_pos m l : 0 < m -> 0 < round_nearest_even m l.
Proof.
  intros Hm. destruct l as [|[]]; simpl; try lia. destruct (Z.even m); lia.
Qed.

Lemma binary_round_aux_pos s m e l :
  0 < m -> emin64 <= e ->
  (exists m' e', binary_round_aux prec emax s m e l = S754_finite s m' e')
  \/ binary_round_aux prec emax s m e l = S754_infinity s.
Proof.
  intros Hm He. unfold binary_round_aux.
  destruct (shr_fexp prec emax m e l) as [mrs' e'] eqn:H1.
  apply shr_fexp_pos in H1 as [Hm1 He1]; try assumption.
  destruct (shr_fexp prec emax _ e' loc_Exact) as [mrs'' e''] eqn:H2.
  apply shr_fexp_pos in H2 as [Hm2 He2]; try assumption;
    [|apply round_nearest_even_pos; assumption].
  destruct (shr_m mrs'') as [|p|p]; try lia.
  destruct (e'' <=? emax - prec); eauto.
Qed.

Lemma binary_round_pos s p e :
  emin64 <= e ->
  (exists m' e', binary_round prec emax s p e = S754_finite s m' e')
  \/ binary_round prec emax s p e = S754_infinity s.
Proof.
  intros He. unfold binary_round.
  destruct (shl_align p e _) as [mz ez] eqn:Hs.
  apply binary_round_aux_pos; [lia|].
  unfold shl_align in Hs. rewrite fexp64 in Hs.
  destruct (Z.max _ _ - e) eqn:Hd; inversion Hs; subst; lia.
Qed.

Lemma binary_normalize_zero m e sz s :
  emin64 <= e -> binary_normalize prec emax m e sz = S754_zero s -> m = 0.
Proof.
  intros He. destruct m as [|p|p]; simpl; [reflexivity| |]; intros H.
  - destruct (binary_round_pos false p e He) as [(m' & e' & E)|E]; congruence.
  - destruct (binary_round_pos true p e He) as [(m' & e' & E)|E]; congruence.
Qed.

Lemma binary_normalize_not_nan m e sz :
  emin64 <= e -> binary_normalize prec emax m e sz <> S754_nan.
Proof.
  intros He. destruct m as [|p|p]; simpl; [discriminate| |].
  - destruct (binary_round_pos false p e He) as [(m' & e' & E)|E]; congruence.
  - destruct (binary_round_pos true p e He) as [(m' & e' & E)|E]; congruence.
Qed.

Lemma valid_emin s m e :
  valid_binary (S754_finite s m e) = true ->
  fexp prec emax (Zpos (digits2_pos m) + e) = e /\ emin64 <= e.
Proof.
  simpl. unfold bounded, canonical_mantissa. intros H.
  apply andb_prop in H as [H _]. apply Z.eqb_eq in H.
  split; [exact H|]. rewrite fexp64 in H. lia.
Qed.

Lemma shl_align_fst mx ex ez :
  ez <= ex ->
  Zpos (digits2_pos (fst (shl_align mx ex ez))) = Zpos (digits2_pos mx) + (ex - ez).
Proof.
  intros H. unfold shl_align.
  destruct (ez - ex) as [|d|d] eqn:Hd; simpl fst; try lia.
  rewrite digits2_pos_iter. lia.
Qed.

Lemma shl_align_same mx ex : shl_align mx ex ex = (mx, ex).
Proof. unfold shl_align. rewrite Z.sub_diag. reflexivity. Qed.

Lemma cond_Zopp_sub_0 sx sy (a b : positive) :
  cond_Zopp sx (Zpos a) - cond_Zopp sy (Zpos b) = 0 -> sx = sy /\ a = b.
Proof.
  destruct sx, sy; unfold cond_Zopp; intros H; try (exfalso; lia);
    split; try reflexivity; lia.
Qed.

(** On valid binary64 values, a zero difference means equal operands. *)
Lemma SFsub_zero x y s :
  valid_binary x = true -> valid_binary y = true ->
  SFsub prec emax x y = S754_zero s -> SFcompare x y = Some Eq.
Proof.
  intros Vx Vy.
  destruct x as [sx|sx| |sx mx ex], y as [sy|sy| |sy my ey]; simpl;
    try discriminate; try reflexivity;
    try (destruct sx, sy; discriminate).
  intros H.
  apply valid_emin in Vx as [Cx Ex]. apply valid_emin in Vy as [Cy Ey].
  apply binary_normalize_zero in H; [|lia].
  apply cond_Zopp_sub_0 in H as [-> H].
  assert (Hd := f_equal (fun p => Zpos (digits2_pos p)) H). simpl in Hd.
  rewrite !shl_align_fst in Hd by lia.
  assert (ex = ey) as <-.
  { assert (E : Zpos (digits2_pos mx) + ex = Zpos (digits2_pos my) + ey) by lia.
    rewrite E in Cx. congruence. }
  rewrite Z.min_id, !shl_align_same in H. simpl in H. subst my.
  rewrite Z.compare_refl.
  change (Pos.compare_cont Eq mx mx) with (Pos.compare mx mx).
  rewrite Pos.compare_refl. destruct sy; reflexivity.
Qed.

Lemma SFsub_eq x y :
  SF_is_finite x = true -> SFcompare x y = Some Eq ->
  exists s, SFsub prec emax x y = S754_zero s.
Proof.
  intros Hf H.
  destruct x as [sx|sx| |sx mx ex]; try discriminate;
    destruct y as [sy|sy| |sy my ey]; simpl in H; try discriminate;
    try (destruct sx; discriminate); try (destruct sy; discriminate).
  - simpl. destruct sx, sy; eauto.
  - assert (sx = sy /\ ex = ey /\ mx = my) as (-> & -> & ->).
    { destruct sx, sy; try discriminate; cmp_split; try discriminate;
        repeat split; congruence. }
    simpl. rewrite Z.min_id, !shl_align_same, Z.sub_diag. simpl. eauto.
Qed.

Lemma SFsub_not_nan x y :
  valid_binary x = true -> valid_binary y = true ->
  SF_is_finite x = true -> y <> S754_nan -> SFsub prec emax x y <> S754_nan.
Proof.
  intros Vx Vy.
  destruct x as [sx|sx| |sx mx ex], y as [sy|sy| |sy my ey]; simpl;
    try discriminate; try congruence; intros _ _.
  - destruct sx, sy; discriminate.
  - apply valid_emin in Vx as [Cx Ex]. apply valid_emin in Vy as [Cy Ey].
    apply binary_normalize_not_nan. lia.
Qed.

Lemma Prim2SF_finite f : is_finite f = true -> SF_is_finite (Prim2SF f) = true.
Proof.
  unfold is_finite, Prim2SF. destruct (is_nan f); [discriminate|].
  destruct (is_zero f); [reflexivity|].
  destruct (is_infinity f); [discriminate|]. intros _.
  destruct (Z.frexp f) as [r e].
  destruct (shr_fexp _ _ _ _ _) as [mrs e'].
  destruct (shr_m mrs); reflexivity.
Qed.

(** ** Binary64 order on primitive floats *)

Lemma ltb_compare (a b : float) :
  (a <? b)%float = true <-> SFcompare (Prim2SF a) (Prim2SF b) = Some Lt.
Proof.
  rewrite ltb_spec. unfold SFltb.
  destruct (SFcompare _ _) as [[]|]; split; congruence.
Qed.

Lemma eqb_compare (a b : float) :
  (a =? b)%float = true <-> SFcompare (Prim2SF a) (Prim2SF b) = Some Eq.
Proof.
  rewrite eqb_spec. unfold SFeqb.
  destruct (SFcompare _ _) as [[]|]; split; congruence.
Qed.

Lemma not_ltb_le (a b : float) :
  is_nan a = false -> is_nan b = false ->
  ((a <? b)%float = false <-> SFle (Prim2SF b) (Prim2SF a)).
Proof.
  intros Ha Hb. rewrite ltb_spec. unfold SFltb, SFle.
  rewrite (SFcompare_antisym (Prim2SF a) (Prim2SF b)).
  destruct (SFcompare (Prim2SF a) (Prim2SF b)) as [[]|] eqn:E; simpl;
    try (split; [tauto|congruence]); try (split; [congruence|tauto]).
  apply SFcompare_none in E. rewrite !is_nan_Prim2SF in E.
  destruct E; congruence.
Qed.

Lemma ltb_le (a b : float) :
  (a <? b)%float = true -> SFle (Prim2SF a) (Prim2SF b).
Proof. intros H. apply ltb_compare in H. unfold SFle. rewrite H. exact I. Qed.

Lemma ltb_not_nan (a b : float) :
  (a <? b)%float = true -> is_nan a = false /\ is_nan b = false.
Proof.
  intros H. apply ltb_compare in H.
  split; apply not_true_is_false; intros Hn; apply is_nan_Prim2SF in Hn;
    rewrite Hn in H; [|destruct (Prim2SF a)]; discriminate.
Qed.

Lemma ltb_irrefl (a : float) : (a <? a)%float = false.
Proof.
  rewrite ltb_spec. unfold SFltb.
  destruct (Prim2SF a) as [s|s| |s m e] eqn:E; simpl; try reflexivity.
  - destruct s; reflexivity.
  - change (Pos.compare_cont Eq m m) with (Pos.compare m m).
    destruct s; rewrite Z.compare_refl, Pos.compare_refl; reflexivity.
Qed.

Lemma ltb_neg_trans (a b c : float) :
  is_nan a = false -> is_nan b = false -> is_nan c = false ->
  (a <? b)%float = false -> (b <? c)%float = false -> (a <? c)%float = false.
Proof.
  intros Ha Hb Hc H1 H2.
  apply not_ltb_le in H1, H2; try assumption. apply not_ltb_le; try assumption.
  eapply SFle_trans; eauto.
Qed.

Lemma ltb_trans (a b c : float) :
  (a <? b)%float = true -> (b <? c)%float = true -> (a <? c)%float = true.
Proof.
  intros H1 H2.
  destruct (ltb_not_nan _ _ H1) as [Ha Hb]. destruct (ltb_not_nan _ _ H2) as [_ Hc].
  destruct (a <? c)%float eqn:E; [reflexivity|].
  apply not_ltb_le in E; try assumption.
  assert (Hcb : SFle (Prim2SF c) (Prim2SF b))
    by (eapply SFle_trans; [exact E|apply ltb_le; exact H1]).
  apply not_ltb_le in Hcb; try assumption. congruence.
Qed.

Lemma eqb_not_ltb (a b : float) :
  (a =? b)%float = true -> (a <? b)%float = false /\ (b <? a)%float = false.
Proof.
  intros H. apply eqb_compare in H. rewrite !ltb_spec. unfold SFltb.
  rewrite (SFcompare_antisym (Prim2SF a) (Prim2SF b)), H. auto.
Qed.

Lemma leb_fle (a b : float) : (a <=? b)%float = true <-> fle a b.
Proof.
  rewrite leb_spec. unfold SFleb, fle, SFle.
  destruct (SFcompare _ _) as [[]|]; split; try tauto; try congruence.
Qed.

Lemma ltb_fle (a b : float) : (a <? b)%float = true <-> fle a b /\ ~ fle b a.
Proof.
  rewrite ltb_spec. unfold SFltb, fle, SFle.
  rewrite (SFcompare_antisym (Prim2SF a) (Prim2SF b)).
  destruct (SFcompare _ _) as [[]|]; simpl; split; try tauto; try congruence.
Qed.

Lemma eqb_fle (a b : float) : (a =? b)%float = true <-> fle a b /\ fle b a.
Proof.
  rewrite eqb_spec. unfold SFeqb, fle, SFle.
  rewrite (SFcompare_antisym (Prim2SF a) (Prim2SF b)).
  destruct (SFcompare _ _) as [[]|]; simpl; split; try tauto; try congruence.
Qed.

Lemma fle_trans (a b c : float) : fle a b -> fle b c -> fle a c.
Proof. apply SFle_trans. Qed.

Lemma fle_not_nan (a b : float) : fle a b -> is_nan a = false /\ is_nan b = false.
Proof.
  unfold fle, SFle. intros H.
  split; apply not_true_is_false; intros Hn; apply is_nan_Prim2SF in Hn;
    rewrite Hn in H; [|destruct (Prim2SF a)]; exact H.
Qed.

Lemma fle_total (a b : float) :
  is_nan a = false -> is_nan b = false -> fle a b \/ fle b a.
Proof.
  intros Ha Hb. unfold fle, SFle.
  rewrite (SFcompare_antisym (Prim2SF a) (Prim2SF b)).
  destruct (SFcompare (Prim2SF a) (Prim2SF b)) as [[]|] eqn:E; simpl; auto.
  apply SFcompare_none in E. rewrite !is_nan_Prim2SF in E.
  destruct E; congruence.
Qed.

Lemma fle_refl (a : float) : is_nan a = false -> fle a a.
Proof. intros Ha. destruct (fle_total a a Ha Ha); assumption. Qed.

(** ** C2: the selector *)

Lemma better_pref (g : goal_t) (a b : float) :
  better g a b = true <-> pref g a b /\ ~ pref g b a.
Proof.
  destruct g; unfold better, pref, float_gt, float_lt; apply ltb_fle.
Qed.

Lemma not_better_pref (g : goal_t) (a b : float) :
  is_nan (rank g a) = false -> is_nan (rank g b) = false ->
  better g a b = false -> pref g b a.
Proof.
  destruct g; unfold better, pref, rank, float_gt, float_lt, fle;
    intros Ha Hb H; apply not_ltb_le in H; assumption.
Qed.

Lemma pref_trans (g : goal_t) (a b c : float) :
  pref g a b -> pref g b c -> pref g a c.
Proof. destruct g; unfold pref; eauto using fle_trans. Qed.

Lemma pref_total (g : goal_t) (a b : float) :
  is_nan (rank g a) = false -> is_nan (rank g b) = false ->
  pref g a b \/ pref g b a.
Proof.
  destruct g; unfold pref, rank; intros Ha Hb;
    try (destruct (fle_total a b Ha Hb); tauto).
  apply fle_total; assumption.
Qed.

Lemma pref_not_nan (g : goal_t) (a b : float) :
  pref g a b -> is_nan (rank g a) = false /\ is_nan (rank g b) = false.
Proof.
  destruct g; unfold pref, rank; intros H; apply fle_not_nan in H; tauto.
Qed.

Lemma consider_choose (self : Cruncher) best x :
  consider self best x = choose (goal self) best (function self x, x).
Proof.
  unfold consider, choose, better. destruct best as [[bv bs]|]; [|reflexivity].
  destruct (goal self); reflexivity.
Qed.

(** The selector is a fold over the scored assignments: the function is
    applied once to each assignment, in the order of the batch. *)
Lemma find_ideal_fold (self : Cruncher) (batch : list (dict value)) :
  _find_ideal_choice self batch
  = fold_left (choose (goal self))
              (map (fun a => (function self a, a)) batch) None.
Proof.
  unfold _find_ideal_choice. generalize (@None (float * dict value)).
  induction batch as [|x batch IH]; intros best; simpl; [reflexivity|].
  rewrite consider_choose. apply IH.
Qed.

Lemma find_ideal_snoc (self : Cruncher) (batch : list (dict value)) x :
  _find_ideal_choice self (batch ++ [x])
  = consider self (_find_ideal_choice self batch) x.
Proof. unfold _find_ideal_choice. rewrite fold_left_app. reflexivity. Qed.

(** A first score that is NaN is never replaced: every comparison with
    NaN is false. *)
Lemma nan_incumbent_stays (self : Cruncher) (rest : list (dict value)) :
  forall v a,
    is_nan (rank (goal self) v) = true ->
    fold_left (consider self) rest (Some (v, a)) = Some (v, a).
Proof.
  induction rest as [|x rest IH]; intros v a Hnan; [reflexivity|].
  cbn [fold_left]. rewrite consider_choose. unfold choose. cbn [fst].
  destruct (better (goal self) (function self x) v) eqn:Eb.
  - apply better_pref in Eb. destruct Eb as [Hp _].
    apply pref_not_nan in Hp. destruct Hp as [_ Hv]. congruence.
  - apply IH. exact Hnan.
Qed.

(** Behind a first score that is a number, the assignments whose score
    is NaN are passed over. *)
Lemma find_ideal_skips_nan (self : Cruncher) (rest : list (dict value)) :
  forall v a,
    is_nan (rank (goal self) v) = false ->
    fold_left (consider self) rest (Some (v, a))
    = fold_left (consider self)
        (filter (fun y => negb (is_nan (rank (goal self) (function self y)))) rest)
        (Some (v, a)).
Proof.
  induction rest as [|x rest IH]; intros v a Hv; [reflexivity|].
  cbn [fold_left filter].
  destruct (is_nan (rank (goal self) (function self x))) eqn:Ex; cbn [negb].
  - rewrite consider_choose. unfold choose. cbn [fst].
    destruct (better (goal self) (function self x) v) eqn:Eb.
    + apply better_pref in Eb. destruct Eb as [Hp _].
      apply pref_not_nan in Hp. destruct Hp as [Hx _]. congruence.
    + apply IH. exact Hv.
  - cbn [fold_left]. rewrite consider_choose. unfold choose. cbn [fst].
    destruct (better (goal self) (function self x) v); apply IH; assumption.
Qed.

(** With comparable scores, the selector holds the first of the best
    assignments seen. *)
Lemma find_ideal_first_best (self : Cruncher) (batch : list (dict value)) :
  batch <> [] ->
  (forall y, In y batch -> is_nan (rank (goal self) (function self y)) = false) ->
  exists i a,
    nth_error batch i = Some a
    /\ _find_ideal_choice self batch = Some (function self a, a)
    /\ (forall y, In y batch -> pref (goal self) (function self a) (function self y))
    /\ (forall j y, (j < i)%nat -> nth_error batch j = Some y ->
                    ~ pref (goal self) (function self y) (function self a)).
Proof.
  induction batch as [|x batch IH] using rev_ind; [congruence|].
  intros _ Hnan.
  assert (Hx : is_nan (rank (goal self) (function self x)) = false)
    by (apply Hnan, in_or_app; right; left; reflexivity).
  rewrite find_ideal_snoc.
  destruct batch as [|x0 batch0].
  - exists 0%nat, x. simpl. repeat split.
    + intros y [<-|[]]. destruct (pref_total _ _ _ Hx Hx); assumption.
    + intros j y Hj. lia.
  - destruct IH as (i & a & Hi & Hf & Hopt & Hfirst); [discriminate| |].
    { intros y Hy. apply Hnan, in_or_app. left. exact Hy. }
    assert (Hlt : (i < List.length (x0 :: batch0))%nat)
      by (apply nth_error_Some; congruence).
    rewrite Hf, consider_choose. unfold choose. cbn [fst].
    destruct (better (goal self) (function self x) (function self a)) eqn:Eb.
    + apply better_pref in Eb as [Hxa Hax].
      exists (List.length (x0 :: batch0)), x.
      split; [rewrite nth_error_app2, Nat.sub_diag by lia; reflexivity|].
      split; [reflexivity|]. split.
      * intros y Hy. apply in_app_or in Hy as [Hy|[<-|[]]].
        -- eapply pref_trans; [exact Hxa|apply Hopt; exact Hy].
        -- destruct (pref_total _ _ _ Hx Hx); assumption.
      * intros j y Hj Hy Hyx. rewrite nth_error_app1 in Hy by exact Hj.
        apply Hax. eapply pref_trans; [|exact Hyx].
        apply Hopt. eapply nth_error_In; eauto.
    + exists i, a.
      split; [rewrite nth_error_app1 by exact Hlt; exact Hi|].
      split; [reflexivity|]. split.
      * intros y Hy. apply in_app_or in Hy as [Hy|[<-|[]]]; [auto|].
        assert (Ha : is_nan (rank (goal self) (function self a)) = false)
          by (apply Hnan, in_or_app; left; eapply nth_error_In; eauto).
        apply not_better_pref; assumption.
      * intros j y Hj Hy. apply Hfirst with j; [exact Hj|].
        rewrite nth_error_app1 in Hy by lia. exact Hy.
Qed.

Lemma no_worse_pref (g : goal_t) (s v : float) :
  no_worse g s v = true <-> pref g s v.
Proof. destruct g; unfold no_worse, pref; apply leb_fle. Qed.

Lemma attains_pref (g : goal_t) (v s : float) :
  attains g v s = true <-> pref g v s /\ pref g s v.
Proof.
  unfold attains. rewrite eqb_fle. destruct g; unfold pref, rank; tauto.
Qed.

(** With comparable scores, the score returned is the best of the
    batch, and no earlier assignment is as good. *)
Lemma find_ideal_first_optimum (self : Cruncher) (batch : list (dict value)) :
  batch <> [] ->
  (forall y, In y batch -> is_nan (rank (goal self) (function self y)) = false) ->
  exists i a,
    nth_error batch i = Some a
    /\ _find_ideal_choice self batch = Some (function self a, a)
    /\ batch_optimal self batch (function self a)
    /\ forall j y, (j < i)%nat -> nth_error batch j = Some y ->
                   attains (goal self) (function self y) (function self a) = false.
Proof.
  intros Hne Hnum.
  destruct (find_ideal_first_best self batch Hne Hnum)
    as (i & a & Hi & Hf & Hbest & Hfirst).
  exists i, a. split; [exact Hi|]. split; [exact Hf|]. split.
  - split.
    + exists a. split; [eapply nth_error_In; eauto|reflexivity].
    + intros y Hy. apply no_worse_pref, Hbest, Hy.
  - intros j y Hj Hy. apply not_true_iff_false. intros Hat.
    apply attains_pref in Hat as [Hya _]. exact (Hfirst j y Hj Hy Hya).
Qed.

(** C2, as the code has it. On a non-empty batch the selector applies
    the function once to each assignment, in order, and folds the scored
    assignments with a strict comparison: the first one is the initial
    best; a later one replaces the best exactly when its score is
    strictly greater (goal 'max'), strictly less (goal 'min'), or
    strictly closer to the target t in absolute distance; a tie keeps
    the incumbent. Hence, when no score of the batch is NaN (under a
    target: no distance of a score to the target), the batch has a best
    score and the pair returned is the first assignment of the batch
    that attains it. A first score that is NaN is returned whatever the
    other scores are; behind a first score that is a number the NaN
    scores are passed over, and the pair returned is the first to attain
    the best of the scores that are numbers. *)
Theorem selector_keeps_first_best (self : Cruncher) (batch : list (dict value)) :
  batch <> [] ->
  _find_ideal_choice self batch
  = fold_left (choose (goal self))
              (map (fun a => (function self a, a)) batch) None
  /\ (exists x0 rest,
         batch = x0 :: rest
         /\ _find_ideal_choice self batch
            = fold_left (consider self) rest (Some (function self x0, x0)))
  /\ (forall best_val best_set val var_set,
         choose (goal self) (Some (best_val, best_set)) (val, var_set)
         = if match goal self with
              | GoalMax => (best_val <? val)%float
              | GoalMin => (val <? best_val)%float
              | GoalTarget t => (abs (t - val) <? abs (t - best_val))%float
              end
           then Some (val, var_set)
           else Some (best_val, best_set))
  /\ (forall best_val best_set val var_set,
         attains (goal self) val best_val = true ->
         choose (goal self) (Some (best_val, best_set)) (val, var_set)
         = Some (best_val, best_set))
  /\ (forall s,
         batch_optimal self batch s ->
         exists i a,
           nth_error batch i = Some a
           /\ _find_ideal_choice self batch = Some (function self a, a)
           /\ attains (goal self) (function self a) s = true
           /\ forall j y, (j < i)%nat -> nth_error batch j = Some y ->
                          attains (goal self) (function self y) s = false)
  /\ ((forall y, In y batch ->
                 is_nan (rank (goal self) (function self y)) = false) ->
      exists i a,
        nth_error batch i = Some a
        /\ _find_ideal_choice self batch = Some (function self a, a)
        /\ batch_optimal self batch (function self a)
        /\ forall j y, (j < i)%nat -> nth_error batch j = Some y ->
                       attains (goal self) (function self y) (function self a)
                       = false)
  /\ (forall x0 rest,
         batch = x0 :: rest ->
         is_nan (rank (goal self) (function self x0)) = true ->
         _find_ideal_choice self batch = Some (function self x0, x0))
  /\ (forall x0 rest numbers,
         batch = x0 :: rest ->
         is_nan (rank (goal self) (function self x0)) = false ->
         numbers
         = filter (fun y => negb (is_nan (rank (goal self) (function self y))))
             batch ->
         exists i a,
           nth_error numbers i = Some a
           /\ _find_ideal_choice self batch = Some (function self a, a)
           /\ batch_optimal self numbers (function self a)
           /\ forall j y, (j < i)%nat -> nth_error numbers j = Some y ->
                          attains (goal self) (function self y) (function self a)
                          = false).
Proof.
  intros Hne. split; [apply find_ideal_fold|]. split.
  { destruct batch as [|x0 rest]; [congruence|]. exists x0, rest. auto. }
  split.
  { intros bv bs val x. unfold choose, better, float_gt, float_lt, closeness.
    cbn [fst]. destruct (goal self); reflexivity. }
  split.
  { intros bv bs val x Ht. unfold choose. cbn [fst].
    destruct (better (goal self) val bv) eqn:Eb; [|reflexivity].
    apply better_pref in Eb. apply attains_pref in Ht. tauto. }
  split.
  { intros s [(a0 & Ha0 & Hs) Hopt].
    assert (Hpref : forall y, In y batch -> pref (goal self) s (function self y))
      by (intros y Hy; apply no_worse_pref, Hopt, Hy).
    destruct (find_ideal_first_best self batch Hne)
      as (i & a & Hi & Hf & Hbest & Hfirst).
    { intros y Hy. apply (pref_not_nan _ _ _ (Hpref y Hy)). }
    exists i, a. split; [exact Hi|]. split; [exact Hf|].
    assert (Has : pref (goal self) (function self a) s)
      by (rewrite <- Hs; apply Hbest, Ha0).
    assert (Hsa : pref (goal self) s (function self a))
      by (apply Hpref; eapply nth_error_In; eauto).
    split; [apply attains_pref; auto|].
    intros j y Hj Hy. apply not_true_iff_false. intros Hat.
    apply attains_pref in Hat as [Hys _].
    apply (Hfirst j y Hj Hy). eapply pref_trans; eauto. }
  split; [apply find_ideal_first_optimum; exact Hne|].
  split.
  { intros x0 rest -> Hnan. unfold _find_ideal_choice. cbn [fold_left consider].
    apply nan_incumbent_stays. exact Hnan. }
  intros x0 rest numbers -> Hx0 ->.
  assert (Hsame : _find_ideal_choice self (x0 :: rest)
                  = _find_ideal_choice self
                      (filter (fun y => negb (is_nan (rank (goal self)
                                                        (function self y))))
                         (x0 :: rest))).
  { cbn [filter]. rewrite Hx0. cbn [negb]. unfold _find_ideal_choice.
    cbn [fold_left consider]. apply find_ideal_skips_nan. exact Hx0. }
  rewrite Hsame. apply find_ideal_first_optimum.
  - cbn [filter]. rewrite Hx0. discriminate.
  - intros y Hy. apply filter_In in Hy. destruct Hy as [_ Hy].
    apply negb_true_iff in Hy. exact Hy.
Qed.

Lemma selector_keeps_first_best_witness :
  exists i a,
    nth_error batch_133 i = Some a
    /\ _find_ideal_choice (engine_score_x GoalMax) batch_133
       = Some (function (engine_score_x GoalMax) a, a)
    /\ attains GoalMax (function (engine_score_x GoalMax) a) 3 = true
    /\ forall j y, (j < i)%nat -> nth_error batch_133 j = Some y ->
                   attains GoalMax (function (engine_score_x GoalMax) y) 3 = false.
Proof.
  assert (Hne : batch_133 <> []) by discriminate.
  apply (proj1 (proj2 (proj2 (proj2 (proj2
           (selector_keeps_first_best (engine_score_x GoalMax) batch_133 Hne)))))).
  split.
  - exists [("x"%string, VFloat 3); ("tag"%string, VInt 1)].
    split; [right; left; reflexivity|reflexivity].
  - intros y [<-|[<-|[<-|[]]]]; reflexivity.
Defined.

(** A batch scoring NaN, 1, 2: under each goal the NaN assignment is
    returned, although it is the best of nothing, while the batch holds
    a score that is at least as good as every score that is a number. *)
Lemma nan_first_score_is_returned :
  batch_nan12 <> []
  /\ (forall g, In g [GoalMax; GoalMin; GoalTarget 2] ->
        exists a,
          nth_error batch_nan12 0 = Some a
          /\ _find_ideal_choice (engine_score_x g) batch_nan12
             = Some (function (engine_score_x g) a, a)
          /\ is_nan (function (engine_score_x g) a) = true
          /\ forall y, In y batch_nan12 ->
               no_worse g (function (engine_score_x g) a)
                 (function (engine_score_x g) y) = false
               /\ attains g (function (engine_score_x g) a)
                    (function (engine_score_x g) y) = false)
  /\ (forall g s, In g [GoalMax; GoalMin; GoalTarget 2] ->
        ~ batch_optimal (engine_score_x g) batch_nan12 s)
  /\ no_worse GoalMax 2 1 = true /\ no_worse GoalMax 2 2 = true
  /\ no_worse GoalMin 1 1 = true /\ no_worse GoalMin 1 2 = true
  /\ no_worse (GoalTarget 2) 2 1 = true /\ no_worse (GoalTarget 2) 2 2 = true.
Proof.
  split; [discriminate|]. split.
  { intros g Hg. exists [("x"%string, VFloat nan)].
    split; [reflexivity|].
    destruct Hg as [<-|[<-|[<-|[]]]];
      (split; [vm_compute; reflexivity|]); (split; [reflexivity|]);
      intros y [<-|[<-|[<-|[]]]]; split; vm_compute; reflexivity. }
  split.
  { intros g s Hg [_ Hopt].
    assert (Hn : no_worse g s (function (engine_score_x g)
                                 [("x"%string, VFloat nan)]) = true)
      by (apply Hopt; left; reflexivity).
    apply no_worse_pref, pref_not_nan in Hn. destruct Hn as [_ Hn].
    destruct Hg as [<-|[<-|[<-|[]]]]; vm_compute in Hn; discriminate Hn. }
  repeat split; vm_compute; reflexivity.
Qed.

(** ** C5: reaching the target *)

Lemma closeness_spec (t v : float) :
  Prim2SF (closeness t v) = SFabs (SF64sub (Prim2SF t) (Prim2SF v)).
Proof. unfold closeness. rewrite abs_spec, sub_spec. reflexivity. Qed.

Lemma SFabs_zero (x : spec_float) :
  SFabs x = S754_zero false -> exists s, x = S754_zero s.
Proof. destruct x; simpl; intros H; try discriminate. eauto. Qed.

Lemma closeness_zero_eqb (t v : float) :
  Prim2SF (closeness t v) = S754_zero false -> (v =? t)%float = true.
Proof.
  rewrite closeness_spec. intros H. apply SFabs_zero in H as [s H].
  apply SFsub_zero in H; try apply Prim2SF_valid.
  apply eqb_compare. rewrite SFcompare_antisym, H. reflexivity.
Qed.

Lemma eqb_closeness_zero (t v : float) :
  is_finite t = true -> (v =? t)%float = true ->
  Prim2SF (closeness t v) = S754_zero false.
Proof.
  intros Ht H. apply eqb_compare in H.
  rewrite closeness_spec.
  destruct (SFsub_eq (Prim2SF t) (Prim2SF v)) as [s Hs].
  - apply Prim2SF_finite. exact Ht.
  - rewrite SFcompare_antisym, H. reflexivity.
  - unfold SF64sub. rewrite Hs. reflexivity.
Qed.

Lemma closeness_not_nan (t v : float) :
  is_finite t = true -> is_nan v = false -> is_nan (closeness t v) = false.
Proof.
  intros Ht Hv. apply not_true_is_false. intros Hn.
  apply is_nan_Prim2SF in Hn. rewrite closeness_spec in Hn.
  assert (Hs : SF64sub (Prim2SF t) (Prim2SF v) = S754_nan)
    by (destruct (SF64sub _ _); simpl in Hn; congruence).
  revert Hs. apply SFsub_not_nan; try apply Prim2SF_valid.
  - apply Prim2SF_finite. exact Ht.
  - intros Hv'. apply is_nan_Prim2SF in Hv'. congruence.
Qed.

(** Nothing is closer than a distance of zero. *)
Lemma fle_closeness_zero (t a z : float) :
  Prim2SF z = S754_zero false -> fle (closeness t a) z ->
  Prim2SF (closeness t a) = S754_zero false.
Proof.
  unfold fle, SFle. rewrite closeness_spec. intros -> H.
  destruct (SF64sub (Prim2SF t) (Prim2SF a)) as [s|s| |s m e]; simpl in *;
    try reflexivity; contradiction.
Qed.

(** With a first score that is a number, the running best is a number,
    and at least as good as every number seen. *)
Lemma find_ideal_best_of_numbers (self : Cruncher) (x0 : dict value)
  (rest : list (dict value)) :
  is_nan (rank (goal self) (function self x0)) = false ->
  exists a,
    _find_ideal_choice self (x0 :: rest) = Some (function self a, a)
    /\ In a (x0 :: rest)
    /\ is_nan (rank (goal self) (function self a)) = false
    /\ forall y, In y (x0 :: rest) ->
                 is_nan (rank (goal self) (function self y)) = false ->
                 pref (goal self) (function self a) (function self y).
Proof.
  intros H0. induction rest as [|x rest IH] using rev_ind.
  - exists x0. simpl. repeat split; auto.
    intros y [<-|[]] Hy. destruct (pref_total _ _ _ Hy Hy); assumption.
  - destruct IH as (a & Hf & Ha & Hna & Hbest).
    change (x0 :: rest ++ [x]) with ((x0 :: rest) ++ [x]).
    rewrite find_ideal_snoc, Hf, consider_choose. unfold choose. cbn [fst].
    destruct (better (goal self) (function self x) (function self a)) eqn:Eb.
    + apply better_pref in Eb as [Hxa Hax].
      pose proof (pref_not_nan _ _ _ Hxa) as [Hnx _].
      exists x. split; [reflexivity|].
      split; [apply in_or_app; right; left; reflexivity|].
      split; [exact Hnx|].
      intros y Hy Hny. apply in_app_or in Hy as [Hy|[<-|[]]].
      * eapply pref_trans; [exact Hxa|apply Hbest; assumption].
      * destruct (pref_total _ _ _ Hny Hny); assumption.
    + exists a. split; [reflexivity|].
      split; [apply in_or_app; left; exact Ha|].
      split; [exact Hna|].
      intros y Hy Hny. apply in_app_or in Hy as [Hy|[<-|[]]]; [auto|].
      apply not_better_pref; assumption.
Qed.

Lemma crunch_loop_after_passes (k : nat) (fr0 fr : frame) :
  passes k fr0 fr ->
  forall n, crunch_loop (k + n) fr0 = crunch_loop n fr.
Proof.
  induction 1 as [fr0|k fr0 fr1 fr2 H IH H2]; intros n; [reflexivity|].
  replace (S k + n)%nat with (k + S n)%nat by lia.
  rewrite IH. simpl. rewrite H2. reflexivity.
Qed.

(** C5, as the code has it. With a finite target t, in any pass whose
    batch begins with an assignment whose score is not NaN and holds an
    assignment whose score is exactly t, the pass returns from inside
    the loop a pair whose score is exactly t: no narrowing and no
    generation take place, [self] is left as it was, and [crunch]
    returns that pair whatever remains of the iteration budget. *)
Theorem target_hit_returns_at_once (fr : frame) (t : float) :
  goal (self_ fr) = GoalTarget t ->
  is_finite t = true ->
  (exists x0 rest,
      points_ fr = x0 :: rest /\ is_nan (function (self_ fr) x0) = false) ->
  (exists hit,
      In hit (points_ fr) /\ (function (self_ fr) hit =? t)%float = true) ->
  exists ret vars,
    crunch_pass fr = Ok (Return (ret, vars) (self_ fr))
    /\ (ret =? t)%float = true
    /\ In vars (points_ fr) /\ ret = function (self_ fr) vars
    /\ (forall n, crunch_loop (S n) fr = Ok ((ret, vars), self_ fr))
    /\ (forall self k,
           loop_head self k fr -> (k < Z.to_nat (iterations self))%nat ->
           crunch self = Ok ((ret, vars), self_ fr)).
Proof.
  intros Hg Ht (x0 & rest & Hp & H0) (hit & Hin & Hhit).
  destruct (find_ideal_best_of_numbers (self_ fr) x0 rest)
    as (a & Hf & Ha & Hna & Hbest).
  { rewrite Hg. simpl. apply closeness_not_nan; assumption. }
  rewrite <- Hp in Hf, Ha, Hbest.
  pose proof (eqb_closeness_zero t _ Ht Hhit) as Hz.
  assert (Hret : (function (self_ fr) a =? t)%float = true).
  { apply closeness_zero_eqb.
    specialize (Hbest hit Hin). rewrite Hg in Hbest. simpl in Hbest.
    apply fle_closeness_zero with (z := closeness t (function (self_ fr) hit));
      [exact Hz|].
    apply Hbest. apply not_true_is_false. intros Hn.
    apply is_nan_Prim2SF in Hn. congruence. }
  assert (Hpass : crunch_pass fr
                  = Ok (Return (function (self_ fr) a, a) (self_ fr))).
  { unfold crunch_pass. rewrite Hf, Hg. simpl. rewrite Hret. reflexivity. }
  exists (function (self_ fr) a), a.
  split; [exact Hpass|]. split; [exact Hret|]. split; [exact Ha|].
  split; [reflexivity|]. split.
  - intros n. simpl. rewrite Hpass. reflexivity.
  - intros self k (fr0 & He & Hk) Hlt. unfold crunch. rewrite He. simpl.
    replace (Z.to_nat (iterations self))
      with (k + S (Z.to_nat (iterations self) - S k))%nat by lia.
    rewrite (crunch_loop_after_passes k fr0 fr Hk). simpl.
    rewrite Hpass. reflexivity.
Qed.

Lemma target_hit_returns_at_once_witness :
  exists ret vars,
    crunch (engine_target two_or_zero 2)
    = Ok ((ret, vars), self_ (entry_frame_target two_or_zero 2))
    /\ (ret =? 2)%float = true.
Proof.
  destruct (target_hit_returns_at_once (entry_frame_target two_or_zero 2) 2
              eq_refl eq_refl)
    as (ret & vars & _ & Hret & _ & _ & _ & Hc).
  - exists [("x"%string, VFloat 0)], (tl first_batch_zero_to_one).
    split; reflexivity.
  - exists [("x"%string, VFloat 1)]. split; [|reflexivity].
    right; right; left; reflexivity.
  - exists ret, vars. split; [|exact Hret].
    apply (Hc (engine_target two_or_zero 2) 0%nat).
    + exists (entry_frame_target two_or_zero 2).
      split; [vm_compute; reflexivity|constructor].
    + vm_compute. lia.
Defined.

(** C5, as stated, fails. Target 2, x in [0, 1], three points: the
    first batch is x = 0, 0.5, 1 and the function scores it NaN, NaN, 2.
    The NaN of the first assignment is never replaced (no comparison
    with NaN holds), so the pass narrows and generates again although
    the batch holds a score of exactly 2, and [crunch] returns a score
    that is not 2. Likewise with the target float('inf') and the scores
    0, 0, inf: the distance of inf to the target is NaN. *)
Lemma nan_hides_the_target :
  (exists fr1 ret vars self',
      crunch_entry (engine_target two_or_nan 2)
      = Ok (entry_frame_target two_or_nan 2)
      /\ In [("x"%string, VFloat 1)] (points_ (entry_frame_target two_or_nan 2))
      /\ (two_or_nan [("x"%string, VFloat 1)] =? 2)%float = true
      /\ crunch_pass (entry_frame_target two_or_nan 2) = Ok (Continue fr1)
      /\ crunch (engine_target two_or_nan 2) = Ok ((ret, vars), self')
      /\ (ret =? 2)%float = false)
  /\ (exists fr1 ret vars self',
         crunch_entry (engine_target inf_or_zero infinity)
         = Ok (entry_frame_target inf_or_zero infinity)
         /\ In [("x"%string, VFloat 1)]
               (points_ (entry_frame_target inf_or_zero infinity))
         /\ (inf_or_zero [("x"%string, VFloat 1)] =? infinity)%float = true
         /\ crunch_pass (entry_frame_target inf_or_zero infinity)
            = Ok (Continue fr1)
         /\ crunch (engine_target inf_or_zero infinity) = Ok ((ret, vars), self')
         /\ (ret =? infinity)%float = false).
Proof.
  split.
  - eexists. eexists. eexists. eexists.
    split; [vm_compute; reflexivity|].
    split; [right; right; left; reflexivity|].
    split; [reflexivity|].
    split; [vm_compute; reflexivity|].
    split; [vm_compute; reflexivity|reflexivity].
  - eexists. eexists. eexists. eexists.
    split; [vm_compute; reflexivity|].
    split; [right; right; left; reflexivity|].
    split; [reflexivity|].
    split; [vm_compute; reflexivity|].
    split; [vm_compute; reflexivity|reflexivity].
Qed.

(** ** C3: the points of a float range *)

Lemma py_last_snoc (xs : list value) (x : value) : py_last (xs ++ [x]) = Ok x.
Proof. unfold py_last. rewrite rev_app_distr. reflexivity. Qed.

Lemma float_loop (inc : value) (k : nat) : forall (pre : list value) (prev : value),
  repeatM k (fun points =>
               prev <- py_last points ;;
               p <- py_add prev inc ;;
               Ok (points ++ [p]))
          (pre ++ [prev])
  = (added <- ramp k prev inc ;; Ok (pre ++ [prev] ++ added)).
Proof.
  induction k as [|k IH]; intros pre prev; simpl.
  - reflexivity.
  - rewrite py_last_snoc. simpl.
    destruct (py_add prev inc) as [p|e]; simpl; [|reflexivity].
    rewrite IH. destruct (ramp k p inc) as [rest|e]; simpl; [|reflexivity].
    rewrite <- !app_assoc. reflexivity.
Qed.

(** The method, written with [ramp]. *)
Lemma split_float_list_ramp (self : Cruncher) (lo hi : value) :
  _split_float_list_and_get_increment self (VList [lo; hi])
  = (diff <- py_sub hi lo ;;
     step <- py_truediv diff (VInt (points_per_split self - 1)) ;;
     interior <- ramp (Z.to_nat (points_per_split self - 2)) lo step ;;
     Ok (lo :: interior ++ [hi], step)).
Proof.
  unfold _split_float_list_and_get_increment. simpl.
  destruct (py_sub hi lo) as [diff|e]; simpl; [|reflexivity].
  destruct (py_truediv diff _) as [step|e]; simpl; [|reflexivity].
  rewrite (float_loop step _ [] lo).
  destruct (ramp _ lo step) as [interior|e]; reflexivity.
Qed.

Lemma ramp_length (k : nat) : forall prev inc ps,
  ramp k prev inc = Ok ps -> List.length ps = k.
Proof.
  induction k as [|k IH]; intros prev inc ps H; simpl in H.
  - inversion H. reflexivity.
  - bind_inv H as p Ep. bind_inv H as rest Er. inversion H; subst.
    simpl. f_equal. eauto.
Qed.

(** Each element of [prev :: ramp] plus the increment is the next. *)
Lemma ramp_next (k : nat) : forall prev inc ps i p,
  ramp k prev inc = Ok ps ->
  (i < k)%nat -> nth_error (prev :: ps) i = Some p ->
  exists q, nth_error (prev :: ps) (S i) = Some q /\ py_add p inc = Ok q.
Proof.
  induction k as [|k IH]; intros prev inc ps i p H Hi Hp; [lia|].
  simpl in H. bind_inv H as p1 Ep. bind_inv H as rest Er. inversion H; subst.
  destruct i as [|i].
  - simpl in Hp. inversion Hp; subst. exists p1. auto.
  - simpl in Hp. destruct (IH p1 inc rest i p Er) as (q & Hq & Hadd);
      [lia|exact Hp|]. exists q. auto.
Qed.

Lemma ramp_floats (k : nat) : forall prev inc,
  ramp k (VFloat prev) (VFloat inc) = Ok (map VFloat (framp k prev inc)).
Proof.
  induction k as [|k IH]; intros prev inc; simpl; [reflexivity|].
  rewrite IH. reflexivity.
Qed.

(** What the method returns on a range [lo, hi]. *)
Lemma split_float_list_returns (self : Cruncher) (lo hi : value) points step :
  3 <= points_per_split self ->
  _split_float_list_and_get_increment self (VList [lo; hi]) = Ok (points, step) ->
  (exists diff, py_sub hi lo = Ok diff
                /\ py_truediv diff (VInt (points_per_split self - 1)) = Ok step)
  /\ Z.of_nat (List.length points) = points_per_split self
  /\ nth_error points 0 = Some lo
  /\ nth_error points (Z.to_nat (points_per_split self - 1)) = Some hi
  /\ forall i p, (i < Z.to_nat (points_per_split self - 2))%nat ->
                 nth_error points i = Some p ->
                 exists q, nth_error points (S i) = Some q
                           /\ py_add p step = Ok q.
Proof.
  intros Hn H. rewrite split_float_list_ramp in H.
  bind_inv H as diff Ed. bind_inv H as step' Es. bind_inv H as interior Er.
  inversion H; subst; clear H.
  pose proof (ramp_length _ _ _ _ Er) as Hlen.
  split; [eauto|].
  split; [simpl; rewrite length_app; simpl; lia|].
  split; [reflexivity|]. split.
  - replace (Z.to_nat (points_per_split self - 1))
      with (S (List.length interior)) by lia.
    simpl. rewrite nth_error_app2, Nat.sub_diag by lia. reflexivity.
  - intros i p Hi Hp.
    assert (Hp' : nth_error (lo :: interior) i = Some p).
    { change (lo :: interior ++ [hi]) with ((lo :: interior) ++ [hi]) in Hp.
      rewrite nth_error_app1 in Hp by (simpl; lia). exact Hp. }
    destruct (ramp_next _ _ _ _ i p Er Hi Hp') as (q & Hq & Hadd).
    exists q. split; [|exact Hadd].
    change (lo :: interior ++ [hi]) with ((lo :: interior) ++ [hi]).
    rewrite nth_error_app1; [exact Hq|]. apply nth_error_Some. congruence.
Qed.

(** C3, as the code has it. For any range [lo, hi] and
    points_per_split = n >= 3, the method computes
    step = (hi - lo) / (n - 1) in binary64, then the n - 2 interior
    points by adding step to the point before, then appends hi itself.
    So whenever it returns, the list has exactly n elements, the first
    is lo, the last is hi, the step returned is the binary64 value of
    (hi - lo) / (n - 1), and each of the first n - 2 elements plus the
    step is, in floating point, the next element. The step from the
    last interior point to hi is not computed: hi is appended as it is.
    With float endpoints the method returns whenever the division does.
    For a variable of type float whose range is [lo, hi], this list is
    the candidate list of the variable and this step is the step
    recorded for it by the generation of the test points, and every
    assignment of the batch takes the variable from this list. *)
Theorem float_points (self : Cruncher) (lo hi : value) (n : Z) :
  points_per_split self = n ->
  3 <= n ->
  _split_float_list_and_get_increment self (VList [lo; hi])
  = (diff <- py_sub hi lo ;;
     step <- py_truediv diff (VInt (n - 1)) ;;
     interior <- ramp (Z.to_nat (n - 2)) lo step ;;
     Ok (lo :: interior ++ [hi], step))
  /\ (forall points step,
         _split_float_list_and_get_increment self (VList [lo; hi])
         = Ok (points, step) ->
         (exists diff, py_sub hi lo = Ok diff
                       /\ py_truediv diff (VInt (n - 1)) = Ok step)
         /\ Z.of_nat (List.length points) = n
         /\ nth_error points 0 = Some lo
         /\ nth_error points (Z.to_nat (n - 1)) = Some hi
         /\ forall i p, (i < Z.to_nat (n - 2))%nat ->
                        nth_error points i = Some p ->
                        exists q, nth_error points (S i) = Some q
                                  /\ py_add p step = Ok q)
  /\ (forall flo fhi step,
         lo = VFloat flo -> hi = VFloat fhi ->
         py_truediv (VFloat (fhi - flo)) (VInt (n - 1)) = Ok (VFloat step) ->
         _split_float_list_and_get_increment self (VList [lo; hi])
         = Ok (VFloat flo :: map VFloat (framp (Z.to_nat (n - 2)) flo step)
                 ++ [VFloat fhi],
               VFloat step))
  /\ (forall key ranges,
         dict_find (types self) key = Some (Some KFloat) ->
         dict_find ranges key = Some (VList [lo; hi]) ->
         candidates self ranges key
         = _split_float_list_and_get_increment self (VList [lo; hi]))
  /\ (forall key ranges option_dic self',
         dict_find (types self) key = Some (Some KFloat) ->
         In key (dict_keys (variables self)) ->
         dict_find ranges key = Some (VList [lo; hi]) ->
         candidate_lists self ranges = Ok (option_dic, self') ->
         exists points step diff,
           py_sub hi lo = Ok diff
           /\ py_truediv diff (VInt (n - 1)) = Ok step
           /\ _split_float_list_and_get_increment self (VList [lo; hi])
              = Ok (points, step)
           /\ dict_find option_dic key = Some points
           /\ dict_find (global_increment_storage self') key = Some step
           /\ Z.of_nat (List.length points) = n
           /\ nth_error points 0 = Some lo
           /\ nth_error points (Z.to_nat (n - 1)) = Some hi
           /\ forall i p, (i < Z.to_nat (n - 2))%nat ->
                          nth_error points i = Some p ->
                          exists q, nth_error points (S i) = Some q
                                    /\ py_add p step = Ok q)
  /\ (forall key ranges batch self',
         dict_find (types self) key = Some (Some KFloat) ->
         In key (dict_keys (variables self)) ->
         dict_find ranges key = Some (VList [lo; hi]) ->
         _generate_test_points self ranges = Ok (batch, self') ->
         exists points step,
           _split_float_list_and_get_increment self (VList [lo; hi])
           = Ok (points, step)
           /\ dict_find (global_increment_storage self') key = Some step
           /\ forall a, In a batch ->
                        exists x, dict_find a key = Some x /\ In x points).
Proof.
  intros <- Hn. split; [apply split_float_list_ramp|]. split.
  { intros points step H. apply split_float_list_returns; assumption. }
  split.
  { intros flo fhi step -> -> Hs. rewrite split_float_list_ramp.
    change (py_sub (VFloat fhi) (VFloat flo)) with (Ok (VFloat (fhi - flo))).
    simpl bind at 1. rewrite Hs. simpl. rewrite ramp_floats. reflexivity. }
  split; [intros key ranges; apply candidates_float|]. split.
  - intros key ranges option_dic self' Hty Hkey Hr H.
    apply candidate_lists_spec in H as (_ & Hin & _).
    destruct (Hin key Hkey) as (points & step & Hc & Hod & Hst).
    rewrite (candidates_float self ranges key _ Hty Hr) in Hc.
    destruct (split_float_list_returns self lo hi points step Hn Hc)
      as ((diff & Hd & Hq) & Hlen & Hfirst & Hlast & Hnext).
    exists points, step, diff. repeat (split; [assumption|]). exact Hnext.
  - intros key ranges batch self' Hty Hkey Hr H.
    destruct (generated_at self ranges batch self' key Hkey H)
      as (od & points & step & _ & Hc & _ & Hst & Hbatch).
    rewrite (candidates_float self ranges key _ Hty Hr) in Hc.
    exists points, step. auto.
Qed.

Lemma float_points_witness :
  _split_float_list_and_get_increment engine_near_seven
    (VList [VFloat 0; VFloat 10])
  = Ok ([VFloat 0; VFloat 5; VFloat 10], VFloat 5)
  /\ match candidate_lists engine_near_seven zero_to_ten with
     | Ok (option_dic, self') =>
         dict_find option_dic "x"%string
         = Some [VFloat 0; VFloat 5; VFloat 10]
         /\ dict_find (global_increment_storage self') "x"%string
            = Some (VFloat 5)
     | Raise _ => False
     end.
Proof.
  pose proof (float_points engine_near_seven (VFloat 0) (VFloat 10) 3
                eq_refl (Z.le_refl 3)) as (_ & _ & Hfloats & _ & Hlists & _).
  pose proof (Hfloats 0%float 10%float 5%float eq_refl eq_refl eq_refl) as Hs.
  split; [exact Hs|].
  destruct (candidate_lists engine_near_seven zero_to_ten)
    as [[option_dic self']|e] eqn:E; [|vm_compute in E; discriminate E].
  destruct (Hlists "x"%string zero_to_ten option_dic self' eq_refl
              (or_introl eq_refl) eq_refl E)
    as (points & step & diff & _ & _ & Hsplit & Hod & Hst & _).
  rewrite Hs in Hsplit. inversion Hsplit; subst. auto.
Defined.

(** C3, as stated, fails beyond any tolerance. For the range
    [-1e308, 1e308] and n = 3 the difference hi - lo overflows: the
    step computed and recorded is infinity, although lo = -hi and the
    increment (hi - lo) / 2 is hi itself, a finite number; the middle
    point is infinity, above hi, and the two gaps are infinity and
    minus infinity. No tolerance that is a number covers the distance
    between the recorded step and the increment. For the range
    [1e16, 1e16 + 2] and n = 3 the step is 1 and the addition
    1e16 + 1 rounds back to 1e16: the first two points are equal and
    the gaps are 0 and 2. *)
Lemma float_points_beyond_tolerance :
  (-1e308 <=? 1e308)%float = true
  /\ _split_float_list_and_get_increment (engine_three_points wide)
       (VList [VFloat (-1e308); VFloat 1e308])
     = Ok ([VFloat (-1e308); VFloat infinity; VFloat 1e308], VFloat infinity)
  /\ match candidate_lists (engine_three_points wide) wide with
     | Ok (option_dic, self') =>
         dict_find option_dic "x"%string
         = Some [VFloat (-1e308); VFloat infinity; VFloat 1e308]
         /\ dict_find (global_increment_storage self') "x"%string
            = Some (VFloat infinity)
     | Raise _ => False
     end
  /\ Prim2SF (-1e308) = SFopp (Prim2SF 1e308)
  /\ (1e308 / 2 - -1e308 / 2 =? 1e308)%float = true
  /\ (1e308 <? infinity)%float = true
  /\ (infinity - -1e308 =? infinity)%float = true
  /\ (1e308 - infinity =? neg_infinity)%float = true
  /\ (forall tol : float,
        (abs (infinity - 1e308) <=? tol)%float = true -> tol = infinity)
  /\ (1e16 <=? 10000000000000002)%float = true
  /\ _split_float_list_and_get_increment (engine_three_points near_1e16)
       (VList [VFloat 1e16; VFloat 10000000000000002])
     = Ok ([VFloat 1e16; VFloat 1e16; VFloat 10000000000000002], VFloat 1)
  /\ match candidate_lists (engine_three_points near_1e16) near_1e16 with
     | Ok (option_dic, self') =>
         dict_find option_dic "x"%string
         = Some [VFloat 1e16; VFloat 1e16; VFloat 10000000000000002]
         /\ dict_find (global_increment_storage self') "x"%string
            = Some (VFloat 1)
     | Raise _ => False
     end
  /\ (1e16 - 1e16 =? 0)%float = true
  /\ (10000000000000002 - 1e16 =? 2)%float = true.
Proof.
  repeat split; try (vm_compute; reflexivity).
  intros tol H. rewrite leb_spec in H.
  replace (Prim2SF (abs (infinity - 1e308))) with (S754_infinity false) in H
    by (vm_compute; reflexivity).
  rewrite <- (SF2Prim_Prim2SF tol).
  destruct (Prim2SF tol) as [sg|[|]| |sg m e]; try discriminate H.
  reflexivity.
Qed.

(** ** C4: the points of an integer range *)

Lemma int_loop (inc hi : value) (k : nat) :
  forall (points pbf : list value) (prev : value),
    match
      repeatM k
        (fun '(points, points_but_float) =>
           prev <- py_last points_but_float ;;
           p <- py_add prev inc ;;
           let points_but_float := points_but_float ++ [p] in
           cur <- py_last points_but_float ;;
           c <- py_round cur ;;
           if negb (existsb (int_eq c) points) && negb (int_eq c hi)
           then Ok (points ++ [VInt c], points_but_float)
           else Ok (points, points_but_float))
        (points, pbf ++ [prev])
    with
    | Ok (pts, _) => int_interior k prev inc hi points = Ok pts
    | Raise e => int_interior k prev inc hi points = Raise e
    end.
Proof.
  induction k as [|k IH]; intros points pbf prev; simpl; [reflexivity|].
  rewrite py_last_snoc. simpl.
  destruct (py_add prev inc) as [p|e]; simpl; [|reflexivity].
  rewrite py_last_snoc. simpl.
  destruct (py_round p) as [c|e]; simpl; [|reflexivity].
  destruct (negb (existsb (int_eq c) points) && negb (int_eq c hi)); simpl;
    apply (IH _ (pbf ++ [prev]) p).
Qed.

Lemma split_int_tuple_interior (self : Cruncher) (lo hi : value) :
  _split_int_tuple_and_get_increment self (VTuple [lo; hi])
  = (diff <- py_sub hi lo ;;
     step <- py_truediv diff (VInt (points_per_split self - 1)) ;;
     points <- int_interior (Z.to_nat (points_per_split self - 2))
                            lo step hi [lo] ;;
     Ok (points ++ [hi], step)).
Proof.
  unfold _split_int_tuple_and_get_increment. simpl.
  destruct (py_sub hi lo) as [diff|e]; simpl; [|reflexivity].
  destruct (py_truediv diff _) as [step|e]; simpl; [|reflexivity].
  pose proof (int_loop step hi (Z.to_nat (points_per_split self - 2)) [lo] [] lo)
    as H.
  simpl app in H.
  destruct (repeatM _ _ _) as [[pts pbf]|e]; rewrite H; reflexivity.
Qed.

Lemma int_eq_VInt (c z : Z) : int_eq c (VInt z) = (c =? z).
Proof.
  unfold int_eq, num_eq, is_eq. simpl.
  destruct (Z.compare_spec c z); destruct (Z.eqb_spec c z); try reflexivity; lia.
Qed.

Lemma existsb_int_eq (c : Z) (seen : list Z) :
  existsb (int_eq c) (map VInt seen) = existsb (Z.eqb c) seen.
Proof.
  induction seen as [|z seen IH]; simpl; [reflexivity|].
  rewrite int_eq_VInt, IH. reflexivity.
Qed.

Lemma int_interior_floats (q : float) (hi : Z) (k : nat) :
  forall (f : float) (seen : list Z),
    int_interior k (VFloat f) (VFloat q) (VInt hi) (map VInt seen)
    = (rounded <- mapM float_round (framp k f q) ;;
       Ok (map VInt (seen ++ keep_new seen hi rounded))).
Proof.
  induction k as [|k IH]; intros f seen.
  - simpl. rewrite app_nil_r. reflexivity.
  - cbn [int_interior framp mapM].
    change (py_add (VFloat f) (VFloat q)) with (Ok (VFloat (f + q))).
    cbn [bind].
    change (py_round (VFloat (f + q))) with (float_round (f + q)).
    destruct (float_round (f + q)) as [c|e]; cbn [bind]; [|reflexivity].
    rewrite existsb_int_eq, int_eq_VInt.
    destruct (negb (existsb (Z.eqb c) seen) && negb (c =? hi)) eqn:Ec.
    + change (map VInt seen ++ [VInt c]) with (map VInt seen ++ map VInt [c]).
      rewrite <- map_app, IH.
      destruct (mapM float_round _) as [rounded|e]; cbn [bind keep_new];
        [|reflexivity].
      rewrite Ec, <- app_assoc. reflexivity.
    + rewrite IH.
      destruct (mapM float_round _) as [rounded|e]; cbn [bind keep_new];
        [|reflexivity].
      rewrite Ec. reflexivity.
Qed.

Lemma int_interior_from_int (q : float) (lo hi : Z) (k : nat) (seen : list Z) :
  int_interior (S k) (VInt lo) (VFloat q) (VInt hi) (map VInt seen)
  = (f <- float_of_int lo ;;
     int_interior (S k) (VFloat f) (VFloat q) (VInt hi) (map VInt seen)).
Proof.
  simpl. unfold py_add, lift2. simpl.
  destruct (float_of_int lo) as [f|e]; reflexivity.
Qed.




(** [round] gives the nearest integer: the value [m * 2^e] is at most
    one half away from it. *)
Lemma round_half_even_nearest (m : positive) (e : Z) :
  (0 <= e -> round_half_even m e = Zpos m * 2 ^ e)
  /\ (e < 0 ->
      2 * Z.abs (round_half_even m e * 2 ^ (- e) - Zpos m) <= 2 ^ (- e)).
Proof.
  unfold round_half_even. split; intros He.
  - destruct (Z.leb_spec 0 e); [reflexivity|lia].
  - destruct (Z.leb_spec 0 e); [lia|].
    assert (Hd : 0 < 2 ^ (- e)) by (apply Z.pow_pos_nonneg; lia).
    pose proof (Z.div_mod (Zpos m) (2 ^ (- e)) ltac:(lia)) as Hdm.
    pose proof (Z.mod_pos_bound (Zpos m) (2 ^ (- e)) Hd) as Hr.
    set (d := 2 ^ (- e)) in *. set (q := Zpos m / d) in *.
    set (r := Zpos m mod d) in *.
    destruct (Z.compare_spec (2 * r) d); [destruct (Z.even q)| |]; nia.
Qed.

(** The method on a pair of ints, written with [framp] and [keep_new]. *)
Lemma split_int_tuple_equation (self : Cruncher) (lo hi : Z) :
  3 <= points_per_split self ->
  _split_int_tuple_and_get_increment self (VTuple [VInt lo; VInt hi])
  = (q <- int_truediv (hi - lo) (points_per_split self - 1) ;;
     f <- float_of_int lo ;;
     rounded <- mapM float_round
                  (framp (Z.to_nat (points_per_split self - 2)) f q) ;;
     Ok (VInt lo :: map VInt (keep_new [lo] hi rounded) ++ [VInt hi],
         VFloat q)).
Proof.
  intros Hn. rewrite split_int_tuple_interior.
  change (py_sub (VInt hi) (VInt lo)) with (Ok (VInt (hi - lo))). simpl bind at 1.
  unfold py_truediv, lift2. simpl.
  destruct (int_truediv (hi - lo) _) as [q|e]; simpl; [|reflexivity].
  destruct (Z.to_nat (points_per_split self - 2)) as [|k] eqn:Ek; [lia|].
  change [VInt lo] with (map VInt [lo]).
  rewrite int_interior_from_int.
  destruct (float_of_int lo) as [f|e]; cbn [bind]; [|reflexivity].
  rewrite int_interior_floats.
  destruct (mapM float_round _) as [rounded|e]; reflexivity.
Qed.

(** Whenever the method returns on a pair of ints, it returns ints. *)
Lemma split_int_tuple_ints (self : Cruncher) (lo hi : Z) points step :
  3 <= points_per_split self ->
  _split_int_tuple_and_get_increment self (VTuple [VInt lo; VInt hi])
  = Ok (points, step) ->
  exists zs, points = map VInt zs.
Proof.
  intros Hn H. rewrite split_int_tuple_equation in H by assumption.
  bind_inv H as q Eq. bind_inv H as f Ef. bind_inv H as rounded Er.
  inversion H; subst. exists (lo :: keep_new [lo] hi rounded ++ [hi]).
  simpl. rewrite map_app. reflexivity.
Qed.



(** ** C8, in every iteration *)

Lemma pass_continue_inv (fr fr' : frame) :
  crunch_pass fr = Ok (Continue fr') ->
  exists ret vars r,
    _find_ideal_choice (self_ fr) (points_ fr) = Some (ret, vars)
    /\ _convert_best_val_var_pair_into_ranges (self_ fr) (ret, vars) = Ok r
    /\ _generate_test_points (self_ fr) r = Ok (points_ fr', self_ fr')
    /\ var_range fr' = Some r
    /\ ret_vars fr' = Some (ret, vars).
Proof.
  unfold crunch_pass. intros H.
  destruct (_find_ideal_choice _ _) as [[ret vars]|]; [|discriminate].
  destruct (goal_reached _ _); [discriminate|].
  bind_inv H as r Er. bind_inv H as [points self'] Eg.
  inversion H; subst; clear H. exists ret, vars, r. simpl. auto.
Qed.

(** The assignments of every batch have the declared variables as keys. *)
Lemma loop_head_keys (self : Cruncher) (k : nat) (fr : frame) :
  loop_head self k fr ->
  forall a key, In a (points_ fr) ->
                (In key (dict_keys a) <-> In key (dict_keys (variables self))).
Proof.
  intros Hh. pose proof Hh as (fr0 & He & Hp).
  destruct Hp as [fr0|k fr0 fr1 fr2 Hp H2]; intros a key Ha.
  - unfold crunch_entry in He. bind_inv He as [points self'] Eg.
    inversion He; subst. simpl in Ha.
    destruct (generated_points _ _ _ _ a Eg Ha) as (_ & Hk & _). apply Hk.
  - assert (Hh1 : loop_head self k fr1) by (exists fr0; auto).
    apply loop_head_keeps_configuration in Hh1.
    apply pass_continue_inv in H2 as (ret & vars & r & _ & _ & Eg & _).
    rewrite Hh1 in Eg.
    destruct (generated_points _ _ _ _ a Eg Ha) as (_ & Hk & _). apply Hk.
Qed.



(** ** C1: narrowing within the declared bounds *)

Lemma float_compare_spec (x y : float) :
  float_compare x y = SFcompare (Prim2SF x) (Prim2SF y).
Proof.
  unfold float_compare. rewrite compare_spec.
  destruct (SFcompare _ _) as [[]|]; reflexivity.
Qed.

Lemma num_compare_None (a b : num) :
  num_compare a b = None -> num_is_nan a = true \/ num_is_nan b = true.
Proof.
  destruct a as [x|x], b as [y|y]; simpl.
  - discriminate.
  - intros H. right. apply is_nan_Prim2SF.
    destruct (Prim2SF y); simpl in H; try discriminate. reflexivity.
  - intros H. left. apply is_nan_Prim2SF.
    destruct (Prim2SF x); simpl in H; try discriminate. reflexivity.
  - rewrite float_compare_spec. intros H. apply SFcompare_none in H.
    rewrite !is_nan_Prim2SF in H. exact H.
Qed.

Lemma num_compare_refl (a : num) :
  num_is_nan a = false -> num_compare a a = Some Eq.
Proof.
  destruct a as [x|x]; simpl; intros H.
  - rewrite Z.compare_refl. reflexivity.
  - rewrite float_compare_spec. apply SFcompare_refl.
    intros Hn. apply is_nan_Prim2SF in Hn. congruence.
Qed.

Lemma num_le_not_nan (a b : num) :
  num_le a b = true -> num_is_nan a = false /\ num_is_nan b = false.
Proof.
  unfold num_le, is_le. intros H.
  destruct a as [x|x], b as [y|y]; simpl in *; auto.
  - split; [reflexivity|]. apply not_true_is_false. intros Hn.
    apply is_nan_Prim2SF in Hn. rewrite Hn in H. discriminate.
  - split; [|reflexivity]. apply not_true_is_false. intros Hn.
    apply is_nan_Prim2SF in Hn. rewrite Hn in H. discriminate.
  - rewrite float_compare_spec in H.
    split; apply not_true_is_false; intros Hn; apply is_nan_Prim2SF in Hn;
      rewrite Hn in H; [|destruct (Prim2SF x)]; discriminate.
Qed.

(** The lower clamp: [if start < lo: start = lo]. *)
Lemma clamp_low (start lo : num) :
  num_is_nan lo = false ->
  num_ge (if num_lt start lo then lo else start) lo = true
  \/ num_is_nan (if num_lt start lo then lo else start) = true.
Proof.
  intros Hlo. unfold num_lt, is_lt.
  destruct (num_compare start lo) as [[]|] eqn:E.
  - left. unfold num_ge. rewrite E. reflexivity.
  - left. unfold num_ge. rewrite num_compare_refl by assumption. reflexivity.
  - left. unfold num_ge. rewrite E. reflexivity.
  - right. apply num_compare_None in E as [E|E]; [exact E|congruence].
Qed.

(** The upper clamp: [if end > hi: end = hi]. *)
Lemma clamp_high (end_ hi : num) :
  num_is_nan hi = false ->
  num_le (if num_gt end_ hi then hi else end_) hi = true
  \/ num_is_nan (if num_gt end_ hi then hi else end_) = true.
Proof.
  intros Hhi. unfold num_gt, is_gt.
  destruct (num_compare end_ hi) as [[]|] eqn:E.
  - left. unfold num_le. rewrite E. reflexivity.
  - left. unfold num_le. rewrite E. reflexivity.
  - left. unfold num_le. rewrite num_compare_refl by assumption. reflexivity.
  - right. apply num_compare_None in E as [E|E]; [exact E|congruence].
Qed.

Lemma num_is_nan_of_num (n : num) : value_is_nan (of_num n) = num_is_nan n.
Proof. destruct n; reflexivity. Qed.

Lemma num_of_of_num (n : num) : num_of (of_num n) = Ok n.
Proof. destruct n; reflexivity. Qed.

Lemma num_of_number (v : value) :
  is_number v = true -> exists n, v = of_num n.
Proof.
  destruct v; try discriminate; intros _;
    [exists (Int z)|exists (Flt f)]; reflexivity.
Qed.

Lemma lift2_Ok op a b v :
  lift2 op a b = Ok v ->
  exists x y r, num_of a = Ok x /\ num_of b = Ok y /\ op x y = Ok r /\ v = of_num r.
Proof.
  unfold lift2. intros H. bind_inv H as x Ex. bind_inv H as y Ey.
  bind_inv H as r Er. inversion H; subst. exists x, y, r. auto.
Qed.

Lemma keep_in_given_range_spec (self : Cruncher) key (start end_ : num)
  (lo hi : num) s e :
  dict_find (variables self) key = Some (VList [of_num lo; of_num hi])
  \/ dict_find (variables self) key = Some (VTuple [of_num lo; of_num hi]) ->
  keep_in_given_range self key (of_num start) (of_num end_) = Ok (s, e) ->
  s = of_num (if num_lt start lo then lo else start)
  /\ e = of_num (if num_gt end_ hi then hi else end_).
Proof.
  intros Hd H. unfold keep_in_given_range in H.
  assert (Hget : exists d, dict_get (variables self) key = Ok d
                           /\ py_index d 0 = Ok (of_num lo)
                           /\ py_index d 1 = Ok (of_num hi)).
  { destruct Hd as [Hd|Hd]; apply dict_get_find in Hd; eexists;
      (split; [exact Hd|split; reflexivity]). }
  destruct Hget as (d & Hg & H0 & H1). rewrite Hg in H. simpl in H.
  rewrite H0, H1 in H. simpl in H.
  unfold py_lt, py_gt, cmp2 in H. rewrite !num_of_of_num in H. simpl in H.
  inversion H; subst; clear H.
  split; [destruct (num_lt start lo)|destruct (num_gt end_ hi)]; reflexivity.
Qed.

Lemma int_clamp (self : Cruncher) key (start end_ lo hi : Z) s e :
  dict_find (variables self) key = Some (VTuple [VInt lo; VInt hi]) ->
  keep_in_given_range self key (VInt start) (VInt end_) = Ok (s, e) ->
  exists s' e', s = VInt s' /\ e = VInt e' /\ lo <= s' /\ e' <= hi.
Proof.
  intros Hd H.
  destruct (keep_in_given_range_spec self key (Int start) (Int end_)
              (Int lo) (Int hi) s e) as [-> ->]; [right; exact Hd|exact H|].
  unfold num_lt, num_gt, is_lt, is_gt. simpl.
  destruct (Z.compare_spec start lo); destruct (Z.compare_spec end_ hi);
    simpl; eexists; eexists; (split; [reflexivity|split; [reflexivity|lia]]).
Qed.

Lemma py_cmp_of_num op (a b : num) : cmp2 op (of_num a) (of_num b) = Ok (op a b).
Proof. unfold cmp2. rewrite !num_of_of_num. reflexivity. Qed.

Lemma wf_types (self : Cruncher) key decl :
  well_formed self -> dict_find (variables self) key = Some decl ->
  recognized_shape decl = true
  /\ exists ty, _determine_variable_type decl = Ok ty
                /\ dict_get (types self) key = Ok ty.
Proof.
  intros [_ Hwf] Hd. destruct (Hwf key decl Hd) as (Hs & ty & Hty & Hf).
  split; [exact Hs|]. exists ty. split; [exact Hty|]. apply dict_get_find, Hf.
Qed.

(** What one turn of the narrowing loop leaves for a declared variable,
    given a best assignment that holds the declared constants and ints
    under the integer variables. *)
Lemma narrowed_ok (self : Cruncher) (best : float * dict value) key decl entry :
  well_formed self ->
  dict_find (variables self) key = Some decl ->
  (is_number decl = true -> dict_find (snd best) key = Some decl) ->
  (forall lo hi, decl = VTuple [VInt lo; VInt hi] ->
                 exists z, dict_find (snd best) key = Some (VInt z)) ->
  narrowed self best key = Ok entry ->
  narrowed_entry decl entry
  /\ (is_number decl = true -> entry = Some decl)
  /\ (forall lo hi, decl = VTuple [VInt lo; VInt hi] ->
                    exists s e, entry = Some (VTuple [VInt s; VInt e])).
Proof.
  intros Hwf Hd Hconst Hint H.
  destruct (wf_types self key decl Hwf Hd) as (Hshape & ty & Hty & Hget).
  unfold narrowed in H. rewrite Hget in H. cbn [bind] in H.
  destruct decl as [z|f|b|str| |xs|xs]; try discriminate.
  - (* an int constant *)
    inversion Hty; subst ty.
    rewrite (proj2 (dict_get_find _ _ _) (Hconst eq_refl)) in H.
    inversion H; subst. simpl. repeat split; auto. intros; discriminate.
  - (* a float constant *)
    inversion Hty; subst ty.
    rewrite (proj2 (dict_get_find _ _ _) (Hconst eq_refl)) in H.
    inversion H; subst. simpl. repeat split; auto. intros; discriminate.
  - (* a float range *)
    inversion Hty; subst ty.
    destruct xs as [|a [|b [|c xs]]]; try discriminate.
    simpl in Hshape. apply andb_prop in Hshape as [Ha Hb].
    apply num_of_number in Ha as [lo ->]. apply num_of_number in Hb as [hi ->].
    bind_inv H as inc Einc. bind_inv H as bv Eb.
    bind_inv H as start Es. bind_inv H as end_ Ee.
    bind_inv H as [s e] Ek. inversion H; subst; clear H.
    apply lift2_Ok in Es as (x1 & y1 & r1 & _ & _ & _ & ->).
    apply lift2_Ok in Ee as (x2 & y2 & r2 & _ & _ & _ & ->).
    apply (keep_in_given_range_spec self key r1 r2 lo hi) in Ek as [-> ->];
      [|left; exact Hd].
    split; [|split; [discriminate|intros; discriminate]].
    simpl. intros Hle. unfold py_le in Hle. rewrite py_cmp_of_num in Hle.
    assert (Hle' : num_le lo hi = true) by (injection Hle; auto).
    apply num_le_not_nan in Hle' as [Hlo Hhi].
    eexists. eexists. split; [reflexivity|].
    unfold py_ge, py_le. rewrite !py_cmp_of_num, !num_is_nan_of_num.
    split.
    + destruct (clamp_low r1 lo Hlo) as [->| ->]; auto.
    + destruct (clamp_high r2 hi Hhi) as [->| ->]; auto.
  - (* a tuple *)
    destruct xs as [|a [|b [|c xs]]]; try discriminate;
      try (destruct a; discriminate); try (destruct a, b; discriminate).
    destruct a as [lo|?|b1|?| |?|?]; try discriminate;
      destruct b as [hi|?|b2|?| |?|?]; try discriminate.
    + (* an integer range *)
      simpl in Hty. inversion Hty; subst ty.
      destruct (Hint lo hi eq_refl) as [z Hz]. apply dict_get_find in Hz.
      assert (Hnarrow : exists s e,
                 entry = Some (VTuple [VInt s; VInt e]) /\ lo <= s /\ e <= hi).
      { destruct (check_all_ints self).
        - rewrite (proj2 (dict_get_find _ _ _) Hd) in H. simpl in H.
          inversion H; subst. exists lo, hi. repeat split; lia.
        - bind_inv H as inc Einc. bind_inv H as small Esm.
          destruct small.
          + rewrite Hz in H. simpl in H.
            bind_inv H as [s e] Ek. inversion H; subst; clear H.
            destruct (int_clamp self key _ _ lo hi s e Hd Ek)
              as (s' & e' & -> & -> & ? & ?).
            exists s', e'. auto.
          + rewrite Hz in H. cbn [bind] in H.
            bind_inv H as below Eb. bind_inv H as start Es.
            bind_inv H as above Ea. bind_inv H as end_ Ee.
            bind_inv H as [s e] Ek. inversion H; subst; clear H.
            destruct (int_clamp self key _ _ lo hi s e Hd Ek)
              as (s' & e' & -> & -> & ? & ?).
            exists s', e'. auto. }
      destruct Hnarrow as (s & e & -> & Hs & He).
      split; [simpl; eauto|]. split; [discriminate|]. intros; eauto.
    + (* a boolean *)
      simpl in Hty. inversion Hty; subst ty. inversion H; subst.
      split; [reflexivity|]. split; [discriminate|]. intros; discriminate.
Qed.

Lemma validation_passed (vars : dict value) (keys : list string) :
  foldM (fun (_ : unit) key =>
           v <- dict_get vars key ;;
           if negb (validate_single v) then Raise (FailedValidation key v)
           else Ok tt) keys tt = Ok tt ->
  forall key decl, In key keys -> dict_find vars key = Some decl ->
                   validate_single decl = true.
Proof.
  induction keys as [|k keys IH]; intros H key decl Hin Hd; [destruct Hin|].
  simpl in H. bind_inv H as [] E. bind_inv E as v Ev.
  apply dict_get_find in Ev.
  destruct (validate_single v) eqn:Hv; simpl in E; [|discriminate].
  destruct Hin as [->|Hin]; [congruence|]. eapply IH; eauto.
Qed.

Lemma sort_keys_types (vars : dict value) (keys : list string) :
  forall kt0 kt,
    foldM (fun key_types key =>
             v <- dict_get vars key ;;
             ty <- _determine_variable_type v ;;
             Ok (dict_set key_types key ty)) keys kt0 = Ok kt ->
    forall key decl, In key keys -> dict_find vars key = Some decl ->
                     exists ty, _determine_variable_type decl = Ok ty
                                /\ dict_find kt key = Some ty.
Proof.
  induction keys as [|k keys IH]; intros kt0 kt H key decl Hin Hd;
    [destruct Hin|].
  simpl in H. bind_inv H as kt1 E. bind_inv E as v Ev. bind_inv E as ty Ety.
  inversion E; subst; clear E. apply dict_get_find in Ev.
  destruct (in_dec string_dec key keys) as [Hk|Hk]; [eapply IH; eauto|].
  destruct Hin as [->|Hin]; [|contradiction].
  assert (v = decl) by congruence. subst v. exists ty. split; [exact Ety|].
  clear IH Ety Ev Hd.
  assert (Hfind : dict_find (dict_set kt0 key ty) key = Some ty)
    by apply dict_find_set_same.
  revert H Hfind. generalize (dict_set kt0 key ty). revert Hk.
  induction keys as [|k keys IH]; intros Hk d H Hfind; simpl in H.
  - inversion H; subst. exact Hfind.
  - bind_inv H as d1 E. bind_inv E as v Ev. bind_inv E as ty' Ety.
    inversion E; subst; clear E.
    apply (IH (fun Hin => Hk (or_intror Hin)) _ H).
    rewrite dict_find_set_other; [exact Hfind|].
    intros ->. apply Hk. left. reflexivity.
Qed.

Lemma init_well_formed f vars n it g ca self :
  __init__ f vars n it g ca = Ok self -> well_formed self.
Proof.
  intros Hinit. pose proof (init_fields _ _ _ _ _ _ _ Hinit)
    as (_ & Hv & Hn & _ & _ & _ & _ & Hs & Hn3 & _).
  unfold __init__ in Hinit.
  destruct (n <? 3); [discriminate|]. destruct (it <? 1); [discriminate|].
  bind_inv Hinit as u Ev. destruct u.
  split; [rewrite Hn; exact Hn3|].
  intros key decl Hd. rewrite Hv in Hd.
  assert (Hin : In key (dict_keys vars)).
  { destruct (in_dec string_dec key (dict_keys vars)) as [?|Hn']; auto.
    apply dict_find_None in Hn'. congruence. }
  split.
  - rewrite <- validate_single_shape.
    unfold _validate_variables in Ev. destruct vars as [|p vars']; [discriminate|].
    eapply validation_passed; eauto.
  - unfold _sort_keys in Hs. eapply sort_keys_types; eauto.
Qed.

Lemma well_formed_storage (self : Cruncher) s :
  well_formed self -> well_formed (set_global_increment_storage self s).
Proof. intros H. exact H. Qed.

(** A batch generated from a search space that is in order is in order. *)
Lemma generate_ok (self : Cruncher) (r : dict value) points self' :
  well_formed self -> space_ok self r ->
  _generate_test_points self r = Ok (points, self') ->
  points_ok self points.
Proof.
  intros Hwf Hr Hg a key decl Ha Hd.
  destruct (generated_points self r points self' a Hg Ha) as (_ & Hkeys & Hc).
  assert (Hin : In key (dict_keys (variables self))).
  { destruct (in_dec string_dec key (dict_keys (variables self))) as [?|Hn']; auto.
    apply dict_find_None in Hn'. congruence. }
  split; [apply Hkeys; exact Hin|].
  destruct (Hc key Hin) as (cands & inc & x & Hcand & _ & Hx & Hxin).
  destruct (wf_types self key decl Hwf Hd) as (Hshape & ty & Hty & Hget).
  destruct (Hr key decl Hd) as [Hrc Hri].
  unfold candidates in Hcand. rewrite Hget in Hcand. cbn [bind] in Hcand.
  split.
  - intros Hnum. specialize (Hrc Hnum). apply dict_get_find in Hrc.
    destruct decl; try discriminate; inversion Hty; subst ty;
      rewrite Hrc in Hcand; inversion Hcand; subst;
      destruct Hxin as [<-|[]]; exact Hx.
  - intros lo hi ->. simpl in Hty. inversion Hty; subst ty.
    destruct (Hri lo hi eq_refl) as (s & e & Hre). apply dict_get_find in Hre.
    destruct (check_all_ints self); rewrite Hre in Hcand; cbn [bind] in Hcand.
    + rewrite get_every_int in Hcand. inversion Hcand; subst.
      apply in_map_iff in Hxin as (z & <- & _). eauto.
    + destruct Hwf as [Hn _].
      destruct (split_int_tuple_ints self s e cands inc Hn Hcand) as [zs ->].
      apply in_map_iff in Hxin as (z & <- & _). eauto.
Qed.

(** Narrowing around a member of a batch that is in order. *)
Lemma convert_ok (self : Cruncher) (points : list (dict value)) best r :
  well_formed self -> points_ok self points -> In (snd best) points ->
  _convert_best_val_var_pair_into_ranges self best = Ok r ->
  space_ok self r
  /\ forall key decl, dict_find (variables self) key = Some decl ->
                      narrowed_entry decl (dict_find r key).
Proof.
  intros Hwf Hp Hb Hc.
  apply narrowing_spec in Hc as [Hin _].
  assert (H : forall key decl,
             dict_find (variables self) key = Some decl ->
             narrowed_entry decl (dict_find r key)
             /\ (is_number decl = true -> dict_find r key = Some decl)
             /\ (forall lo hi, decl = VTuple [VInt lo; VInt hi] ->
                   exists s e, dict_find r key = Some (VTuple [VInt s; VInt e]))).
  { intros key decl Hd. destruct (Hp _ key decl Hb Hd) as (Hk & Hconst & Hint).
    destruct (Hin key Hk) as (entry & Hn & ->).
    eapply narrowed_ok; eauto. }
  split.
  - intros key decl Hd. destruct (H key decl Hd) as (_ & ? & ?). auto.
  - intros key decl Hd. apply (H key decl Hd).
Qed.

Lemma space_ok_declared (self : Cruncher) : space_ok self (variables self).
Proof. intros key decl Hd. split; [auto|]. intros lo hi ->. eauto. Qed.

Lemma entry_points_ok (self : Cruncher) (fr : frame) :
  well_formed self -> crunch_entry self = Ok fr -> points_ok self (points_ fr).
Proof.
  intros Hwf H. unfold crunch_entry in H. bind_inv H as [points self'] E.
  inversion H; subst. simpl. eapply generate_ok; eauto.
  apply space_ok_declared.
Qed.

Lemma pass_points_ok (self : Cruncher) (fr fr' : frame) :
  well_formed self ->
  self_ fr = set_global_increment_storage self
               (global_increment_storage (self_ fr)) ->
  points_ok self (points_ fr) ->
  crunch_pass fr = Ok (Continue fr') -> points_ok self (points_ fr').
Proof.
  intros Hwf Hs Hp H. unfold crunch_pass in H.
  destruct (_find_ideal_choice _ _) as [[ret vars]|] eqn:Ef; [|discriminate].
  destruct (goal_reached _ _); [discriminate|].
  bind_inv H as r Er. bind_inv H as [points self'] Eg.
  inversion H; subst; clear H. simpl.
  apply find_ideal_member in Ef as [Hin _].
  rewrite Hs in Er, Eg.
  destruct (convert_ok _ (points_ fr) (ret, vars) r
              (well_formed_storage self _ Hwf) Hp Hin Er) as [Hr _].
  exact (generate_ok _ r points self' (well_formed_storage self _ Hwf) Hr Eg).
Qed.

Lemma loop_head_points_ok (self : Cruncher) (k : nat) (fr : frame) :
  well_formed self -> loop_head self k fr -> points_ok self (points_ fr).
Proof.
  intros Hwf (fr0 & He & Hp).
  pose proof (entry_points_ok self fr0 Hwf He) as H0.
  pose proof (entry_keeps_configuration self fr0 He) as Hs0.
  assert (H : points_ok self (points_ fr)
              /\ self_ fr = set_global_increment_storage self
                              (global_increment_storage (self_ fr))).
  { induction Hp as [fr0|k fr0 fr1 fr2 Hp IH H2]; [auto|].
    destruct (IH He H0 Hs0) as [Hp1 Hs1]. split.
    - eapply pass_points_ok; eauto.
    - apply pass_keeps_configuration in H2. rewrite H2, Hs1. reflexivity. }
  apply H.
Qed.

(** C1, as the code has it. In every pass of a run on a constructed
    engine, the search space that narrowing produces holds, for each
    declared variable: the declared constant, unchanged; the pair
    (True, False) for a boolean, whatever pair was declared; for an
    integer range a pair of ints with new_low >= the declared low and
    new_high <= the declared high; for a float range declared with
    low <= high a pair of bounds each of which, unless it is NaN, is
    within the declared bounds (new_low >= low, new_high <= high). *)
Theorem narrowing_stays_within_declared f vars n it g ca (self : Cruncher) :
  __init__ f vars n it g ca = Ok self ->
  forall k fr best r,
    loop_head self k fr ->
    _find_ideal_choice (self_ fr) (points_ fr) = Some best ->
    _convert_best_val_var_pair_into_ranges (self_ fr) best = Ok r ->
    forall key decl,
      dict_find vars key = Some decl ->
      narrowed_entry decl (dict_find r key).
Proof.
  intros Hinit k fr best r Hh Hf Hc key decl Hd.
  pose proof (init_well_formed _ _ _ _ _ _ _ Hinit) as Hwf.
  apply init_fields in Hinit as (_ & Hv & _). rewrite <- Hv in Hd.
  pose proof (loop_head_points_ok self k fr Hwf Hh) as Hp.
  pose proof (loop_head_keeps_configuration self k fr Hh) as Hs.
  destruct best as [ret vars']. apply find_ideal_member in Hf as [Hin _].
  rewrite Hs in Hc.
  destruct (convert_ok _ (points_ fr) (ret, vars') r
              (well_formed_storage self _ Hwf) Hp Hin Hc) as [_ H].
  apply (H key decl Hd).
Qed.

Lemma narrowing_stays_within_declared_witness :
  exists fr best r,
    crunch_entry engine_mixed = Ok fr
    /\ _find_ideal_choice (self_ fr) (points_ fr) = Some best
    /\ _convert_best_val_var_pair_into_ranges (self_ fr) best = Ok r
    /\ narrowed_entry (VTuple [VInt 0; VInt 10]) (dict_find r "i"%string)
    /\ narrowed_entry (VList [VFloat 0; VFloat 10]) (dict_find r "x"%string).
Proof.
  eexists. eexists. eexists.
  split; [vm_compute; reflexivity|].
  split; [vm_compute; reflexivity|].
  split; [vm_compute; reflexivity|].
  split.
  - eapply (narrowing_stays_within_declared near_seven mixed 3 2 GoalMax false
              engine_mixed eq_refl 0%nat).
    + eexists. split; [vm_compute; reflexivity|constructor].
    + vm_compute. reflexivity.
    + vm_compute. reflexivity.
    + reflexivity.
  - eapply (narrowing_stays_within_declared near_seven mixed 3 2 GoalMax false
              engine_mixed eq_refl 0%nat).
    + eexists. split; [vm_compute; reflexivity|constructor].
    + vm_compute. reflexivity.
    + vm_compute. reflexivity.
    + reflexivity.
Defined.

(** C1, as stated, fails twice. A float range declared as
    [-1e308, 1e308] is valid and has low <= high; its width overflows, so
    the increment and the middle point are inf; when the middle point is
    the best one, the new low is inf - inf = NaN, which no clamp
    replaces, and NaN >= -1e308 does not hold. And a boolean declared as
    (False, True) is returned as (True, False). *)
Lemma narrowing_leaves_the_declared_space :
  (exists fr best r,
      __init__ beyond wide 3 1 GoalMax false = Ok engine_wide
      /\ py_le (VFloat (-1e308)) (VFloat 1e308) = Ok true
      /\ crunch_entry engine_wide = Ok fr
      /\ _find_ideal_choice (self_ fr) (points_ fr) = Some best
      /\ snd best = [("x"%string, VFloat infinity)]
      /\ _convert_best_val_var_pair_into_ranges (self_ fr) best = Ok r
      /\ dict_find r "x"%string = Some (VList [VFloat nan; VFloat 1e308])
      /\ py_ge (VFloat nan) (VFloat (-1e308)) = Ok false)
  /\ (exists fr best r,
         __init__ zero_function false_true 3 1 GoalMax false
         = Ok engine_false_true
         /\ crunch_entry engine_false_true = Ok fr
         /\ _find_ideal_choice (self_ fr) (points_ fr) = Some best
         /\ _convert_best_val_var_pair_into_ranges (self_ fr) best = Ok r
         /\ dict_find r "b"%string = Some (VTuple [VBool true; VBool false])
         /\ dict_find false_true "b"%string
            = Some (VTuple [VBool false; VBool true])
         /\ VTuple [VBool true; VBool false] <> VTuple [VBool false; VBool true]).
Proof.
  split.
  - eexists. eexists. eexists.
    split; [reflexivity|]. split; [reflexivity|].
    split; [vm_compute; reflexivity|].
    split; [vm_compute; reflexivity|].
    split; [reflexivity|].
    split; [vm_compute; reflexivity|].
    split; reflexivity.
  - eexists. eexists. eexists.
    split; [reflexivity|].
    split; [vm_compute; reflexivity|].
    split; [vm_compute; reflexivity|].
    split; [vm_compute; reflexivity|].
    split; [reflexivity|]. split; [reflexivity|]. discriminate.
Qed.

(* ================================================================== *)
(** * Further properties *)
(* ================================================================== *)

(** ** The text of the time estimate *)

Lemma int_gt (a b : Z) : num_gt (Int a) (Int b) = (b <? a).
Proof.
  unfold num_gt, num_compare, is_gt.
  destruct (Z.compare_spec a b); destruct (Z.ltb_spec b a); try reflexivity; lia.
Qed.

Lemma more_than_int (s u : Z) : more_than (Int s) u = Ok (1 <? s - u).
Proof. unfold more_than. simpl. rewrite int_gt. reflexivity. Qed.

Lemma take_unit (r u : Z) :
  0 < u -> u <= r -> (r - u) / u = r / u - 1 /\ (r - u) mod u = r mod u.
Proof.
  intros Hu Hr. replace (r - u) with (r + (-1) * u) by lia.
  rewrite Z.div_add, Z.mod_add by lia. split; reflexivity.
Qed.

Lemma pretty_loop_int (fuel : nat) : forall (s : Z) (b : breakdown),
  2 <= s -> (Z.to_nat s <= fuel)%nat ->
  pretty_loop fuel (Int s) b
  = Ok (Some (add_breakdown b (add_breakdown (in_units (s - 2)) one_second))).
Proof.
  induction fuel as [|fuel IH]; intros s b Hs Hf; [lia|].
  cbn [pretty_loop]. rewrite int_gt. destruct (Z.ltb_spec 1 s) as [_|]; [|lia].
  cbn [negb]. rewrite !more_than_int. cbn [bind num_sub arith].
  destruct (Z.ltb_spec 1 (s - 31557600)).
  { rewrite IH by lia. do 2 f_equal.
    replace (s - 31557600 - 2) with (s - 2 - 31557600) by lia.
    unfold in_units, add_breakdown; cbn [years months weeks days hours minutes secs one_second].
    destruct (take_unit (s - 2) 31557600) as [-> ->]; try lia.
    f_equal; lia. }
  assert (Q1 : (s - 2) / 31557600 = 0) by (apply Z.div_small; lia).
  assert (Q1' : (s - 2) mod 31557600 = s - 2) by (apply Z.mod_small; lia).
  destruct (Z.ltb_spec 1 (s - 2629800)).
  { rewrite IH by lia. do 2 f_equal.
    replace (s - 2629800 - 2) with (s - 2 - 2629800) by lia.
    unfold in_units, add_breakdown; cbn [years months weeks days hours minutes secs one_second].
    rewrite Q1, Q1'.
    rewrite (Z.div_small (s - 2 - 2629800)), (Z.mod_small (s - 2 - 2629800)) by lia.
    destruct (take_unit (s - 2) 2629800) as [-> ->]; try lia.
    f_equal; lia. }
  assert (Q2 : (s - 2) / 2629800 = 0) by (apply Z.div_small; lia).
  assert (Q2' : (s - 2) mod 2629800 = s - 2) by (apply Z.mod_small; lia).
  destruct (Z.ltb_spec 1 (s - 604800)).
  { rewrite IH by lia. do 2 f_equal.
    replace (s - 604800 - 2) with (s - 2 - 604800) by lia.
    unfold in_units, add_breakdown; cbn [years months weeks days hours minutes secs one_second].
    rewrite Q1, Q1', Q2, Q2'.
    rewrite (Z.div_small (s - 2 - 604800) 31557600),
      (Z.mod_small (s - 2 - 604800) 31557600) by lia.
    rewrite (Z.div_small (s - 2 - 604800) 2629800),
      (Z.mod_small (s - 2 - 604800) 2629800) by lia.
    destruct (take_unit (s - 2) 604800) as [-> ->]; try lia.
    f_equal; lia. }
  assert (Q3 : (s - 2) / 604800 = 0) by (apply Z.div_small; lia).
  assert (Q3' : (s - 2) mod 604800 = s - 2) by (apply Z.mod_small; lia).
  destruct (Z.ltb_spec 1 (s - 86400)).
  { rewrite IH by lia. do 2 f_equal.
    replace (s - 86400 - 2) with (s - 2 - 86400) by lia.
    unfold in_units, add_breakdown; cbn [years months weeks days hours minutes secs one_second].
    rewrite Q1, Q1', Q2, Q2', Q3, Q3'.
    rewrite (Z.div_small (s - 2 - 86400) 31557600),
      (Z.mod_small (s - 2 - 86400) 31557600) by lia.
    rewrite (Z.div_small (s - 2 - 86400) 2629800),
      (Z.mod_small (s - 2 - 86400) 2629800) by lia.
    rewrite (Z.div_small (s - 2 - 86400) 604800),
      (Z.mod_small (s - 2 - 86400) 604800) by lia.
    destruct (take_unit (s - 2) 86400) as [-> ->]; try lia.
    f_equal; lia. }
  assert (Q4 : (s - 2) / 86400 = 0) by (apply Z.div_small; lia).
  assert (Q4' : (s - 2) mod 86400 = s - 2) by (apply Z.mod_small; lia).
  destruct (Z.ltb_spec 1 (s - 3600)).
  { rewrite IH by lia. do 2 f_equal.
    replace (s - 3600 - 2) with (s - 2 - 3600) by lia.
    unfold in_units, add_breakdown; cbn [years months weeks days hours minutes secs one_second].
    rewrite Q1, Q1', Q2, Q2', Q3, Q3', Q4, Q4'.
    rewrite (Z.div_small (s - 2 - 3600) 31557600),
      (Z.mod_small (s - 2 - 3600) 31557600) by lia.
    rewrite (Z.div_small (s - 2 - 3600) 2629800),
      (Z.mod_small (s - 2 - 3600) 2629800) by lia.
    rewrite (Z.div_small (s - 2 - 3600) 604800),
      (Z.mod_small (s - 2 - 3600) 604800) by lia.
    rewrite (Z.div_small (s - 2 - 3600) 86400),
      (Z.mod_small (s - 2 - 3600) 86400) by lia.
    destruct (take_unit (s - 2) 3600) as [-> ->]; try lia.
    f_equal; lia. }
  assert (Q5 : (s - 2) / 3600 = 0) by (apply Z.div_small; lia).
  assert (Q5' : (s - 2) mod 3600 = s - 2) by (apply Z.mod_small; lia).
  destruct (Z.ltb_spec 1 (s - 60)).
  { rewrite IH by lia. do 2 f_equal.
    replace (s - 60 - 2) with (s - 2 - 60) by lia.
    unfold in_units, add_breakdown; cbn [years months weeks days hours minutes secs one_second].
    rewrite Q1, Q1', Q2, Q2', Q3, Q3', Q4, Q4', Q5, Q5'.
    rewrite (Z.div_small (s - 2 - 60) 31557600),
      (Z.mod_small (s - 2 - 60) 31557600) by lia.
    rewrite (Z.div_small (s - 2 - 60) 2629800),
      (Z.mod_small (s - 2 - 60) 2629800) by lia.
    rewrite (Z.div_small (s - 2 - 60) 604800),
      (Z.mod_small (s - 2 - 60) 604800) by lia.
    rewrite (Z.div_small (s - 2 - 60) 86400),
      (Z.mod_small (s - 2 - 60) 86400) by lia.
    rewrite (Z.div_small (s - 2 - 60) 3600),
      (Z.mod_small (s - 2 - 60) 3600) by lia.
    destruct (take_unit (s - 2) 60) as [-> ->]; try lia.
    f_equal; lia. }
  assert (Q6 : (s - 2) / 60 = 0) by (apply Z.div_small; lia).
  assert (Q6' : (s - 2) mod 60 = s - 2) by (apply Z.mod_small; lia).
  destruct (Z.eq_dec s 2) as [->|Hne].
  - destruct fuel as [|fuel]; [simpl in Hf; lia|].
    cbn [pretty_loop]. rewrite int_gt. change (1 <? 2 - 1) with false.
    cbn [negb]. do 2 f_equal. destruct b; unfold add_breakdown; simpl.
    f_equal; lia.
  - rewrite IH by lia. do 2 f_equal.
    unfold in_units, add_breakdown; cbn [years months weeks days hours minutes secs one_second].
    rewrite Q1, Q1', Q2, Q2', Q3, Q3', Q4, Q4', Q5, Q5', Q6, Q6'.
    repeat first [ rewrite (Z.div_small (s - 1 - 2)) by lia
                 | rewrite (Z.mod_small (s - 1 - 2)) by lia ].
    f_equal; lia.
Qed.
Lemma in_units_total (r : Z) :
  0 <= r ->
  total_seconds (in_units r) = r
  /\ 0 <= years (in_units r)
  /\ 0 <= months (in_units r) <= 11
  /\ 0 <= weeks (in_units r) <= 4
  /\ 0 <= days (in_units r) <= 6
  /\ 0 <= hours (in_units r) <= 23
  /\ 0 <= minutes (in_units r) <= 59
  /\ 0 <= secs (in_units r) <= 59.
Proof.
  intros Hr. unfold total_seconds, in_units.
  cbn [years months weeks days hours minutes secs].
  repeat split; Z.div_mod_to_equations; lia.
Qed.

(** X1. Given a whole number [s >= 2] of seconds, the
    pretty-printer leaves its loop and the text it formats reads
    [s - 2] seconds taken apart into years of 31557600 seconds, months
    of 2629800, weeks, days, hours and minutes, plus one second: the
    fields add up to [s - 1], not to [s], and the field of the seconds
    runs from 1 to 60. *)
Theorem printed_time_of_whole_seconds (s : Z) (fuel : nat) :
  2 <= s -> (Z.to_nat s <= fuel)%nat ->
  let text := add_breakdown (in_units (s - 2)) one_second in
  _pretty_print_estimated_time_in_seconds fuel (Int s) = Ok (Some text)
  /\ total_seconds text = s - 1
  /\ 0 <= years text
  /\ 0 <= months text <= 11
  /\ 0 <= weeks text <= 4
  /\ 0 <= days text <= 6
  /\ 0 <= hours text <= 23
  /\ 0 <= minutes text <= 59
  /\ 1 <= secs text <= 60.
Proof.
  intros Hs Hf text. split.
  - unfold _pretty_print_estimated_time_in_seconds.
    rewrite pretty_loop_int by assumption. reflexivity.
  - destruct (in_units_total (s - 2)) as (Ht & Hy & Hmo & Hw & Hd & Hh & Hmi & Hse);
      [lia|].
    unfold text, total_seconds, add_breakdown, one_second in *.
    cbn [years months weeks days hours minutes secs] in *.
    repeat split; lia.
Qed.

Lemma printed_time_of_whole_seconds_witness :
  _pretty_print_estimated_time_in_seconds 3700 (Int 3662)
  = Ok (Some {| years := 0; months := 0; weeks := 0; days := 0;
                hours := 1; minutes := 1; secs := 1 |}).
Proof.
  exact (proj1 (printed_time_of_whole_seconds 3662 3700
                  ltac:(lia) ltac:(vm_compute; lia))).
Defined.

Lemma nan_is_not_more (f : float) (z : Z) :
  is_nan f = true -> num_gt (Flt f) (Int z) = false.
Proof.
  intros H. apply is_nan_Prim2SF in H.
  unfold num_gt, num_compare. rewrite H. reflexivity.
Qed.

(** X2. The pretty-printer on the inputs its loop does not
    take apart. A whole number of seconds that is at most 1, and a NaN,
    are not greater than 1: the loop is not entered and every field is
    0. Plus infinity is greater than 1 and stays so when a year is taken
    off: the loop is never left. *)
Theorem printed_time_edge_inputs :
  (forall (s : Z) (fuel : nat),
      s <= 1 ->
      _pretty_print_estimated_time_in_seconds (S fuel) (Int s) = Ok (Some no_time))
  /\ (forall (f : float) (fuel : nat),
         is_nan f = true ->
         _pretty_print_estimated_time_in_seconds (S fuel) (Flt f)
         = Ok (Some no_time))
  /\ (forall (fuel : nat) (b : breakdown),
         pretty_loop fuel (Flt infinity) b = Ok None).
Proof.
  split; [|split].
  - intros s fuel Hs. unfold _pretty_print_estimated_time_in_seconds.
    cbn [pretty_loop]. rewrite int_gt.
    destruct (Z.ltb_spec 1 s); [lia|reflexivity].
  - intros f fuel Hf. unfold _pretty_print_estimated_time_in_seconds.
    cbn [pretty_loop]. rewrite nan_is_not_more by assumption. reflexivity.
  - induction fuel as [|fuel IH]; intros b; [reflexivity|].
    cbn [pretty_loop].
    replace (num_gt (Flt infinity) (Int 1)) with true by (vm_compute; reflexivity).
    replace (more_than (Flt infinity) 31557600) with (@Ok bool true)
      by (vm_compute; reflexivity).
    replace (num_sub (Flt infinity) (Int 31557600)) with (Ok (Flt infinity))
      by (vm_compute; reflexivity).
    cbn [negb bind]. apply IH.
Qed.

(** ** The time estimate *)

Lemma count_kinds_loop (ts : dict (option kind)) (l : dict (option kind)) :
  forall nb ni nf,
    (forall k t, In (k, t) l -> dict_find ts k = Some t) ->
    foldM (fun '(num_bool, num_int, num_float) key =>
             ty <- dict_get ts key ;;
             match ty with
             | Some KBool => Ok (num_bool + 1, num_int, num_float)
             | Some KInt => Ok (num_bool, num_int + 1, num_float)
             | Some KFloat => Ok (num_bool, num_int, num_float + 1)
             | _ => Ok (num_bool, num_int, num_float)
             end)
          (dict_keys l) (nb, ni, nf)
    = Ok (nb + count_kind KBool l, ni + count_kind KInt l, nf + count_kind KFloat l).
Proof.
  induction l as [|[k t] l IH]; intros nb ni nf Hl.
  - simpl. apply f_equal; apply f_equal2; [apply f_equal2|]; lia.
  - cbn [dict_keys map fst foldM]. unfold dict_get at 1.
    rewrite (Hl k t) by (left; reflexivity). cbn [bind].
    assert (Hl' : forall k' t', In (k', t') l -> dict_find ts k' = Some t')
      by (intros; apply Hl; right; assumption).
    destruct t as [[| | |]|];
      (cbn [bind]; fold (dict_keys l); rewrite IH by assumption;
       cbn [count_kind kind_eqb]; apply f_equal; apply f_equal2;
       [apply f_equal2|]; lia).
Qed.

Lemma count_kinds_counts (self : Cruncher) :
  NoDup (dict_keys (types self)) ->
  count_kinds self
  = Ok (count_kind KBool (types self), count_kind KInt (types self),
        count_kind KFloat (types self)).
Proof.
  intros Hnd. unfold count_kinds.
  rewrite (count_kinds_loop (types self) (types self) 0 0 0).
  - reflexivity.
  - intros k t Hin. apply dict_find_NoDup_In; assumption.
Qed.

Lemma count_kinds_returns (self : Cruncher) :
  exists counts, count_kinds self = Ok counts.
Proof.
  unfold count_kinds.
  assert (H : forall keys acc,
             (forall k, In k keys -> In k (dict_keys (types self))) ->
             exists counts,
               foldM (fun '(num_bool, num_int, num_float) key =>
                        ty <- dict_get (types self) key ;;
                        match ty with
                        | Some KBool => Ok (num_bool + 1, num_int, num_float)
                        | Some KInt => Ok (num_bool, num_int + 1, num_float)
                        | Some KFloat => Ok (num_bool, num_int, num_float + 1)
                        | _ => Ok (num_bool, num_int, num_float)
                        end) keys acc = Ok counts).
  { induction keys as [|k keys IH]; intros [[nb ni] nf] Hin; [simpl; eauto|].
    cbn [foldM]. destruct (dict_find_Some_key (types self) k) as [t Et];
      [apply Hin; left; reflexivity|].
    unfold dict_get at 1. rewrite Et. cbn [bind].
    destruct t as [[| | |]|]; apply IH; intros; apply Hin; right; assumption. }
  apply H. auto.
Qed.

Lemma sort_keys_NoDup (vars : dict value) (ts : dict (option kind)) :
  _sort_keys vars = Ok ts -> NoDup (dict_keys ts).
Proof.
  unfold _sort_keys.
  assert (H : forall keys kt0 kt,
             NoDup (dict_keys kt0) ->
             foldM (fun key_types key =>
                      v <- dict_get vars key ;;
                      ty <- _determine_variable_type v ;;
                      Ok (dict_set key_types key ty)) keys kt0 = Ok kt ->
             NoDup (dict_keys kt)).
  { induction keys as [|k keys IH]; intros kt0 kt Hnd H.
    - simpl in H. inversion H; subst. assumption.
    - cbn [foldM] in H. bind_inv H as kt1 E1.
      bind_inv E1 as v Ev. bind_inv E1 as ty Ety. inversion E1; subst.
      eapply IH; [|exact H]. apply dict_set_NoDup. assumption. }
  intros Hs. eapply H; [|exact Hs]. constructor.
Qed.

Lemma two_times_below_power (b : Z) : 3 <= b -> 2 * b < 2 ^ b.
Proof.
  intros Hb. pattern b. apply Zlt_lower_bound_ind with (z := 3); [|assumption].
  intros x IH Hx. destruct (Z.eq_dec x 3) as [->|Hne]; [reflexivity|].
  replace x with (Z.succ (x - 1)) at 2 by lia.
  rewrite Z.pow_succ_r by lia. specialize (IH (x - 1)). lia.
Qed.

(** X3. When [check_all_ints] is set, the time estimate is the
    text "Time estimation not supported when checking each integer",
    whatever the variables and the cost of one evaluation are: the
    counting loop that runs first never fails. *)
Theorem estimate_unsupported_when_checking_all (fuel : nat) (self : Cruncher)
  (time_of_one_sim_in_seconds : num) :
  check_all_ints self = true ->
  estimate_crunch_time fuel self time_of_one_sim_in_seconds
  = Ok (Some NotSupported).
Proof.
  intros Ha. unfold estimate_crunch_time, estimated_seconds.
  destruct (count_kinds_returns self) as [[[nb ni] nf] ->].
  rewrite Ha. reflexivity.
Qed.

Lemma estimate_unsupported_when_checking_all_witness :
  estimate_crunch_time 0 engine_every_int_and_flag (Flt 0.5) = Ok (Some NotSupported).
Proof.
  exact (estimate_unsupported_when_checking_all 0 engine_every_int_and_flag
           (Flt 0.5) eq_refl).
Defined.

(** X4. For an engine that does not check every integer and a
    whole cost [c] of one evaluation, the seconds handed to the
    pretty-printer are
    [c * points_per_split^(#float + #int) * 2^(#bool) * iterations]
    when at most two variables are boolean; with three or more boolean
    variables and a positive cost they are strictly fewer, the factor
    of the booleans being [2 * #bool]. *)
Theorem estimate_against_product f vars n it g (self : Cruncher) (c : Z) :
  __init__ f vars n it g false = Ok self ->
  let nb := count_kind KBool (types self) in
  let ni := count_kind KInt (types self) in
  let nf := count_kind KFloat (types self) in
  exists seconds,
    estimated_seconds self (Int c) = Ok (Some (Int seconds))
    /\ (nb <= 2 -> seconds = evaluations_cost c n it nf ni nb)
    /\ (3 <= nb -> 0 < c -> seconds < evaluations_cost c n it nf ni nb).
Proof.
  intros Hinit nb ni nf.
  destruct (init_fields _ _ _ _ _ _ _ Hinit)
    as (_ & _ & Hn & Hit & _ & Hca & _ & Hsort & Hn3 & Hit1).
  pose proof (count_kinds_counts self (sort_keys_NoDup _ _ Hsort)) as Hc.
  fold nb ni nf in Hc.
  rewrite (estimated_seconds_formula self c nb ni nf Hc Hca), Hn, Hit.
  assert (Hcount : forall k ts, 0 <= count_kind k ts).
  { intros k ts. induction ts as [|[k' [t|]] ts IH]; simpl; [lia| |lia].
    destruct (kind_eqb t k); lia. }
  pose proof (Hcount KBool (types self)) as Hb. fold nb in Hb.
  pose proof (Hcount KInt (types self)) as Hi. fold ni in Hi.
  pose proof (Hcount KFloat (types self)) as Hf. fold nf in Hf.
  eexists. split; [reflexivity|]. unfold evaluations_cost.
  rewrite (Z.add_comm nf ni).
  assert (Hp : 0 < n ^ (ni + nf)) by (apply Z.pow_pos_nonneg; lia).
  split.
  - intros Hle. destruct (Z.eqb_spec nb 0) as [->|Hne]; [simpl; ring|].
    assert (Hnb : nb = 1 \/ nb = 2) by lia.
    destruct Hnb as [-> | ->]; reflexivity.
  - intros H3 Hc0. destruct (Z.eqb_spec nb 0) as [|Hne]; [lia|].
    pose proof (two_times_below_power nb H3) as Hlt.
    apply Z.mul_lt_mono_pos_r; [lia|].
    apply Z.mul_lt_mono_pos_l; [nia|assumption].
Qed.

Lemma estimate_against_product_witness :
  exists seconds,
    estimated_seconds engine_three_booleans (Int 1) = Ok (Some (Int seconds))
    /\ (3 <= 2 -> seconds = evaluations_cost 1 3 1 0 0 3)
    /\ (3 <= 3 -> 0 < 1 -> seconds < evaluations_cost 1 3 1 0 0 3).
Proof.
  exact (estimate_against_product zero_function three_booleans 3 1 GoalMax
           engine_three_booleans 1 eq_refl).
Defined.

(** ** Construction *)

Lemma foldM_app {S X : Type} (body : S -> X -> result S) (xs ys : list X) (s : S) :
  foldM body (xs ++ ys) s = (s' <- foldM body xs s ;; foldM body ys s').
Proof.
  revert s. induction xs as [|x xs IH]; intros s; simpl; [reflexivity|].
  destruct (body s x); simpl; auto.
Qed.

Lemma dict_find_app {A : Type} (d d' : dict A) (k : string) :
  dict_find (d ++ d') k
  = match dict_find d k with
    | Some v => Some v
    | None => dict_find d' k
    end.
Proof.
  induction d as [|[k' v'] d IH]; simpl; [reflexivity|].
  destruct (String.eqb k k'); auto.
Qed.

Lemma dict_set_new {A : Type} (d : dict A) (k : string) (v : A) :
  ~ In k (dict_keys d) -> dict_set d k v = d ++ [(k, v)].
Proof.
  induction d as [|[k' v'] d IH]; simpl; intros Hn; [reflexivity|].
  destruct (String.eqb_spec k k') as [->|Hne]; [exfalso; auto|].
  rewrite IH by auto. reflexivity.
Qed.

Lemma determine_recognized (v : value) :
  recognized_shape v = true ->
  _determine_variable_type v = Ok (Some (declared_kind v)).
Proof.
  destruct v as [z|f|b|s| |xs|xs]; simpl; try discriminate; try reflexivity.
  destruct xs as [|a [|b [|c xs]]]; try discriminate.
  - destruct a; discriminate.
  - destruct a, b; try discriminate; reflexivity.
  - destruct a, b; discriminate.
Qed.

Lemma validation_loop_passes (vars : dict value) (keys : list string) :
  (forall k, In k keys ->
             exists v, dict_find vars k = Some v /\ recognized_shape v = true) ->
  foldM (fun (_ : unit) key =>
           v <- dict_get vars key ;;
           if negb (validate_single v) then Raise (FailedValidation key v)
           else Ok tt) keys tt = Ok tt.
Proof.
  induction keys as [|k keys IH]; intros H; [reflexivity|].
  cbn [foldM]. destruct (H k) as (v & Ev & Hv); [left; reflexivity|].
  unfold dict_get at 1. rewrite Ev. cbn [bind].
  rewrite validate_single_shape, Hv. cbn [negb bind].
  apply IH. intros; apply H; right; assumption.
Qed.

Lemma sort_keys_loop (vars : dict value) (l : dict value) :
  forall kt0,
    (forall k v, In (k, v) l ->
                 dict_find vars k = Some v /\ recognized_shape v = true) ->
    NoDup (dict_keys kt0 ++ dict_keys l) ->
    foldM (fun key_types key =>
             v <- dict_get vars key ;;
             ty <- _determine_variable_type v ;;
             Ok (dict_set key_types key ty)) (dict_keys l) kt0
    = Ok (kt0 ++ map (fun kv => (fst kv, Some (declared_kind (snd kv)))) l).
Proof.
  induction l as [|[k v] l IH]; intros kt0 Hl Hnd.
  - simpl. rewrite app_nil_r. reflexivity.
  - cbn [dict_keys map fst foldM]. destruct (Hl k v) as [Ev Hv]; [left; reflexivity|].
    unfold dict_get at 1. rewrite Ev. cbn [bind].
    rewrite (determine_recognized v Hv). cbn [bind].
    assert (Hk : ~ In k (dict_keys kt0)).
    { intros Hin. apply NoDup_app_remove_r in Hnd as Hnd0.
      clear - Hnd Hin. unfold dict_keys in *. simpl in Hnd.
      apply NoDup_remove_2 in Hnd. apply Hnd. apply in_or_app. left. exact Hin. }
    rewrite (dict_set_new kt0 k _ Hk). fold (dict_keys l).
    rewrite IH.
    + rewrite <- app_assoc. reflexivity.
    + intros; apply Hl; right; assumption.
    + unfold dict_keys in *. rewrite map_app. simpl. rewrite <- app_assoc.
      simpl in *. exact Hnd.
Qed.

Lemma sort_keys_of_recognized (vars : dict value) :
  NoDup (dict_keys vars) ->
  (forall k v, dict_find vars k = Some v -> recognized_shape v = true) ->
  _sort_keys vars
  = Ok (map (fun kv => (fst kv, Some (declared_kind (snd kv)))) vars).
Proof.
  intros Hnd Hrec. unfold _sort_keys.
  rewrite (sort_keys_loop vars vars []); [reflexivity| |exact Hnd].
  intros k v Hin. pose proof (dict_find_NoDup_In vars k v Hnd Hin) as E.
  split; [exact E|]. apply (Hrec k v E).
Qed.

Lemma sort_keys_returns (vars : dict value) (keys : list string) :
  (forall k, In k keys ->
             exists v, dict_find vars k = Some v /\ recognized_shape v = true) ->
  forall kt0, exists kt,
    foldM (fun key_types key =>
             v <- dict_get vars key ;;
             ty <- _determine_variable_type v ;;
             Ok (dict_set key_types key ty)) keys kt0 = Ok kt
    /\ forall k, In k (dict_keys kt) <-> In k (dict_keys kt0) \/ In k keys.
Proof.
  induction keys as [|k keys IH]; intros H kt0.
  - exists kt0. split; [reflexivity|]. intros k; simpl; tauto.
  - cbn [foldM]. destruct (H k) as (v & Ev & Hv); [left; reflexivity|].
    unfold dict_get at 1. rewrite Ev. cbn [bind].
    rewrite (determine_recognized v Hv). cbn [bind].
    destruct (IH (fun k' Hk' => H k' (or_intror Hk')) (dict_set kt0 k (Some (declared_kind v))))
      as (kt & E & Hkeys).
    exists kt. split; [exact E|]. intros k'. rewrite Hkeys, dict_keys_set_incl.
    simpl. intuition (subst; auto).
Qed.

Lemma init_validated f vars n it g ca self :
  __init__ f vars n it g ca = Ok self ->
  vars <> []
  /\ forall key v, dict_find vars key = Some v -> recognized_shape v = true.
Proof.
  intros H. unfold __init__ in H.
  destruct (n <? 3); [discriminate|]. destruct (it <? 1); [discriminate|].
  bind_inv H as u Ev. destruct vars as [|p vars]; [discriminate|].
  split; [discriminate|]. intros key v Hf.
  unfold _validate_variables in Ev. destruct u.
  rewrite <- validate_single_shape.
  apply (validation_passed _ _ Ev key v); [|exact Hf].
  destruct (in_dec string_dec key (dict_keys (p :: vars))) as [?|Hn]; [assumption|].
  apply dict_find_None in Hn. congruence.
Qed.

(** X5. Construction succeeds exactly when [points_per_split] is
    at least 3, [iterations] at least 1, the search space is not empty
    and every declaration has one of the four recognized shapes. The
    engine it returns holds the arguments as given and an empty step-size
    table, and classifies each declaration by its shape: a number as a
    constant, a list as a range of floats (also when its two numbers are
    ints), a tuple of ints as a range of ints, a tuple of booleans as a
    boolean; no variable is left without a kind and no other key gets
    one. *)
Theorem construction_succeeds_iff f vars n it g ca :
  ((exists self, __init__ f vars n it g ca = Ok self)
   <-> (3 <= n /\ 1 <= it /\ vars <> []
        /\ forall key v, dict_find vars key = Some v -> recognized_shape v = true))
  /\ (forall self,
         __init__ f vars n it g ca = Ok self ->
         function self = f /\ variables self = vars
         /\ points_per_split self = n /\ iterations self = it
         /\ goal self = g /\ check_all_ints self = ca
         /\ global_increment_storage self = []
         /\ (forall key v, dict_find vars key = Some v ->
                           dict_find (types self) key = Some (Some (declared_kind v)))
         /\ (forall key, dict_find vars key = None ->
                         dict_find (types self) key = None)).
Proof.
  split; [split|].
  - intros [self H]. destruct (init_fields _ _ _ _ _ _ _ H)
      as (_ & _ & _ & _ & _ & _ & _ & _ & Hn & Hit).
    destruct (init_validated _ _ _ _ _ _ _ H). auto.
  - intros (Hn & Hit & Hne & Hrec). unfold __init__.
    destruct (Z.ltb_spec n 3); [lia|]. destruct (Z.ltb_spec it 1); [lia|].
    assert (Hall : forall k, In k (dict_keys vars) ->
                     exists v, dict_find vars k = Some v /\ recognized_shape v = true).
    { intros k Hk. destruct (dict_find_Some_key vars k Hk) as [v Ev]. eauto. }
    unfold _validate_variables. destruct vars as [|p vars]; [congruence|].
    rewrite (validation_loop_passes _ _ Hall). cbn [bind].
    destruct (sort_keys_returns _ _ Hall []) as (kt & E & _).
    unfold _sort_keys. rewrite E. cbn [bind]. eauto.
  - intros self H.
    destruct (init_fields _ _ _ _ _ _ _ H)
      as (Hf & Hv & Hn & Hit & Hg & Hca & Hs & Hsort & _ & _).
    destruct (init_validated _ _ _ _ _ _ _ H) as [_ Hrec].
    repeat (split; [assumption|]). split.
    + intros key v Ev. unfold _sort_keys in Hsort.
      destruct (sort_keys_types _ _ _ _ Hsort key v) as (ty & Ety & Hty).
      * destruct (in_dec string_dec key (dict_keys vars)) as [?|Hn']; [assumption|].
        apply dict_find_None in Hn'. congruence.
      * exact Ev.
      * rewrite (determine_recognized v (Hrec key v Ev)) in Ety.
        inversion Ety; subst. exact Hty.
    + intros key Hnone. apply dict_find_None. apply dict_find_None in Hnone.
      assert (Hall : forall k, In k (dict_keys vars) ->
                       exists v, dict_find vars k = Some v /\ recognized_shape v = true).
      { intros k Hk. destruct (dict_find_Some_key vars k Hk) as [v Ev]. eauto. }
      destruct (sort_keys_returns _ _ Hall []) as (kt & E & Hkeys).
      unfold _sort_keys in Hsort. rewrite Hsort in E. inversion E; subst.
      rewrite Hkeys. simpl. tauto.
Qed.

(** X6. What construction reports when it fails: too few points
    per split first, whatever the other arguments are; then too few
    iterations; then an empty search space; then the first declaration,
    in the order of the dictionary, that has none of the recognized
    shapes, with its key and value, whatever follows it. *)
Theorem construction_reports_first_failure f vars n it g ca :
  (n < 3 -> __init__ f vars n it g ca = Raise (MinimumPoints n))
  /\ (3 <= n -> it < 1 -> __init__ f vars n it g ca = Raise NeedOneIteration)
  /\ (3 <= n -> 1 <= it -> vars = [] ->
      __init__ f vars n it g ca = Raise VariablesMustExist)
  /\ (3 <= n -> 1 <= it ->
      forall pre key v post,
        vars = pre ++ (key, v) :: post ->
        ~ In key (dict_keys pre) ->
        (forall k' v', In (k', v') pre -> recognized_shape v' = true) ->
        recognized_shape v = false ->
        __init__ f vars n it g ca = Raise (FailedValidation key v)).
Proof.
  unfold __init__. repeat split.
  - intros Hn. destruct (Z.ltb_spec n 3); [reflexivity|lia].
  - intros Hn Hit. destruct (Z.ltb_spec n 3); [lia|].
    destruct (Z.ltb_spec it 1); [reflexivity|lia].
  - intros Hn Hit ->. destruct (Z.ltb_spec n 3); [lia|].
    destruct (Z.ltb_spec it 1); [lia|reflexivity].
  - intros Hn Hit pre key v post Hvars Hkey Hpre Hv.
    destruct (Z.ltb_spec n 3); [lia|]. destruct (Z.ltb_spec it 1); [lia|].
    subst vars. unfold _validate_variables.
    destruct (pre ++ (key, v) :: post) as [|p vars'] eqn:Evars;
      [destruct pre; discriminate|].
    rewrite <- Evars. clear Evars p vars'.
    unfold dict_keys at 1. rewrite map_app. cbn [map fst].
    rewrite foldM_app.
    rewrite (validation_loop_passes (pre ++ (key, v) :: post) (map fst pre)).
    + cbn [bind foldM]. unfold dict_get at 1. rewrite dict_find_app.
      apply dict_find_None in Hkey. rewrite Hkey. simpl.
      rewrite String.eqb_refl. cbn [bind].
      rewrite validate_single_shape, Hv. reflexivity.
    + intros k Hk. destruct (dict_find_Some_key pre k Hk) as [v' Ev'].
      exists v'. rewrite dict_find_app, Ev'. split; [reflexivity|].
      apply (Hpre k v'). apply dict_find_In. exact Ev'.
Qed.

Lemma construction_reports_first_failure_witness :
  __init__ zero_function two_bad_declarations 3 1 GoalMax false
  = Raise (FailedValidation "name" (VStr "ten")).
Proof.
  apply (proj2 (proj2 (proj2 (construction_reports_first_failure
                                zero_function two_bad_declarations 3 1 GoalMax false)))
           ltac:(lia) ltac:(lia)
           [("x"%string, VList [VInt 0; VInt 10])] "name"%string (VStr "ten")
           [("flag"%string, VBool true)] eq_refl).
  - simpl. intros [H|[]]. discriminate H.
  - intros k' v' [H|[]]. inversion H; subst. reflexivity.
  - reflexivity.
Defined.

(** ** The selector on batches with and without NaN scores *)

(** X7. On a batch that is not empty and in which no score is
    NaN (under a target: no distance of a score to the target), the
    selector returns an assignment of the batch with its score, and
    that score is at least as good as the score of every assignment of
    the batch. *)
Theorem selector_returns_an_optimum (self : Cruncher) (batch : list (dict value)) :
  batch <> [] ->
  (forall y, In y batch -> is_nan (rank (goal self) (function self y)) = false) ->
  exists a,
    _find_ideal_choice self batch = Some (function self a, a)
    /\ In a batch
    /\ batch_optimal self batch (function self a).
Proof.
  intros Hne Hnum.
  destruct (find_ideal_first_best self batch Hne Hnum) as (i & a & Hi & Hf & Hbest & _).
  exists a. split; [exact Hf|].
  assert (Hin : In a batch) by (eapply nth_error_In; exact Hi).
  split; [exact Hin|]. split; [exists a; auto|].
  intros y Hy. apply no_worse_pref. apply Hbest. exact Hy.
Qed.

Lemma selector_returns_an_optimum_witness :
  exists a,
    _find_ideal_choice (engine_score_x GoalMin) batch_133
    = Some (function (engine_score_x GoalMin) a, a)
    /\ In a batch_133
    /\ batch_optimal (engine_score_x GoalMin) batch_133
         (function (engine_score_x GoalMin) a).
Proof.
  apply (selector_returns_an_optimum (engine_score_x GoalMin) batch_133).
  - discriminate.
  - intros y [<-|[<-|[<-|[]]]]; reflexivity.
Defined.

(** X8. The selector and NaN. When the score of the first assignment
    of a batch is NaN (under a target: its distance to the target), that
    assignment is returned whatever the others score, every comparison
    with it being false. When it is not, the score of the assignment
    returned is not NaN either: a later NaN never replaces the best. *)
Theorem selector_on_nan (self : Cruncher) (x0 : dict value)
  (rest : list (dict value)) :
  (is_nan (rank (goal self) (function self x0)) = true ->
   _find_ideal_choice self (x0 :: rest) = Some (function self x0, x0))
  /\ (is_nan (rank (goal self) (function self x0)) = false ->
      exists a,
        _find_ideal_choice self (x0 :: rest) = Some (function self a, a)
        /\ In a (x0 :: rest)
        /\ is_nan (rank (goal self) (function self a)) = false).
Proof.
  split.
  - intros Hnan. unfold _find_ideal_choice. cbn [fold_left consider].
    apply nan_incumbent_stays. exact Hnan.
  - intros Hnum.
    destruct (find_ideal_best_of_numbers self x0 rest Hnum) as (a & Hf & Hin & Ha & _).
    eauto.
Qed.

Lemma selector_on_nan_witness :
  _find_ideal_choice (engine_target two_or_nan 2) first_batch_zero_to_one
  = Some (function (engine_target two_or_nan 2) [("x"%string, VFloat 0)],
          [("x"%string, VFloat 0)]).
Proof.
  apply (proj1 (selector_on_nan (engine_target two_or_nan 2)
                  [("x"%string, VFloat 0)]
                  [[("x"%string, VFloat 0.5)]; [("x"%string, VFloat 1)]])).
  reflexivity.
Defined.
(** ** What a run returns *)

Lemma pass_inv (fr : frame) (p : pass) :
  crunch_pass fr = Ok p ->
  exists ret vars,
    _find_ideal_choice (self_ fr) (points_ fr) = Some (ret, vars)
    /\ match p with
       | Return rv self' =>
           goal_reached (goal (self_ fr)) ret = true
           /\ rv = (ret, vars) /\ self' = self_ fr
       | Continue fr' =>
           goal_reached (goal (self_ fr)) ret = false
           /\ ret_vars fr' = Some (ret, vars)
       end.
Proof.
  unfold crunch_pass. intros H.
  destruct (_find_ideal_choice (self_ fr) (points_ fr)) as [[ret vars]|];
    [|discriminate].
  exists ret, vars. split; [reflexivity|].
  destruct (goal_reached (goal (self_ fr)) ret).
  - inversion H; subst. auto.
  - bind_inv H as r Er. bind_inv H as ps Eg. destruct ps as [points self2].
    inversion H; subst. auto.
Qed.

Lemma crunch_last_pass (self : Cruncher) (rv : float * dict value)
  (self' : Cruncher) :
  crunch self = Ok (rv, self') ->
  exists k fr,
    (k < Z.to_nat (iterations self))%nat
    /\ loop_head self k fr
    /\ (crunch_pass fr = Ok (Return rv self')
        \/ S k = Z.to_nat (iterations self)
           /\ exists fr', crunch_pass fr = Ok (Continue fr')
                          /\ ret_vars fr' = Some rv /\ self' = self_ fr').
Proof.
  intros H. unfold crunch in H. bind_inv H as fr0 E0.
  destruct (crunch_loop_passes _ _ _ _ H) as (k & fr' & Hk & Hp & Hend).
  destruct Hend as [[Hlt Hret]|(-> & Hrv & ->)].
  - exists k, fr'. split; [exact Hlt|]. split; [exists fr0; auto|]. left. exact Hret.
  - inversion Hp as [fr1 E1 E2 E3|m fr1 fr2 fr3 Hm Hpass E1 E2 E3]; subst.
    + unfold crunch_entry in E0. bind_inv E0 as ps Eg. destruct ps.
      inversion E0; subst. discriminate Hrv.
    + exists m, fr2. split; [lia|]. split; [exists fr0; auto|]. right.
      split; [congruence|]. exists fr'. auto.
Qed.

(** X9. The pair a run of [crunch] returns is what the selector
    chose on the batch of the last pass that ran: its assignment is one
    of that batch and its score is the function's value there. Either
    that score equals the target and the run returned from inside the
    loop, or it does not (never, under 'max' and 'min') and the pass was
    the last of the [iterations] passes: the points generated at its end
    are not evaluated. *)
Theorem crunch_returns_the_last_choice (self : Cruncher)
  (rv : float * dict value) (self' : Cruncher) :
  crunch self = Ok (rv, self') ->
  exists k fr,
    (k < Z.to_nat (iterations self))%nat
    /\ loop_head self k fr
    /\ _find_ideal_choice (self_ fr) (points_ fr) = Some rv
    /\ In (snd rv) (points_ fr)
    /\ fst rv = function self (snd rv)
    /\ (goal_reached (goal self) (fst rv) = true /\ self' = self_ fr
        \/ goal_reached (goal self) (fst rv) = false
           /\ S k = Z.to_nat (iterations self)
           /\ exists fr', crunch_pass fr = Ok (Continue fr')
                          /\ self' = self_ fr').
Proof.
  intros H. destruct (crunch_last_pass self rv self' H) as (k & fr & Hk & Hh & Hend).
  pose proof (loop_head_keeps_configuration self k fr Hh) as Hconf.
  assert (Efun : function (self_ fr) = function self) by (rewrite Hconf; reflexivity).
  assert (Egoal : goal (self_ fr) = goal self) by (rewrite Hconf; reflexivity).
  exists k, fr. split; [exact Hk|]. split; [exact Hh|].
  destruct Hend as [Hret|(Hlast & fr' & Hpass & Hrv & ->)].
  - destruct (pass_inv _ _ Hret) as (ret & vars & Hf & Hg & -> & ->).
    destruct (find_ideal_member _ _ _ _ Hf) as [Hin Hval].
    split; [exact Hf|]. split; [exact Hin|].
    split; [simpl; rewrite <- Efun; exact Hval|].
    left. rewrite <- Egoal. auto.
  - destruct (pass_inv _ _ Hpass) as (ret & vars & Hf & Hg & Hrv').
    rewrite Hrv in Hrv'. inversion Hrv'; subst rv.
    destruct (find_ideal_member _ _ _ _ Hf) as [Hin Hval].
    split; [exact Hf|]. split; [exact Hin|].
    split; [simpl; rewrite <- Efun; exact Hval|].
    right. rewrite <- Egoal. split; [exact Hg|]. split; [exact Hlast|].
    exists fr'. auto.
Qed.

Lemma crunch_returns_the_last_choice_witness :
  exists rv self' k fr,
    crunch engine_near_seven = Ok (rv, self')
    /\ (k < Z.to_nat (iterations engine_near_seven))%nat
    /\ loop_head engine_near_seven k fr
    /\ _find_ideal_choice (self_ fr) (points_ fr) = Some rv.
Proof.
  destruct (crunch engine_near_seven) as [[rv self']|e] eqn:E;
    [|vm_compute in E; discriminate E].
  destruct (crunch_returns_the_last_choice engine_near_seven rv self' E)
    as (k & fr & Hk & Hh & Hf & _).
  exists rv, self', k, fr. auto.
Defined.

(** ** An integer range given backwards *)

Lemma product_of_none {A : Type} (arrs : list (list A)) :
  In [] arrs -> product arrs = [].
Proof.
  induction arrs as [|a arrs IH]; intros Hin; [destruct Hin|].
  destruct Hin as [->|Hin]; [reflexivity|].
  simpl. rewrite (IH Hin). induction a; simpl; auto.
Qed.

Lemma Zrange_none (a b : Z) : b <= a -> Zrange a b = [].
Proof.
  intros H. unfold Zrange. replace (Z.to_nat (b - a)) with 0%nat by lia.
  reflexivity.
Qed.

Lemma no_candidate_no_point (self : Cruncher) (ranges : dict value)
  (key : string) inc points self' :
  In key (dict_keys (variables self)) ->
  candidates self ranges key = Ok ([], inc) ->
  _generate_test_points self ranges = Ok (points, self') ->
  points = [].
Proof.
  intros Hkey Hc H. unfold _generate_test_points in H.
  bind_inv H as od Ecl. destruct od as [option_dic self1].
  bind_inv H as batch Ecomb. inversion H; subst; clear H.
  destruct (candidate_lists_spec _ _ _ _ Ecl) as (_ & Hin & _).
  destruct (Hin key Hkey) as (pts & i & Ec & Eod & _).
  rewrite Hc in Ec. inversion Ec; subst pts i.
  destruct (combinations_spec option_dic) as (arrs & E & Hall).
  rewrite Ecomb in E. inversion E; subst points.
  rewrite product_of_none; [reflexivity|].
  assert (Hk : In key (dict_keys option_dic)).
  { destruct (in_dec string_dec key (dict_keys option_dic)) as [?|Hn]; [assumption|].
    apply dict_find_None in Hn. congruence. }
  clear - Hall Hk Eod. induction Hall as [|k a ks arrs Hka Hall IH]; [destruct Hk|].
  destruct Hk as [->|Hk].
  - left. congruence.
  - right. auto.
Qed.

(** X10. With [check_all_ints] set, an integer range declared
    with its upper bound below its lower bound has no candidate, so the
    first batch is empty, the selector returns the empty tuple and the
    run fails on unpacking it (ValueError), unless the generation of the
    points already failed on another variable. No run of such an engine
    returns. *)
Theorem backwards_int_range_raises f vars n it g (self : Cruncher)
  (key : string) (lo hi : Z) :
  __init__ f vars n it g true = Ok self ->
  dict_find vars key = Some (VTuple [VInt lo; VInt hi]) ->
  hi < lo ->
  _get_every_int_in_tuple (VTuple [VInt lo; VInt hi]) = Ok []
  /\ (forall fr, crunch_entry self = Ok fr ->
                 points_ fr = [] /\ crunch self = Raise ValueError)
  /\ exists e, crunch self = Raise e.
Proof.
  intros Hinit Hdecl Hlt.
  destruct (init_fields _ _ _ _ _ _ _ Hinit)
    as (_ & Hv & _ & Hit & _ & Hca & _ & _ & _ & Hit1).
  pose proof (init_well_formed _ _ _ _ _ _ _ Hinit) as Hwf.
  rewrite <- Hv in Hdecl. clear Hv.
  assert (Hget : _get_every_int_in_tuple (VTuple [VInt lo; VInt hi]) = Ok []).
  { rewrite get_every_int, Zrange_none by lia. reflexivity. }
  split; [exact Hget|].
  assert (Hentry : forall fr, crunch_entry self = Ok fr ->
                     points_ fr = [] /\ crunch self = Raise ValueError).
  { intros fr E. assert (Hp : points_ fr = []).
    { unfold crunch_entry in E. bind_inv E as ps Eg. destruct ps as [points self1].
      inversion E; subst; clear E. cbn [points_].
      eapply (no_candidate_no_point self (variables self) key (VInt 0));
        [| |exact Eg].
      - destruct (in_dec string_dec key (dict_keys (variables self)))
          as [?|Hn]; [assumption|].
        apply dict_find_None in Hn. congruence.
      - unfold candidates.
        destruct (wf_types self key _ Hwf Hdecl) as (_ & ty & Ety & Eget).
        simpl in Ety. inversion Ety; subst ty. rewrite Eget. cbn [bind].
        rewrite Hca. unfold dict_get. rewrite Hdecl. cbn [bind].
        rewrite Hget. reflexivity. }
    split; [exact Hp|]. unfold crunch. rewrite E. cbn [bind].
    destruct (Z.to_nat (iterations self)) as [|m] eqn:Em; [lia|].
    cbn [crunch_loop]. unfold crunch_pass. rewrite Hp. reflexivity. }
  split; [exact Hentry|].
  destruct (crunch_entry self) as [fr|e] eqn:E.
  - exists ValueError. apply (Hentry fr). reflexivity.
  - exists e. unfold crunch. rewrite E. reflexivity.
Qed.

Lemma backwards_int_range_raises_witness :
  crunch engine_backwards = Raise ValueError.
Proof.
  destruct (crunch_entry engine_backwards) as [fr|e] eqn:E;
    [|vm_compute in E; discriminate E].
  refine (proj2 (proj1 (proj2 (backwards_int_range_raises
            zero_function (variables engine_backwards) 3 2 GoalMax
            engine_backwards "i"%string 3 (-2) eq_refl eq_refl ltac:(lia)))
            fr E)).
Defined.

(** ** A batch is the product of the candidate lists *)

Lemma fill_two_dicts_order {A B : Type} (g : string -> result (A * B))
  (keys : list string) :
  forall od0 st0 od st,
    foldM (fun '(od, st) key =>
             '(p, i) <- g key ;;
             Ok (dict_set od key p, dict_set st key i))
          keys (od0, st0) = Ok (od, st) ->
    NoDup (dict_keys od0 ++ keys) ->
    dict_keys od = dict_keys od0 ++ keys.
Proof.
  induction keys as [|k keys IH]; intros od0 st0 od st H Hnd.
  - simpl in H. inversion H; subst. rewrite app_nil_r. reflexivity.
  - cbn [foldM] in H. bind_inv H as s1 E1. destruct s1 as [od1 st1].
    bind_inv E1 as pi Eg. destruct pi as [p i]. inversion E1; subst; clear E1.
    assert (Hk : ~ In k (dict_keys od0)).
    { intros Hin. apply NoDup_remove_2 in Hnd. apply Hnd.
      apply in_or_app. left. exact Hin. }
    rewrite (IH _ _ _ _ H).
    + rewrite dict_keys_set_notin by exact Hk. rewrite <- app_assoc. reflexivity.
    + rewrite dict_keys_set_notin by exact Hk. rewrite <- app_assoc. exact Hnd.
Qed.

Lemma product_length {A : Type} (arrs : list (list A)) :
  List.length (product arrs)
  = fold_right Nat.mul 1%nat (map (@List.length A) arrs).
Proof.
  induction arrs as [|a arrs IH]; [reflexivity|].
  cbn [product map fold_right]. rewrite <- IH. clear IH.
  induction a as [|x a IHa]; [reflexivity|].
  cbn [flat_map]. rewrite length_app, length_map, IHa. reflexivity.
Qed.

Lemma product_combo_length {A : Type} (arrs : list (list A)) (combo : list A) :
  In combo (product arrs) -> List.length combo = List.length arrs.
Proof.
  intros H. apply product_Forall2 in H. eapply Forall2_length. exact H.
Qed.

Lemma generated_product (self : Cruncher) (ranges : dict value) points self' :
  NoDup (dict_keys (variables self)) ->
  _generate_test_points self ranges = Ok (points, self') ->
  exists lists,
    Forall2 (fun key cands =>
               exists inc,
                 candidates self ranges key = Ok (cands, inc)
                 /\ dict_find (global_increment_storage self') key = Some inc)
            (dict_keys (variables self)) lists
    /\ points = map (combine (dict_keys (variables self))) (product lists).
Proof.
  intros Hnd H. unfold _generate_test_points in H.
  bind_inv H as od Ecl. destruct od as [option_dic self1].
  bind_inv H as batch Ecomb. inversion H; subst; clear H.
  destruct (candidate_lists_spec _ _ _ _ Ecl) as (_ & Hin & _).
  assert (Hkeys : dict_keys option_dic = dict_keys (variables self)).
  { unfold candidate_lists in Ecl. bind_inv Ecl as os Ef. destruct os as [od st].
    inversion Ecl; subst; clear Ecl.
    apply (fill_two_dicts_order _ _ _ _ _ _ Ef). exact Hnd. }
  destruct (combinations_spec option_dic) as (arrs & E & Hall).
  rewrite Ecomb in E. inversion E; subst points. clear E.
  rewrite Hkeys in *. exists arrs. split.
  - clear Ecomb. revert Hall.
    assert (Hsub : forall k, In k (dict_keys (variables self)) ->
                             In k (dict_keys (variables self))) by auto.
    revert Hsub. generalize (dict_keys (variables self)) at 1 3 4 as keys.
    intros keys Hsub Hall. induction Hall as [|k a ks arrs' Hka Hall IH];
      constructor.
    + destruct (Hin k) as (pts & inc & Ec & Eod & Est); [apply Hsub; left; auto|].
      exists inc. rewrite Hka in Eod. inversion Eod; subst. auto.
    + apply IH. intros; apply Hsub; right; assumption.
  - apply map_ext_in. intros combo Hc. apply assignment_combine; [exact Hnd|].
    rewrite (product_combo_length _ _ Hc). eapply Forall2_length. exact Hall.
Qed.

(** X11. When the keys of the search space are distinct, the batch
    that [_generate_test_points] returns is the Cartesian product of the
    candidate lists of the variables, taken in the order of the declared
    keys with the last variable varying fastest: each assignment holds
    the declared keys in their order, there are as many assignments as
    the product of the lengths of the lists, and the step size stored
    for each variable is the one its candidate list came with. *)
Theorem batch_is_the_product (self : Cruncher) (ranges : dict value)
  (points : list (dict value)) (self' : Cruncher) :
  NoDup (dict_keys (variables self)) ->
  _generate_test_points self ranges = Ok (points, self') ->
  exists lists,
    Forall2 (fun key cands =>
               exists inc,
                 candidates self ranges key = Ok (cands, inc)
                 /\ dict_find (global_increment_storage self') key = Some inc)
            (dict_keys (variables self)) lists
    /\ points = map (combine (dict_keys (variables self))) (product lists)
    /\ List.length points
       = fold_right Nat.mul 1%nat (map (@List.length value) lists)
    /\ (forall a, In a points -> dict_keys a = dict_keys (variables self)).
Proof.
  intros Hnd H. destruct (generated_product _ _ _ _ Hnd H) as (lists & Hall & ->).
  exists lists. split; [exact Hall|]. split; [reflexivity|].
  pose proof (Forall2_length Hall) as Hlen.
  split; [rewrite length_map; apply product_length|].
  intros a Ha. apply in_map_iff in Ha. destruct Ha as (combo & <- & Hc).
  apply combine_keys. rewrite (product_combo_length _ _ Hc). exact Hlen.
Qed.

Lemma batch_is_the_product_witness :
  exists points self' lists,
    _generate_test_points engine_mixed mixed = Ok (points, self')
    /\ points = map (combine (dict_keys mixed)) (product lists)
    /\ List.length points = 18%nat.
Proof.
  destruct (_generate_test_points engine_mixed mixed) as [[points self']|e] eqn:E;
    [|vm_compute in E; discriminate E].
  assert (Hnd : NoDup (dict_keys (variables engine_mixed))).
  { repeat constructor; simpl; intuition discriminate. }
  destruct (batch_is_the_product engine_mixed mixed points self' Hnd E)
    as (lists & _ & Hp & _).
  exists points, self', lists. split; [reflexivity|]. split; [exact Hp|].
  vm_compute in E. inversion E. reflexivity.
Defined.

(** ** The size of a batch *)

Lemma split_float_list_any (self : Cruncher) (r : value) :
  _split_float_list_and_get_increment self r
  = (l1 <- py_index r 1 ;;
     l0 <- py_index r 0 ;;
     _split_float_list_and_get_increment self (VList [l0; l1])).
Proof.
  unfold _split_float_list_and_get_increment.
  destruct (py_index r 1) as [l1|e]; [|reflexivity].
  destruct (py_index r 0) as [l0|e]; reflexivity.
Qed.

Lemma split_int_tuple_any (self : Cruncher) (r : value) :
  _split_int_tuple_and_get_increment self r
  = (t1 <- py_index r 1 ;;
     t0 <- py_index r 0 ;;
     _split_int_tuple_and_get_increment self (VTuple [t0; t1])).
Proof.
  unfold _split_int_tuple_and_get_increment.
  destruct (py_index r 1) as [t1|e]; [|reflexivity].
  destruct (py_index r 0) as [t0|e]; reflexivity.
Qed.

Lemma split_float_list_length (self : Cruncher) (r : value) points inc :
  3 <= points_per_split self ->
  _split_float_list_and_get_increment self r = Ok (points, inc) ->
  Z.of_nat (List.length points) = points_per_split self.
Proof.
  intros Hn H. rewrite split_float_list_any in H.
  bind_inv H as l1 E1. bind_inv H as l0 E0.
  rewrite split_float_list_ramp in H.
  bind_inv H as diff Ed. bind_inv H as step Es. bind_inv H as interior Er.
  inversion H; subst; clear H.
  pose proof (ramp_length _ _ _ _ Er) as Hlen.
  simpl. rewrite length_app. simpl. lia.
Qed.

Lemma int_interior_length (k : nat) : forall prev inc hi points points',
  int_interior k prev inc hi points = Ok points' ->
  (List.length points <= List.length points' <= List.length points + k)%nat.
Proof.
  induction k as [|k IH]; intros prev inc hi points points' H.
  - simpl in H. inversion H; subst. lia.
  - cbn [int_interior] in H. bind_inv H as p Ep. bind_inv H as c Ec.
    apply IH in H.
    destruct (negb (existsb (int_eq c) points) && negb (int_eq c hi));
      [rewrite length_app in H; simpl in H|]; lia.
Qed.

Lemma split_int_tuple_length (self : Cruncher) (r : value) points inc :
  3 <= points_per_split self ->
  _split_int_tuple_and_get_increment self r = Ok (points, inc) ->
  2 <= Z.of_nat (List.length points) <= points_per_split self.
Proof.
  intros Hn H. rewrite split_int_tuple_any in H.
  bind_inv H as t1 E1. bind_inv H as t0 E0.
  rewrite split_int_tuple_interior in H.
  bind_inv H as diff Ed. bind_inv H as step Es. bind_inv H as pts Er.
  inversion H; subst; clear H.
  apply int_interior_length in Er. rewrite length_app. simpl in *. lia.
Qed.

Lemma candidates_length (self : Cruncher) (ranges : dict value) (key : string)
  (kd : kind) cands inc :
  3 <= points_per_split self ->
  check_all_ints self = false ->
  dict_find (types self) key = Some (Some kd) ->
  candidates self ranges key = Ok (cands, inc) ->
  let len := Z.of_nat (List.length cands) in
  match kd with
  | KConstant => len = 1
  | KFloat => len = points_per_split self
  | KInt => 2 <= len <= points_per_split self
  | KBool => len = 2
  end.
Proof.
  intros Hn Hca Hty H. unfold candidates in H. unfold dict_get at 1 in H.
  rewrite Hty in H. cbn [bind] in H. destruct kd.
  - bind_inv H as v Ev. inversion H; subst. reflexivity.
  - bind_inv H as r Er. eapply split_float_list_length; eauto.
  - rewrite Hca in H. bind_inv H as r Er. eapply split_int_tuple_length; eauto.
  - inversion H; subst. reflexivity.
Qed.

Lemma count_kind_nonneg (k : kind) (ts : dict (option kind)) : 0 <= count_kind k ts.
Proof.
  induction ts as [|[k' [t|]] ts IH]; simpl; [lia| |lia].
  destruct (kind_eqb t k); lia.
Qed.

Lemma sizes_by_kind (self : Cruncher) (ranges : dict value) (l : dict value) :
  3 <= points_per_split self ->
  check_all_ints self = false ->
  (forall k v, In (k, v) l ->
               dict_find (types self) k = Some (Some (declared_kind v))) ->
  forall lists,
    Forall2 (fun key cands =>
               exists inc, candidates self ranges key = Ok (cands, inc))
            (dict_keys l) lists ->
    let tl := map (fun kv => (fst kv, Some (declared_kind (snd kv)))) l in
    let size := Z.of_nat (fold_right Nat.mul 1%nat (map (@List.length value) lists)) in
    points_per_split self ^ count_kind KFloat tl
      * 2 ^ (count_kind KInt tl + count_kind KBool tl) <= size
    /\ size <= points_per_split self ^ (count_kind KInt tl + count_kind KFloat tl)
               * 2 ^ count_kind KBool tl.
Proof.
  intros Hn Hca. induction l as [|[k v] l IH]; intros Hty lists Hall.
  - inversion Hall; subst. simpl. lia.
  - inversion Hall as [|k' c ks lists' [inc Hc] Hall' E1 E2]; subst.
    specialize (IH (fun k0 v0 H0 => Hty k0 v0 (or_intror H0)) lists' Hall').
    pose proof (candidates_length self ranges k (declared_kind v) c inc Hn Hca
                  (Hty k v (or_introl eq_refl)) Hc) as Hlen.
    cbn [map fst snd fold_right count_kind] in *.
    set (tl := map (fun kv => (fst kv, Some (declared_kind (snd kv)))) l) in *.
    pose proof (count_kind_nonneg KFloat tl) as Hf.
    pose proof (count_kind_nonneg KInt tl) as Hi.
    pose proof (count_kind_nonneg KBool tl) as Hb.
    set (cf := count_kind KFloat tl) in *.
    set (ci := count_kind KInt tl) in *.
    set (cb := count_kind KBool tl) in *.
    rewrite Nat2Z.inj_mul.
    set (rest := Z.of_nat (fold_right Nat.mul 1%nat (map (@List.length value) lists'))) in *.
    set (len := Z.of_nat (List.length c)) in *.
    set (n := points_per_split self) in *.
    assert (Hpf : 0 < n ^ cf) by (apply Z.pow_pos_nonneg; lia).
    assert (Hpif : 0 < n ^ (ci + cf)) by (apply Z.pow_pos_nonneg; lia).
    assert (Hpb : 0 < 2 ^ cb) by (apply Z.pow_pos_nonneg; lia).
    assert (Hpib : 0 < 2 ^ (ci + cb)) by (apply Z.pow_pos_nonneg; lia).
    destruct IH as [IHl IHu].
    assert (Hscale : forall a b,
               0 <= a <= len -> len <= b ->
               a * (n ^ cf * 2 ^ (ci + cb)) <= len * rest
               /\ len * rest <= b * (n ^ (ci + cf) * 2 ^ cb)) by (intros; nia).
    destruct (declared_kind v); cbn [kind_eqb] in *; rewrite ?Z.add_0_l.
    + destruct (Hscale 1 1) as [X Y]; lia.
    + replace (1 + cf) with (Z.succ cf) by lia.
      replace (ci + Z.succ cf) with (Z.succ (ci + cf)) by lia.
      rewrite !Z.pow_succ_r by lia.
      destruct (Hscale n n) as [X Y]; [lia|lia|]. split.
      * eapply Z.le_trans; [|exact X]. apply Z.eq_le_incl. ring.
      * eapply Z.le_trans; [exact Y|]. apply Z.eq_le_incl. ring.
    + replace (1 + ci + cb) with (Z.succ (ci + cb)) by lia.
      replace (1 + ci + cf) with (Z.succ (ci + cf)) by lia.
      rewrite !Z.pow_succ_r by lia.
      destruct (Hscale 2 n) as [X Y]; [lia|lia|]. split.
      * eapply Z.le_trans; [|exact X]. apply Z.eq_le_incl. ring.
      * eapply Z.le_trans; [exact Y|]. apply Z.eq_le_incl. ring.
    + replace (ci + (1 + cb)) with (Z.succ (ci + cb)) by lia.
      replace (1 + cb) with (Z.succ cb) by lia.
      rewrite !Z.pow_succ_r by lia.
      destruct (Hscale 2 2) as [X Y]; [lia|lia|]. split.
      * eapply Z.le_trans; [|exact X]. apply Z.eq_le_incl. ring.
      * eapply Z.le_trans; [exact Y|]. apply Z.eq_le_incl. ring.
Qed.

(** X12. For an engine that does not check every integer, built on
    a search space with distinct keys, every batch the generator returns
    has at least [points_per_split^(#float) * 2^(#int + #bool)] and at
    most [points_per_split^(#int + #float) * 2^(#bool)] assignments: a
    float range gives [points_per_split] candidates, a boolean two, a
    constant one, and an integer range between two and
    [points_per_split], its rounded points being dropped when they
    repeat. Without integer ranges the size is exactly
    [points_per_split^(#float) * 2^(#bool)]. *)
Theorem batch_size f vars n it g (self : Cruncher) (ranges : dict value)
  (points : list (dict value)) (self' : Cruncher) :
  __init__ f vars n it g false = Ok self ->
  NoDup (dict_keys vars) ->
  _generate_test_points self ranges = Ok (points, self') ->
  let nb := count_kind KBool (types self) in
  let ni := count_kind KInt (types self) in
  let nf := count_kind KFloat (types self) in
  let size := Z.of_nat (List.length points) in
  n ^ nf * 2 ^ (ni + nb) <= size
  /\ size <= n ^ (ni + nf) * 2 ^ nb
  /\ (ni = 0 -> size = n ^ nf * 2 ^ nb).
Proof.
  intros Hinit Hnd Hgen nb ni nf size.
  destruct (init_fields _ _ _ _ _ _ _ Hinit)
    as (_ & Hv & Hn & _ & _ & Hca & _ & Hsort & Hn3 & _).
  destruct (init_validated _ _ _ _ _ _ _ Hinit) as [_ Hrec].
  pose proof (sort_keys_of_recognized vars Hnd Hrec) as Hty.
  rewrite Hsort in Hty. inversion Hty as [Ety]. clear Hty.
  rewrite <- Hv in Hnd.
  destruct (generated_product _ _ _ _ Hnd Hgen) as (lists & Hall & Hp).
  assert (Hsize : size = Z.of_nat (fold_right Nat.mul 1%nat
                                      (map (@List.length value) lists))).
  { unfold size. rewrite Hp, length_map, product_length. reflexivity. }
  destruct (sizes_by_kind self ranges vars) with (lists := lists) as [Hl Hu].
  - lia.
  - exact Hca.
  - intros k v Hin. rewrite Ety. rewrite <- Hv in Hin.
    pose proof (dict_find_NoDup_In _ _ _ Hnd Hin) as E. rewrite Hv in E.
    clear - E. induction vars as [|[k' v'] vars IH]; [discriminate|].
    simpl in *. destruct (String.eqb k k'); [inversion E; reflexivity|auto].
  - rewrite Hv in Hall. eapply Forall2_impl; [|exact Hall].
    intros a b (inc & Hc & _). eauto.
  - rewrite <- Ety in Hl, Hu. rewrite Hn in Hl, Hu. fold nb ni nf in Hl, Hu.
    rewrite <- Hsize in Hl, Hu. split; [exact Hl|]. split; [exact Hu|].
    intros Hi0. rewrite Hi0 in *. rewrite !Z.add_0_l in *. lia.
Qed.

Lemma batch_size_witness :
  exists points self',
    _generate_test_points engine_mixed mixed = Ok (points, self')
    /\ 3 ^ 1 * 2 ^ (1 + 1) <= Z.of_nat (List.length points)
    /\ Z.of_nat (List.length points) <= 3 ^ (1 + 1) * 2 ^ 1.
Proof.
  destruct (_generate_test_points engine_mixed mixed) as [[points self']|e] eqn:E;
    [|vm_compute in E; discriminate E].
  assert (Hnd : NoDup (dict_keys mixed)).
  { repeat constructor; simpl; intuition discriminate. }
  destruct (batch_size near_seven mixed 3 2 GoalMax engine_mixed mixed points self'
              eq_refl Hnd E) as (Hl & Hu & _).
  exists points, self'. split; [reflexivity|]. split; [exact Hl|exact Hu].
Defined.

(** ** Computations that raise within a set of exceptions *)

Lemma safe_bind {A B : Type} (allowed : exn -> bool) (Q : A -> Prop)
  (P : B -> Prop) (c : result A) (k : A -> result B) :
  safe allowed Q c -> (forall a, Q a -> safe allowed P (k a)) ->
  safe allowed P (bind c k).
Proof. destruct c as [a|e]; simpl; auto. Qed.

Lemma safe_weaken {A : Type} (allowed : exn -> bool) (P Q : A -> Prop)
  (c : result A) :
  (forall a, P a -> Q a) -> safe allowed P c -> safe allowed Q c.
Proof. destruct c as [a|e]; simpl; auto. Qed.

Lemma safe_Ok {A : Type} (allowed : exn -> bool) (P : A -> Prop)
  (c : result A) (a : A) :
  safe allowed P c -> c = Ok a -> P a.
Proof. intros H ->. exact H. Qed.

Lemma safe_foldM {S X : Type} (allowed : exn -> bool) (I : S -> Prop)
  (body : S -> X -> result S) (xs : list X) :
  (forall s x, In x xs -> I s -> safe allowed I (body s x)) ->
  forall s0, I s0 -> safe allowed I (foldM body xs s0).
Proof.
  induction xs as [|x xs IH]; intros Hbody s0 H0; [exact H0|].
  cbn [foldM]. apply safe_bind with (Q := I).
  - apply Hbody; [left; reflexivity|exact H0].
  - intros s Hs. apply IH; [|exact Hs].
    intros s' x' Hx'. apply Hbody. right. exact Hx'.
Qed.

Lemma safe_mapM {X Y : Type} (allowed : exn -> bool) (f : X -> result Y)
  (xs : list X) :
  (forall x, safe allowed (fun _ => True) (f x)) ->
  safe allowed (fun _ => True) (mapM f xs).
Proof.
  intros Hf. induction xs as [|x xs IH]; [exact I|].
  cbn [mapM]. apply safe_bind with (Q := fun _ => True); [apply Hf|].
  intros y _. apply safe_bind with (Q := fun _ => True); [exact IH|].
  intros ys _. exact I.
Qed.

Lemma float_of_int_safe (allowed : exn -> bool) (z : Z) :
  allowed OverflowError = true -> safe allowed (fun _ => True) (float_of_int z).
Proof.
  intros H. unfold float_of_int.
  destruct (Z.abs z <? float_overflow_bound); [exact I|exact H].
Qed.

Lemma int_truediv_safe (allowed : exn -> bool) (a b : Z) :
  allowed OverflowError = true -> b <> 0 ->
  safe allowed (fun _ => True) (int_truediv a b).
Proof.
  intros H Hb. unfold int_truediv.
  destruct (Z.eqb_spec b 0); [contradiction|].
  destruct (is_finite _); [exact I|exact H].
Qed.

Lemma float_round_safe (allowed : exn -> bool) (x : float) :
  (forall e, may_raise e = true -> allowed e = true) ->
  safe allowed (fun _ => True) (float_round x).
Proof.
  intros H. unfold float_round.
  destruct (Prim2SF x); simpl; auto.
Qed.

(** ** The float of a positive integer is not zero *)

Lemma Z2float_spec (m : Z) :
  0 <= m < 2 ^ 63 ->
  Prim2SF (Z2float m) = binary_normalize prec emax m 0 false.
Proof.
  intros Hm. unfold Z2float.
  assert (E : Uint63Axioms.to_Z (Uint63Axioms.of_Z m) = m).
  { rewrite Uint63.of_Z_spec. apply Z.mod_small.
    change Uint63Axioms.wB with (2 ^ 63). exact Hm. }
  rewrite <- E at 1. rewrite <- of_uint63_spec, SF2Prim_Prim2SF.
  rewrite of_uint63_spec, E. reflexivity.
Qed.

Lemma Z2float_not_zero (m : Z) :
  0 < m < 2 ^ 63 -> (Z2float m =? 0)%float = false.
Proof.
  intros Hm. rewrite eqb_spec, Z2float_spec by lia.
  change (Prim2SF 0) with (S754_zero false).
  destruct m as [|p|p]; try lia. unfold binary_normalize.
  destruct (binary_round_pos false p 0) as [(m' & e' & ->)| ->];
    [unfold emin64; lia| |]; reflexivity.
Qed.

Lemma float_of_small_int (m : Z) :
  Z.abs m < 2 ^ 63 -> float_of_int m = Ok (Z2float m).
Proof.
  intros Hm. unfold float_of_int.
  assert (Hb : 2 ^ 63 < float_overflow_bound) by (vm_compute; reflexivity).
  destruct (Z.ltb_spec (Z.abs m) float_overflow_bound); [reflexivity|lia].
Qed.
(** ** What the engine holds during a run *)

Lemma kind_shape (decl : value) :
  recognized_shape decl = true ->
  match declared_kind decl with
  | KConstant => is_number decl = true
  | KFloat => exists a b, decl = VList [a; b]
                          /\ is_number a = true /\ is_number b = true
  | KInt => exists lo hi, decl = VTuple [VInt lo; VInt hi]
  | KBool => exists b1 b2, decl = VTuple [VBool b1; VBool b2]
  end.
Proof.
  destruct decl as [z|f|b|s| |xs|xs]; simpl; try discriminate; try reflexivity.
  - destruct xs as [|a [|b [|c xs]]]; try discriminate.
    intros H. apply andb_prop in H. destruct H. eauto.
  - destruct xs as [|a [|b [|c xs]]]; try discriminate.
    + destruct a; discriminate.
    + destruct a, b; try discriminate; eauto.
    + destruct a, b; discriminate.
Qed.

Lemma cmp2_numbers (op : num -> num -> bool) (a b : value) :
  is_number a = true -> is_number b = true -> exists r, cmp2 op a b = Ok r.
Proof.
  destruct a, b; try discriminate; intros _ _; eexists; reflexivity.
Qed.

Lemma keep_in_given_range_returns (self : Cruncher) (key : string)
  (start end_ lo hi : value) :
  dict_find (variables self) key = Some (VList [lo; hi])
  \/ dict_find (variables self) key = Some (VTuple [lo; hi]) ->
  is_number start = true -> is_number end_ = true ->
  is_number lo = true -> is_number hi = true ->
  exists below above,
    keep_in_given_range self key start end_
    = Ok (if below : bool then lo else start, if above : bool then hi else end_).
Proof.
  intros Hd Hs He Hlo Hhi. unfold keep_in_given_range, dict_get.
  destruct (cmp2_numbers num_lt start lo Hs Hlo) as [below Eb].
  destruct (cmp2_numbers num_gt end_ hi He Hhi) as [above Ea].
  exists below, above. unfold py_lt, py_gt.
  destruct Hd as [-> | ->]; cbn [bind py_index nth_error];
    rewrite Eb; cbn [bind]; rewrite Ea; reflexivity.
Qed.

Lemma int_and_float_safe (allowed : exn -> bool)
  (opZ : Z -> Z -> Z) (opF : float -> float -> float) (z : Z) (q : float) :
  allowed OverflowError = true ->
  safe allowed a_float (lift2 (arith opZ opF) (VInt z) (VFloat q)).
Proof.
  intros H. unfold lift2, arith, float_of_int. cbn [num_of bind].
  destruct (Z.abs z <? float_overflow_bound); cbn [bind of_num safe];
    [eexists; reflexivity|exact H].
Qed.

Lemma arith_numbers_safe (allowed : exn -> bool)
  (opZ : Z -> Z -> Z) (opF : float -> float -> float) (a b : value) :
  allowed OverflowError = true ->
  a_number a -> a_number b ->
  safe allowed a_number (lift2 (arith opZ opF) a b).
Proof.
  unfold a_number. intros H Ha Hb. destruct a, b; try discriminate;
    unfold lift2, arith, float_of_int; cbn [num_of bind];
    try match goal with
        | |- context [Z.abs ?z <? _] => destruct (Z.abs z <? float_overflow_bound)
        end;
    cbn [bind of_num safe]; auto.
Qed.

Lemma truediv_is_float (d v r : value) : py_truediv d v = Ok r -> a_float r.
Proof.
  unfold py_truediv. intros H. apply lift2_Ok in H.
  destruct H as (x & y & q & _ & _ & Hq & ->).
  destruct x, y; simpl in Hq;
    repeat match type of Hq with
           | bind _ _ = Ok _ => let a := fresh "a" in let E := fresh "E" in
                                bind_inv Hq as a E
           end;
    inversion Hq; subst; eexists; reflexivity.
Qed.

Lemma product_is_empty {A : Type} (arrs : list (list A)) :
  product arrs = [] -> In [] arrs.
Proof.
  induction arrs as [|a arrs IH]; [discriminate|].
  cbn [product]. intros H. destruct a as [|x a]; [left; reflexivity|].
  right. apply IH. cbn [flat_map] in H. apply app_eq_nil in H.
  destruct H as [H _]. destruct (product arrs); [reflexivity|discriminate].
Qed.

Section Typed.

Variable allowed : exn -> bool.
Variable N : value -> Prop.
Hypothesis N_number : forall v, N v -> is_number v = true.
Hypothesis diff_safe : forall a b, N a -> N b -> safe allowed N (py_sub a b).
Hypothesis next_safe :
  forall a q, N a -> safe allowed N (py_add a (VFloat q)).
Hypothesis prev_safe :
  forall a q, N a -> safe allowed N (py_sub a (VFloat q)).

Lemma ramp_safe (k : nat) : forall prev q,
  N prev ->
  safe allowed (fun ps => forall x, In x ps -> N x) (ramp k prev (VFloat q)).
Proof.
  induction k as [|k IH]; intros prev q Hp; cbn [ramp].
  - intros x [].
  - apply safe_bind with (Q := N); [apply next_safe; exact Hp|].
    intros p Hp'. eapply safe_bind; [apply IH; exact Hp'|].
    intros rest Hrest x [<-|Hx]; auto.
Qed.

Lemma typed_engine_storage (self : Cruncher) (s : dict value) :
  typed_engine allowed N self ->
  typed_engine allowed N (set_global_increment_storage self s).
Proof. intros H. exact H. Qed.

Lemma declared_kind_of (self : Cruncher) (key : string) (decl : value) :
  well_formed self -> dict_find (variables self) key = Some decl ->
  recognized_shape decl = true
  /\ dict_get (types self) key = Ok (Some (declared_kind decl)).
Proof.
  intros Hwf Hd. destruct (wf_types self key decl Hwf Hd) as (Hrec & ty & Ety & Eget).
  rewrite (determine_recognized decl Hrec) in Ety. inversion Ety; subst ty.
  auto.
Qed.

Lemma candidates_typed (self : Cruncher) (ranges : dict value) (key : string)
  (decl : value) :
  typed_engine allowed N self ->
  typed_dict (range_typed N (check_all_ints self)) (variables self) ranges ->
  dict_find (variables self) key = Some decl ->
  safe allowed
       (fun ci => (forall x, In x (fst ci) -> entry_typed N decl x)
                  /\ step_typed (check_all_ints self) decl (snd ci)
                  /\ (fst ci = [] -> allowed ValueError = true))
       (candidates self ranges key).
Proof.
  intros (Hwf & Hstep & Hbounds & Hints) Hr Hd.
  destruct (declared_kind_of self key decl Hwf Hd) as [Hrec Eget].
  destruct Hwf as [Hn3 _].
  destruct (Hr key decl Hd) as (r & Er & Hrt).
  pose proof (kind_shape decl Hrec) as Hshape.
  unfold candidates. rewrite Eget. cbn [bind].
  unfold range_typed, entry_typed, step_typed in *.
  destruct (declared_kind decl) eqn:Ek.
  - unfold dict_get. rewrite Er. cbn [bind safe fst snd]. subst r.
    split; [|split]; [intros x [<-|[]]; reflexivity|reflexivity|discriminate].
  - destruct Hrt as (a & b & -> & Ha & Hb).
    unfold dict_get. rewrite Er. cbn [bind].
    rewrite split_float_list_ramp.
    apply safe_bind with (Q := N); [apply diff_safe; assumption|].
    intros diff Hdiff.
    apply safe_bind with (Q := a_float); [apply Hstep; assumption|].
    intros step [q ->].
    eapply safe_bind; [apply ramp_safe; exact Ha|].
    intros interior Hint. cbn [safe fst snd]. split; [|split].
    + intros x [<-|Hx]; [assumption|]. apply in_app_or in Hx.
      destruct Hx as [Hx|[<-|[]]]; auto.
    + exists q. reflexivity.
    + discriminate.
  - destruct Hshape as (lo & hi & ->).
    pose proof (Hints key lo hi Hd) as Hall. revert Hrt Hall.
    destruct (check_all_ints self) eqn:Eca; intros Hrt Hall.
    + subst r. unfold dict_get. rewrite Er. cbn [bind]. rewrite get_every_int.
      cbn [bind safe fst snd]. split; [|split].
      * intros x Hx. apply in_map_iff in Hx. destruct Hx as (z & <- & _). eauto.
      * reflexivity.
      * intros Hnone. apply Hall. apply map_eq_nil in Hnone.
        pose proof (Zrange_length lo (hi + 1)) as Hlen. rewrite Hnone in Hlen.
        simpl in Hlen. lia.
    + destruct Hrt as (s & e & ->). unfold dict_get. rewrite Er. cbn [bind].
      rewrite split_int_tuple_equation by exact Hn3.
      apply safe_bind with (Q := fun _ => True);
        [apply int_truediv_safe; [apply Hall; reflexivity|lia]|].
      intros q _. apply safe_bind with (Q := fun _ => True);
        [apply float_of_int_safe; apply Hall; reflexivity|].
      intros f _. apply safe_bind with (Q := fun _ => True);
        [apply safe_mapM; intros; apply float_round_safe; exact Hall|].
      intros rounded _. cbn [safe fst snd]. split; [|split].
      * intros x [<-|Hx]; [eauto|]. apply in_app_or in Hx.
        destruct Hx as [Hx|[<-|[]]]; [|eauto].
        apply in_map_iff in Hx. destruct Hx as (z & <- & _). eauto.
      * exists q. reflexivity.
      * discriminate.
  - cbn [safe fst snd]. split; [|split].
    + intros x [<-|[<-|[]]]; eauto.
    + reflexivity.
    + discriminate.
Qed.

Lemma generate_raises (self : Cruncher) (ranges : dict value) :
  typed_engine allowed N self ->
  typed_dict (range_typed N (check_all_ints self)) (variables self) ranges ->
  safe allowed (fun _ => True) (_generate_test_points self ranges).
Proof.
  intros Heng Hr. unfold _generate_test_points, candidate_lists.
  eapply safe_bind with (Q := fun _ => True).
  - eapply safe_bind with (Q := fun _ => True).
    + apply safe_foldM; [|exact I]. intros [od st] key Hkey _.
      destruct (dict_find_Some_key (variables self) key Hkey) as [decl Hd].
      eapply safe_bind; [apply (candidates_typed self ranges key decl); assumption|].
      intros [points inc] _. exact I.
    + intros [od st] _. exact I.
  - intros [od self1] _. destruct (combinations_spec od) as (arrs & -> & _).
    exact I.
Qed.

Lemma generate_typed (self : Cruncher) (ranges : dict value) :
  typed_engine allowed N self ->
  typed_dict (range_typed N (check_all_ints self)) (variables self) ranges ->
  safe allowed
       (fun ps => frame_typed allowed N self
                    {| self_ := snd ps; points_ := fst ps;
                       ret_vars := None; var_range := None |})
       (_generate_test_points self ranges).
Proof.
  intros Heng Hr. pose proof (generate_raises self ranges Heng Hr) as Hsafe.
  destruct (_generate_test_points self ranges) as [[points self']|e] eqn:E;
    [|exact Hsafe].
  clear Hsafe. cbn [safe fst snd]. unfold frame_typed. cbn [self_ points_].
  pose proof E as E'. unfold _generate_test_points in E'.
  bind_inv E' as od Ecl. destruct od as [option_dic self1].
  bind_inv E' as batch Ecomb. inversion E'; subst batch self1; clear E'.
  destruct (candidate_lists_spec _ _ _ _ Ecl) as (Hself & Hin & Hout).
  assert (Hcand : forall key decl,
             dict_find (variables self) key = Some decl ->
             exists cands inc,
               candidates self ranges key = Ok (cands, inc)
               /\ dict_find option_dic key = Some cands
               /\ dict_find (global_increment_storage self') key = Some inc
               /\ (forall x, In x cands -> entry_typed N decl x)
               /\ step_typed (check_all_ints self) decl inc
               /\ (cands = [] -> allowed ValueError = true)).
  { intros key decl Hd. destruct (Hin key) as (cands & inc & Ec & Eod & Est).
    - destruct (in_dec string_dec key (dict_keys (variables self)))
        as [?|Hn]; [assumption|]. apply dict_find_None in Hn. congruence.
    - pose proof (safe_Ok _ _ _ _ (candidates_typed self ranges key decl Heng Hr Hd) Ec)
        as (H1 & H2 & H3).
      exists cands, inc. auto 10. }
  split; [exact Hself|]. split; [|split].
  - intros a Ha. destruct (generated_points _ _ _ _ a E Ha) as (_ & Hkeys & Hvals).
    split; [|intros k Hk; apply Hkeys; exact Hk].
    intros key decl Hd. destruct (Hcand key decl Hd) as (cands & inc & Ec & _ & _ & Ht & _).
    destruct (Hvals key) as (cands' & inc' & x & Ec' & _ & Ex & Hx).
    + destruct (in_dec string_dec key (dict_keys (variables self)))
        as [?|Hn]; [assumption|]. apply dict_find_None in Hn. congruence.
    + rewrite Ec in Ec'. inversion Ec'; subst. exists x. auto.
  - intros key decl Hd.
    destruct (Hcand key decl Hd) as (cands & inc & _ & _ & Est & _ & Hs & _).
    exists inc. auto.
  - intros ->. destruct (combinations_spec option_dic) as (arrs & Ec & Hall).
    rewrite Ecomb in Ec. inversion Ec as [Emap]. symmetry in Emap.
    apply map_eq_nil in Emap. apply product_is_empty in Emap.
    assert (Hk : exists key, dict_find option_dic key = Some []).
    { clear - Hall Emap. induction Hall as [|k a ks arrs Hka Hall IH];
        [destruct Emap|].
      destruct Emap as [->|Hin]; [eauto|auto]. }
    destruct Hk as [key Hkey].
    destruct (in_dec string_dec key (dict_keys (variables self))) as [Hk|Hn].
    + destruct (dict_find_Some_key _ _ Hk) as [decl Hd].
      destruct (Hcand key decl Hd) as (cands & inc & _ & Eod & _ & _ & _ & Hempty).
      rewrite Hkey in Eod. inversion Eod; subst. auto.
    + destruct (Hout key Hn) as [Hnone _]. congruence.
Qed.

Lemma narrowed_typed (self : Cruncher) (best : float * dict value)
  (key : string) (decl : value) :
  typed_engine allowed N self ->
  typed_dict (entry_typed N) (variables self) (snd best) ->
  typed_dict (step_typed (check_all_ints self)) (variables self)
             (global_increment_storage self) ->
  dict_find (variables self) key = Some decl ->
  safe allowed
       (fun r => exists x, r = Some x
                           /\ range_typed N (check_all_ints self) decl x)
       (narrowed self best key).
Proof.
  intros (Hwf & Hstep & Hbounds & Hints) Hbest Hstore Hd.
  destruct (declared_kind_of self key decl Hwf Hd) as [Hrec Eget].
  destruct (Hbest key decl Hd) as (x & Ex & Hx).
  destruct (Hstore key decl Hd) as (inc & Einc & Hinc).
  pose proof (kind_shape decl Hrec) as Hshape.
  unfold narrowed. rewrite Eget. cbn [bind].
  unfold range_typed, entry_typed, step_typed in *.
  destruct (declared_kind decl) eqn:Ek.
  - unfold dict_get. rewrite Ex. cbn [bind safe]. subst x. eauto.
  - destruct Hshape as (lo & hi & -> & Hlo & Hhi).
    destruct (Hbounds key lo hi Hd) as [Nlo Nhi].
    destruct Hinc as [q ->].
    unfold dict_get at 1 2. rewrite Einc, Ex. cbn [bind].
    apply safe_bind with (Q := N); [apply prev_safe; exact Hx|].
    intros start Hs. apply safe_bind with (Q := N); [apply next_safe; exact Hx|].
    intros end_ He.
    destruct (keep_in_given_range_returns self key start end_ lo hi)
      as (below & above & ->); auto.
    cbn [bind safe]. eexists. split; [reflexivity|].
    eexists. eexists. split; [reflexivity|].
    destruct below, above; auto.
  - destruct Hshape as (lo & hi & ->). destruct Hx as [z ->].
    pose proof (Hints key lo hi Hd) as Hall. revert Hinc Hall.
    destruct (check_all_ints self) eqn:Eca; intros Hinc Hall.
    + unfold dict_get. rewrite Hd. cbn [bind py_index nth_error safe]. eauto.
    + destruct Hinc as [q ->].
      unfold dict_get at 1. rewrite Einc. cbn [bind].
      change (py_lt (VFloat q) (VInt 1)) with (Ok (num_lt (Flt q) (Int 1))).
      cbn [bind]. destruct (num_lt (Flt q) (Int 1)).
      * unfold dict_get at 1. rewrite Ex. cbn [bind].
        change (py_sub (VInt z) (VInt 1)) with (Ok (VInt (z - 1))).
        change (py_add (VInt z) (VInt 1)) with (Ok (VInt (z + 1))).
        cbn [bind].
        destruct (keep_in_given_range_returns self key (VInt (z - 1))
                    (VInt (z + 1)) (VInt lo) (VInt hi))
          as (below & above & ->); auto.
        cbn [bind safe]. eexists. split; [reflexivity|].
        destruct below, above; eauto.
      * unfold dict_get at 1. rewrite Ex. cbn [bind].
        apply safe_bind with (Q := a_float);
          [apply int_and_float_safe; apply Hall; reflexivity|].
        intros below [fb ->].
        apply safe_bind with (Q := fun _ => True);
          [apply float_round_safe; exact Hall|].
        intros start _.
        apply safe_bind with (Q := a_float);
          [apply int_and_float_safe; apply Hall; reflexivity|].
        intros above [fa ->].
        apply safe_bind with (Q := fun _ => True);
          [apply float_round_safe; exact Hall|].
        intros end_ _.
        destruct (keep_in_given_range_returns self key (VInt start)
                    (VInt end_) (VInt lo) (VInt hi))
          as (below & above & ->); auto.
        cbn [bind safe]. eexists. split; [reflexivity|].
        destruct below, above; eauto.
  - cbn [safe]. eauto.
Qed.

Lemma convert_typed (self : Cruncher) (best : float * dict value) :
  typed_engine allowed N self ->
  typed_dict (entry_typed N) (variables self) (snd best) ->
  (forall k, In k (dict_keys (snd best)) -> In k (dict_keys (variables self))) ->
  typed_dict (step_typed (check_all_ints self)) (variables self)
             (global_increment_storage self) ->
  safe allowed (typed_dict (range_typed N (check_all_ints self)) (variables self))
       (_convert_best_val_var_pair_into_ranges self best).
Proof.
  intros Heng Hbest Hkeys Hstore.
  assert (Hsafe : safe allowed (fun _ => True)
                    (_convert_best_val_var_pair_into_ranges self best)).
  { unfold _convert_best_val_var_pair_into_ranges.
    apply safe_foldM; [|exact I]. intros new_range key Hkey _.
    destruct (dict_find_Some_key (variables self) key (Hkeys key Hkey)) as [decl Hd].
    eapply safe_bind; [apply (narrowed_typed self best key decl); assumption|].
    intros r (x & -> & _). exact I. }
  destruct (_convert_best_val_var_pair_into_ranges self best) as [r|e] eqn:E;
    [|exact Hsafe].
  cbn [safe]. destruct (narrowing_spec _ _ _ E) as [Hin _].
  intros key decl Hd. destruct (Hbest key decl Hd) as (x & Ex & _).
  destruct (Hin key) as (entry & En & Er).
  - destruct (in_dec string_dec key (dict_keys (snd best))) as [?|Hn]; [assumption|].
    apply dict_find_None in Hn. congruence.
  - destruct (safe_Ok _ _ _ _ (narrowed_typed self best key decl Heng Hbest Hstore Hd) En)
      as (y & -> & Hy).
    exists y. auto.
Qed.

Lemma declared_space_typed (self : Cruncher) :
  typed_engine allowed N self ->
  typed_dict (range_typed N (check_all_ints self)) (variables self) (variables self).
Proof.
  intros (Hwf & _ & Hbounds & _) key decl Hd. exists decl. split; [exact Hd|].
  destruct (declared_kind_of self key decl Hwf Hd) as [Hrec _].
  pose proof (kind_shape decl Hrec) as Hshape. unfold range_typed.
  destruct (declared_kind decl); auto.
  - destruct Hshape as (a & b & -> & _). destruct (Hbounds key a b Hd). eauto.
  - destruct (check_all_ints self); auto.
Qed.

Lemma pass_typed (self : Cruncher) (fr : frame) :
  typed_engine allowed N self -> frame_typed allowed N self fr ->
  safe allowed
       (fun p => match p with
                 | Return _ _ => True
                 | Continue fr' =>
                     frame_typed allowed N self fr' /\ ret_vars fr' <> None
                 end)
       (crunch_pass fr).
Proof.
  intros Heng (Hself & Hbatch & Hstore & Hempty). unfold crunch_pass.
  destruct (_find_ideal_choice (self_ fr) (points_ fr)) as [[ret vars]|] eqn:Ef.
  - destruct (find_ideal_member _ _ _ _ Ef) as [Hin _].
    destruct (Hbatch vars Hin) as [Hvars Hkeys].
    destruct (goal_reached (goal (self_ fr)) ret); [exact I|].
    remember (global_increment_storage (self_ fr)) as s0 eqn:Es0.
    rewrite Hself. clear Ef Hself.
    pose proof (typed_engine_storage self s0 Heng) as Heng0.
    apply safe_bind with
      (Q := typed_dict (range_typed N (check_all_ints self)) (variables self)).
    { apply (convert_typed (set_global_increment_storage self s0) (ret, vars));
        assumption. }
    intros r Hr.
    eapply safe_bind;
      [apply (generate_typed (set_global_increment_storage self s0) r);
       assumption|].
    intros [points self2] (H1 & H2 & H3 & H4). cbn [safe fst snd self_ points_] in *.
    split; [|discriminate]. unfold frame_typed. cbn [self_ points_].
    split; [rewrite H1 at 1; reflexivity|]. auto.
  - cbn [safe]. apply Hempty. destruct (points_ fr) as [|x rest] eqn:Ep;
      [reflexivity|].
    exfalso. apply (find_ideal_nonempty (self_ fr) (x :: rest)); [discriminate|].
    exact Ef.
Qed.

Lemma loop_typed (self : Cruncher) (n : nat) : forall fr,
  typed_engine allowed N self -> frame_typed allowed N self fr ->
  (n = 0%nat -> ret_vars fr <> None) ->
  safe allowed (fun _ => True) (crunch_loop n fr).
Proof.
  induction n as [|n IH]; intros fr Heng Hfr Hret; cbn [crunch_loop].
  - destruct (ret_vars fr); [exact I|]. exfalso. apply Hret; reflexivity.
  - eapply safe_bind; [apply (pass_typed self fr Heng Hfr)|].
    intros [rv self2|fr'] Hp; [exact I|]. destruct Hp as [Hfr' Hret'].
    apply IH; auto.
Qed.

Lemma entry_typed_frame (self : Cruncher) :
  typed_engine allowed N self ->
  safe allowed (frame_typed allowed N self) (crunch_entry self).
Proof.
  intros Heng. unfold crunch_entry.
  eapply safe_bind;
    [apply (generate_typed self (variables self) Heng);
     apply declared_space_typed; exact Heng|].
  intros [points self1] H. exact H.
Qed.

Lemma crunch_typed (self : Cruncher) :
  typed_engine allowed N self -> 1 <= iterations self ->
  safe allowed (fun _ => True) (crunch self).
Proof.
  intros Heng Hit. unfold crunch.
  eapply safe_bind; [apply entry_typed_frame; exact Heng|].
  intros fr Hfr. apply (loop_typed self _ fr Heng Hfr). lia.
Qed.

Lemma loop_head_typed (self : Cruncher) (k : nat) (fr : frame) :
  typed_engine allowed N self -> loop_head self k fr ->
  frame_typed allowed N self fr.
Proof.
  intros Heng (fr0 & E0 & Hp).
  pose proof (safe_Ok _ _ _ _ (entry_typed_frame self Heng) E0) as H0.
  clear E0. induction Hp as [fr0|k fr0 fr1 fr2 Hp IH Hpass]; [exact H0|].
  specialize (IH H0).
  apply (safe_Ok _ _ _ _ (pass_typed self fr1 Heng IH) Hpass).
Qed.

End Typed.

(** ** Engines built by the constructor *)

Lemma truediv_numbers_safe (allowed : exn -> bool) (d : value) (m : Z) :
  allowed OverflowError = true ->
  a_number d -> 0 < m < 2 ^ 63 ->
  safe allowed a_float (py_truediv d (VInt m)).
Proof.
  unfold a_number. intros H Hd Hm. destruct d as [x|x| | | | |]; try discriminate.
  - unfold py_truediv, lift2, num_truediv, int_truediv. cbn [num_of bind].
    destruct (Z.eqb_spec m 0); [lia|].
    destruct (is_finite _); cbn [bind of_num safe]; [eexists; reflexivity|exact H].
  - unfold py_truediv, lift2, num_truediv, float_truediv. cbn [num_of bind].
    rewrite float_of_small_int by lia. cbn [bind].
    rewrite Z2float_not_zero by lia. cbn [bind of_num safe]. eexists; reflexivity.
Qed.

Lemma truediv_float_returns (x : float) (m : Z) :
  0 < m < 2 ^ 63 ->
  py_truediv (VFloat x) (VInt m) = Ok (VFloat (x / Z2float m)).
Proof.
  intros Hm. unfold py_truediv, lift2, num_truediv, float_truediv.
  cbn [num_of bind]. rewrite float_of_small_int by lia. cbn [bind].
  rewrite Z2float_not_zero by lia. reflexivity.
Qed.

Lemma declared_list_of_numbers (self : Cruncher) (key : string) (a b : value) :
  well_formed self ->
  dict_find (variables self) key = Some (VList [a; b]) ->
  a_number a /\ a_number b.
Proof.
  intros [_ Hwf] Hd. destruct (Hwf key _ Hd) as [Hrec _].
  simpl in Hrec. apply andb_prop in Hrec. exact Hrec.
Qed.

Lemma constructed_engine_typed (allowed : exn -> bool) f vars n it g ca self :
  __init__ f vars n it g ca = Ok self ->
  (forall e, may_raise e = true -> allowed e = true) ->
  (forall d, a_number d ->
             safe allowed a_float (py_truediv d (VInt (n - 1)))) ->
  typed_engine allowed a_number self.
Proof.
  intros Hinit Hall Hdiv.
  pose proof (init_well_formed _ _ _ _ _ _ _ Hinit) as Hwf.
  destruct (init_fields _ _ _ _ _ _ _ Hinit) as (_ & _ & Hn & _).
  split; [exact Hwf|]. split; [rewrite Hn; exact Hdiv|]. split.
  - intros key a b Hd. apply (declared_list_of_numbers self key a b Hwf Hd).
  - intros key lo hi _. destruct (check_all_ints self); [|exact Hall].
    intros _. apply Hall. reflexivity.
Qed.

Lemma generated_keys (self : Cruncher) (ranges : dict value) points self' a :
  NoDup (dict_keys (variables self)) ->
  _generate_test_points self ranges = Ok (points, self') -> In a points ->
  dict_keys a = dict_keys (variables self).
Proof.
  intros Hnd H Ha. destruct (generated_product _ _ _ _ Hnd H) as (lists & Hall & ->).
  apply in_map_iff in Ha. destruct Ha as (combo & <- & Hc).
  apply combine_keys. rewrite (product_combo_length _ _ Hc).
  eapply Forall2_length. exact Hall.
Qed.

(** X13. Every assignment the function is evaluated on, in every
    iteration of a run on a constructed engine, has exactly the declared
    keys (in the declared order, when they are distinct) and holds under
    each of them a value of the declared kind: the declared number under
    a constant, a number under a range of floats, an int under a range
    of ints, a boolean under a boolean. *)
Theorem evaluated_assignments_are_typed f vars n it g ca (self : Cruncher) :
  __init__ f vars n it g ca = Ok self ->
  forall k fr a,
    loop_head self k fr -> In a (points_ fr) ->
    (forall key, In key (dict_keys a) <-> In key (dict_keys vars))
    /\ (NoDup (dict_keys vars) -> dict_keys a = dict_keys vars)
    /\ forall key decl,
         dict_find vars key = Some decl ->
         exists x,
           dict_find a key = Some x
           /\ match declared_kind decl with
              | KConstant => x = decl
              | KFloat => is_number x = true
              | KInt => exists z, x = VInt z
              | KBool => exists b, x = VBool b
              end.
Proof.
  intros Hinit k fr a Hhead Ha.
  destruct (init_fields _ _ _ _ _ _ _ Hinit) as (_ & Hv & _).
  assert (Heng : typed_engine any_exception a_number self).
  { apply (constructed_engine_typed any_exception _ _ _ _ _ _ _ Hinit);
      [reflexivity|].
    intros d _. destruct (py_truediv d (VInt (n - 1))) as [r|e] eqn:E;
      [|reflexivity].
    apply (truediv_is_float _ _ _ E). }
  assert (Hfr : frame_typed any_exception a_number self fr).
  { apply (loop_head_typed any_exception a_number) with (k := k);
      try assumption.
    - auto.
    - intros; apply arith_numbers_safe; auto.
    - intros; apply arith_numbers_safe; auto. reflexivity.
    - intros; apply arith_numbers_safe; auto. reflexivity. }
  destruct Hfr as (Hself & Hbatch & _). destruct (Hbatch a Ha) as [Htyped _].
  rewrite <- Hv.
  split; [intros key; apply (loop_head_keys self k fr Hhead a key Ha)|].
  split; [|exact Htyped].
  intros Hnd. destruct Hhead as (fr0 & E0 & Hp).
  inversion Hp as [fr1 E1 E2 E3|m fr1 fr2 fr3 Hm Hpass E1 E2 E3]; subst.
  - unfold crunch_entry in E0. bind_inv E0 as ps Eg. destruct ps as [points self1].
    inversion E0; subst. cbn [points_] in Ha.
    apply (generated_keys self (variables self) points self1 a Hnd Eg Ha).
  - destruct (pass_continue_inv _ _ Hpass) as (ret & vs & r & _ & _ & Eg & _).
    assert (Hh : loop_head self m fr2) by (exists fr0; auto).
    rewrite (loop_head_keeps_configuration self m fr2 Hh) in Eg.
    apply (generated_keys
             (set_global_increment_storage self
                (global_increment_storage (self_ fr2)))
             r (points_ fr) (self_ fr) a Hnd Eg Ha).
Qed.

Lemma evaluated_assignments_are_typed_witness :
  exists fr a,
    crunch_entry engine_mixed = Ok fr
    /\ In a (points_ fr)
    /\ exists x, dict_find a "i"%string = Some x /\ exists z, x = VInt z.
Proof.
  assert (Hhd : match crunch_entry engine_mixed with
                | Ok fr => hd_error (points_ fr)
                | Raise _ => None
                end
                = Some [("x"%string, VFloat 0); ("i"%string, VInt 0);
                        ("c"%string, VInt 5); ("b"%string, VBool true)])
    by (vm_compute; reflexivity).
  destruct (crunch_entry engine_mixed) as [fr|e] eqn:E; [|discriminate Hhd].
  assert (Hin : In [("x"%string, VFloat 0); ("i"%string, VInt 0);
                    ("c"%string, VInt 5); ("b"%string, VBool true)]
                   (points_ fr)).
  { destruct (points_ fr); [discriminate Hhd|].
    inversion Hhd; subst. left; reflexivity. }
  eexists. eexists. split; [reflexivity|]. split; [exact Hin|].
  apply (proj2 (proj2 (evaluated_assignments_are_typed near_seven mixed 3 2 GoalMax
                         false engine_mixed eq_refl 0%nat fr _
                         (ex_intro _ fr (conj E (passes_none fr))) Hin))
           "i"%string (VTuple [VInt 0; VInt 10]) eq_refl).
Defined.

(** X14. A run of [crunch] on a constructed engine with at most 2^63
    points per split returns, or raises OverflowError (an int too large
    for a float, the rounding of an infinity) or ValueError (the rounding
    of a NaN, no candidate to choose from): the declarations validated at
    construction are never the cause of a KeyError, an IndexError, a
    TypeError, a division by zero, an unbound local or the engine's own
    "Failed to identify key from types" (the evaluation function
    returning a float on every assignment). *)
Theorem crunch_raises_only_arithmetic f vars n it g ca (self : Cruncher)
  (e : exn) :
  __init__ f vars n it g ca = Ok self ->
  n <= 2 ^ 63 ->
  crunch self = Raise e ->
  e = OverflowError \/ e = ValueError.
Proof.
  intros Hinit Hn Hraise.
  destruct (init_fields _ _ _ _ _ _ _ Hinit)
    as (_ & _ & _ & Hit & _ & _ & _ & _ & Hn3 & Hit1).
  assert (Heng : typed_engine may_raise a_number self).
  { apply (constructed_engine_typed may_raise _ _ _ _ _ _ _ Hinit); [auto|].
    intros d Hd. apply truediv_numbers_safe; [reflexivity|exact Hd|lia]. }
  assert (Hsafe : safe may_raise (fun _ => True) (crunch self)).
  { apply (crunch_typed may_raise a_number); try assumption.
    - auto.
    - intros; apply arith_numbers_safe; auto.
    - intros; apply arith_numbers_safe; auto. reflexivity.
    - intros; apply arith_numbers_safe; auto. reflexivity.
    - lia. }
  rewrite Hraise in Hsafe. cbn [safe] in Hsafe.
  destruct e; try discriminate Hsafe; auto.
Qed.

Lemma crunch_raises_only_arithmetic_witness :
  ValueError = OverflowError \/ ValueError = ValueError.
Proof.
  apply (crunch_raises_only_arithmetic zero_function (variables engine_backwards)
           3 2 GoalMax true engine_backwards ValueError eq_refl).
  - lia.
  - vm_compute. reflexivity.
Defined.

Lemma plain_space_kind (check_all : bool) (decl : value) :
  plain_space check_all decl = true ->
  match declared_kind decl with
  | KFloat => exists a b, decl = VList [VFloat a; VFloat b]
  | KInt => exists lo hi, decl = VTuple [VInt lo; VInt hi]
                          /\ check_all = true /\ lo <= hi
  | _ => True
  end.
Proof.
  destruct decl as [z|x|b|s| |xs|xs]; simpl; try discriminate; auto.
  - destruct xs as [|a [|b [|c xs]]]; try discriminate;
      try (destruct a; discriminate);
      destruct a, b; try discriminate; eauto.
  - destruct xs as [|a [|b [|c xs]]]; try discriminate;
      try (destruct a; discriminate);
      destruct a, b; try discriminate; auto.
    intros H. apply andb_prop in H. destruct H as [-> H].
    apply Z.leb_le in H. eauto.
Qed.

(** X15. On a search space of constants, ranges of floats given by
    two floats, booleans and, when every integer is checked, ranges of
    ints given in order, a run of [crunch] on a constructed engine with
    at most 2^63 points per split always returns a score and an
    assignment: nothing in it can raise (the evaluation function
    returning a float on every assignment, and the goal being 'max',
    'min' or a number, as everywhere here). *)
Theorem crunch_returns_on_plain_spaces f vars n it g ca (self : Cruncher) :
  __init__ f vars n it g ca = Ok self ->
  n <= 2 ^ 63 ->
  (forall key decl, dict_find vars key = Some decl -> plain_space ca decl = true) ->
  exists rv self', crunch self = Ok (rv, self').
Proof.
  intros Hinit Hn Hspace.
  destruct (init_fields _ _ _ _ _ _ _ Hinit)
    as (_ & Hv & Hpps & Hit & _ & Hca & _ & _ & Hn3 & Hit1).
  pose proof (init_well_formed _ _ _ _ _ _ _ Hinit) as Hwf.
  assert (Heng : typed_engine no_exception a_float self).
  { split; [exact Hwf|]. split; [|split].
    - intros d [x ->]. rewrite Hpps, truediv_float_returns by lia.
      eexists; reflexivity.
    - intros key a b Hd. rewrite Hv in Hd.
      pose proof (plain_space_kind _ _ (Hspace key _ Hd)) as Hk.
      simpl in Hk. destruct Hk as (x & y & E). inversion E; subst.
      split; eexists; reflexivity.
    - intros key lo hi Hd. rewrite Hv in Hd.
      pose proof (plain_space_kind _ _ (Hspace key _ Hd)) as Hk.
      simpl in Hk. destruct Hk as (lo' & hi' & E & -> & Hle).
      inversion E; subst. rewrite Hca. intros Hlt. lia. }
  assert (Hsafe : safe no_exception (fun _ => True) (crunch self)).
  { apply (crunch_typed no_exception a_float); try assumption.
    - intros v [x ->]. reflexivity.
    - intros a b [x ->] [y ->]. eexists; reflexivity.
    - intros a q [x ->]. eexists; reflexivity.
    - intros a q [x ->]. eexists; reflexivity.
    - lia. }
  destruct (crunch self) as [[rv self']|e]; [eauto|discriminate Hsafe].
Qed.

Lemma crunch_returns_on_plain_spaces_witness :
  exists rv self', crunch engine_plain = Ok (rv, self').
Proof.
  apply (crunch_returns_on_plain_spaces near_seven plain_declarations 4 3 GoalMax
           true engine_plain eq_refl).
  - lia.
  - intros key decl H. simpl in H.
    repeat match type of H with
           | (if ?c then _ else _) = _ => destruct c
           end; inversion H; reflexivity.
Defined.

(** ** The drivers that print *)

Lemma snd_bind_talk {A B : Type} (c : talk A) (k : A -> talk B) :
  snd (bind_talk c k) = bind (snd c) (fun a => snd (k a)).
Proof. destruct c as [out [a|e]]; reflexivity. Qed.

Lemma fst_bind_talk {A B : Type} (c : talk A) (k : A -> talk B) :
  fst (bind_talk c k)
  = fst c ++ match snd c with
             | Ok a => fst (k a)
             | Raise _ => []
             end.
Proof.
  destruct c as [out [a|e]]; simpl; [reflexivity|].
  rewrite app_nil_r. reflexivity.
Qed.

Lemma filter_points (points : list (dict value)) :
  filter detailed_line (map PPoint points) = [].
Proof. induction points; simpl; auto. Qed.

Lemma detailed_pass_result (x : Z) (fr : frame) :
  snd (detailed_pass x fr) = crunch_pass fr.
Proof.
  unfold detailed_pass, crunch_pass, unpack_choice.
  destruct (_find_ideal_choice (self_ fr) (points_ fr)) as [[ret vars]|];
    [|reflexivity].
  cbn [quiet bind_talk say say_points fst snd app bind]. destruct (goal_reached (goal (self_ fr)) ret); [reflexivity|].
  destruct (_convert_best_val_var_pair_into_ranges (self_ fr) (ret, vars))
    as [r|e]; [|reflexivity].
  cbn [quiet bind_talk say say_points fst snd app bind]. destruct (_generate_test_points (self_ fr) r) as [[points self2]|e];
    reflexivity.
Qed.

Lemma verbose_pass_result (x : Z) (fr : frame) :
  snd (verbose_pass x fr) = crunch_pass fr
  /\ filter detailed_line (fst (verbose_pass x fr)) = fst (detailed_pass x fr).
Proof.
  unfold verbose_pass, detailed_pass, crunch_pass, unpack_choice.
  destruct (_find_ideal_choice (self_ fr) (points_ fr)) as [[ret vars]|];
    [|split; reflexivity].
  cbn [quiet bind_talk say say_points fst snd app bind]. destruct (goal_reached (goal (self_ fr)) ret); [split; reflexivity|].
  destruct (_convert_best_val_var_pair_into_ranges (self_ fr) (ret, vars))
    as [r|e]; [|split; reflexivity].
  cbn [quiet bind_talk say say_points fst snd app bind]. destruct (_generate_test_points (self_ fr) r) as [[points self2]|e];
    [|split; reflexivity].
  cbn [quiet bind_talk say say_points fst snd app bind]. split; [reflexivity|].
  cbn [filter detailed_line]. rewrite filter_app, filter_points. reflexivity.
Qed.

Lemma detailed_loop_result (n : nat) : forall x fr,
  snd (detailed_loop n x fr) = crunch_loop n fr.
Proof.
  induction n as [|n IH]; intros x fr; cbn [detailed_loop crunch_loop].
  - destruct (ret_vars fr); reflexivity.
  - rewrite snd_bind_talk, detailed_pass_result.
    destruct (crunch_pass fr) as [[rv self2|fr']|e]; cbn [bind];
      [reflexivity|apply IH|reflexivity].
Qed.

Lemma verbose_loop_result (n : nat) : forall x fr,
  snd (verbose_loop n x fr) = crunch_loop n fr
  /\ filter detailed_line (fst (verbose_loop n x fr)) = fst (detailed_loop n x fr).
Proof.
  induction n as [|n IH]; intros x fr; cbn [verbose_loop detailed_loop crunch_loop].
  - destruct (ret_vars fr); split; reflexivity.
  - destruct (verbose_pass_result x fr) as [Hs Hf].
    rewrite snd_bind_talk, !fst_bind_talk, filter_app, Hs, Hf.
    rewrite detailed_pass_result.
    destruct (crunch_pass fr) as [[rv self2|fr']|e]; cbn [bind];
      [split; reflexivity| |split; reflexivity].
    destruct (IH (x + 1) fr') as [IHs IHf]. rewrite IHs, IHf. split; reflexivity.
Qed.

Lemma last_printed_app (pre out : list printed) (p : printed) :
  last_printed out = Some p -> last_printed (pre ++ out) = Some p.
Proof.
  unfold last_printed. rewrite rev_app_distr.
  destruct (rev out); [discriminate|]. simpl. auto.
Qed.

Lemma detailed_loop_last (n : nat) : forall x fr rv self',
  0 <= x ->
  snd (detailed_loop n x fr) = Ok (rv, self') ->
  last_printed (fst (detailed_loop n x fr)) = Some PFinished
  \/ exists after,
       x < after <= x + Z.of_nat n
       /\ last_printed (fst (detailed_loop n x fr)) = Some (PFound after).
Proof.
  induction n as [|n IH]; intros x fr rv self' Hx H.
  - left. cbn [detailed_loop]. destruct (ret_vars fr); reflexivity.
  - cbn [detailed_loop] in *. rewrite snd_bind_talk in H. rewrite fst_bind_talk.
    unfold detailed_pass, unpack_choice in *.
    destruct (_find_ideal_choice (self_ fr) (points_ fr)) as [[ret vars]|];
      [|discriminate H].
    cbn [quiet bind_talk say say_points fst snd app bind] in H |- *. destruct (goal_reached (goal (self_ fr)) ret).
    { right. exists (x + 1). split; [lia|reflexivity]. }
    destruct (_convert_best_val_var_pair_into_ranges (self_ fr) (ret, vars))
      as [r|e]; [|discriminate H].
    cbn [quiet bind_talk say say_points fst snd app bind] in H |- *. destruct (_generate_test_points (self_ fr) r)
      as [[points self2]|e]; [|discriminate H].
    cbn [quiet bind_talk say say_points fst snd app bind] in H |- *.
    set (fr' := {| self_ := self2; points_ := points;
                   ret_vars := Some (ret, vars); var_range := Some r |}) in *.
    destruct (IH (x + 1) fr' rv self') as [Hl|(after & Ha & Hl)]; [lia|exact H| |].
    + left. apply (last_printed_app [PFindings vars ret; PNewStartRange r]).
      exact Hl.
    + right. exists after. split; [lia|].
      apply (last_printed_app [PFindings vars ret; PNewStartRange r]).
      exact Hl.
Qed.

(** X16. [detailed_crunch] and [verbose_crunch] return what
    [crunch] returns, or raise what it raises, and leave the engine as it
    does. What [verbose_crunch] prints is what [detailed_crunch] prints,
    with the points of each batch besides. When the run returns, the last
    line printed is 'Finished!', or "found after k iterations!" where [k]
    counts the passes made, between 1 and [iterations]. *)
Theorem printing_drivers_agree (self : Cruncher) :
  snd (detailed_crunch self) = crunch self
  /\ snd (verbose_crunch self) = crunch self
  /\ filter detailed_line (fst (verbose_crunch self)) = fst (detailed_crunch self)
  /\ (forall rv self',
         crunch self = Ok (rv, self') ->
         last_printed (fst (detailed_crunch self)) = Some PFinished
         \/ exists k, 1 <= k <= iterations self
                      /\ last_printed (fst (detailed_crunch self))
                         = Some (PFound k)).
Proof.
  assert (Hit : forall ranges points self1,
             _generate_test_points self ranges = Ok (points, self1) ->
             iterations self1 = iterations self).
  { intros ranges points self1 E.
    rewrite (generate_keeps_configuration _ _ _ _ E). reflexivity. }
  unfold detailed_crunch, verbose_crunch, crunch, crunch_entry.
  destruct (_generate_test_points self (variables self)) as [[points self1]|e] eqn:E.
  2: { cbn. repeat split; try reflexivity. intros rv self' H. discriminate H. }
  cbn [quiet bind_talk bind fst snd app]. rewrite !(Hit _ _ _ E).
  set (fr := {| self_ := self1; points_ := points;
                ret_vars := None; var_range := None |}).
  destruct (verbose_loop_result (Z.to_nat (iterations self)) 0 fr) as [Hs Hf].
  split; [apply detailed_loop_result|].
  split.
  { rewrite !snd_bind_talk. cbn [say say_points snd bind]. exact Hs. }
  split.
  { rewrite !fst_bind_talk. cbn [say say_points fst snd].
    rewrite !filter_app, filter_points. cbn [filter detailed_line app].
    exact Hf. }
  intros rv self' H. rewrite <- detailed_loop_result with (x := 0) in H.
  destruct (detailed_loop_last _ 0 fr rv self' ltac:(lia) H) as [Hl|(k & Hk & Hl)].
  - left. exact Hl.
  - right. exists k. split; [|exact Hl].
    destruct (Z.to_nat (iterations self)) eqn:En; lia.
Qed.

(** ** Exhaustive search *)

Lemma product_member {A : Type} (arrs : list (list A)) (combo : list A) :
  Forall2 (fun x a => In x a) combo arrs -> In combo (product arrs).
Proof.
  intros H. induction H as [|x a combo arrs Hx H IH]; [left; reflexivity|].
  cbn [product]. apply in_flat_map. exists x. split; [exact Hx|].
  apply in_map. exact IH.
Qed.

Lemma grid_is_the_product (vars : dict value) (lists : list (list value)) :
  Forall2 (fun d cands => forall x, In x cands <-> admits (snd d) x) vars lists ->
  forall a, In a (map (combine (dict_keys vars)) (product lists)) <-> in_grid vars a.
Proof.
  intros H. induction H as [|d c vars lists Hc H IH]; intros a.
  - simpl. unfold in_grid. split.
    + intros [<-|[]]. constructor.
    + intros Hg. inversion Hg. left; reflexivity.
  - cbn [dict_keys map product]. unfold in_grid. split.
    + intros Hin. apply in_map_iff in Hin. destruct Hin as (combo & <- & Hin).
      apply in_flat_map in Hin. destruct Hin as (x & Hx & Hin).
      apply in_map_iff in Hin. destruct Hin as (combo' & <- & Hin).
      cbn [combine]. constructor.
      * split; [reflexivity|]. apply Hc. exact Hx.
      * apply IH. apply in_map_iff. exists combo'. auto.
    + intros Hg. inversion Hg as [|d' e vars' a' [He Hadm] Hg' E1 E2]; subst.
      apply (IH a') in Hg'. apply in_map_iff in Hg'.
      destruct Hg' as (combo' & <- & Hin).
      apply in_map_iff. exists (snd e :: combo'). split.
      * cbn [combine]. destruct e as [k x]. simpl in He. subst k. reflexivity.
      * apply in_flat_map. exists (snd e). split; [apply Hc; exact Hadm|].
        apply in_map. exact Hin.
Qed.

Lemma candidates_admit (self : Cruncher) (r : dict value) (key : string)
  (decl : value) cands inc :
  well_formed self -> check_all_ints self = true ->
  dict_find (variables self) key = Some decl -> discrete decl = true ->
  (exists x, dict_find r key = Some x /\ range_typed a_number true decl x) ->
  candidates self r key = Ok (cands, inc) ->
  forall x, In x cands <-> admits decl x.
Proof.
  intros Hwf Hca Hd Hdis (rx & Er & Hrt) Hc x.
  destruct (declared_kind_of self key decl Hwf Hd) as [_ Eget].
  unfold candidates in Hc. rewrite Eget, Hca in Hc. cbn [bind] in Hc.
  unfold range_typed in Hrt. unfold dict_get in Hc.
  destruct decl as [z|q|b|s| |xs|xs]; simpl in Hdis; try discriminate.
  - simpl in Hrt, Hc. rewrite Er in Hc. inversion Hc; subst. simpl.
    split; [intros [<-|[]]; reflexivity|intros ->; left; reflexivity].
  - simpl in Hrt, Hc. rewrite Er in Hc. inversion Hc; subst. simpl.
    split; [intros [<-|[]]; reflexivity|intros ->; left; reflexivity].
  - destruct xs as [|a [|b [|c xs]]]; try discriminate;
      try (destruct a; discriminate);
      destruct a as [lo| |b1| | | |], b as [hi| |b2| | | |]; try discriminate.
    + simpl in Hrt, Hc. subst rx. rewrite Er in Hc. cbn [bind] in Hc.
      rewrite get_every_int in Hc. inversion Hc; subst. simpl. split.
      * intros Hx. apply in_map_iff in Hx. destruct Hx as (z & <- & Hz).
        apply Zrange_In in Hz. exists z. split; [reflexivity|lia].
      * intros (z & -> & Hz). apply in_map. apply Zrange_In. lia.
    + simpl in Hc. inversion Hc; subst. simpl. split.
      * intros [<-|[<-|[]]]; eauto.
      * intros ([|] & ->); simpl; auto.
Qed.

Lemma generated_grid (self : Cruncher) (r : dict value) points self' :
  well_formed self -> check_all_ints self = true ->
  NoDup (dict_keys (variables self)) ->
  (forall key decl, dict_find (variables self) key = Some decl ->
                    discrete decl = true) ->
  typed_dict (range_typed a_number true) (variables self) r ->
  _generate_test_points self r = Ok (points, self') ->
  forall a, In a points <-> in_grid (variables self) a.
Proof.
  intros Hwf Hca Hnd Hdis Hr Hgen.
  destruct (generated_product _ _ _ _ Hnd Hgen) as (lists & Hall & ->).
  apply grid_is_the_product.
  assert (Hsub : forall k decl, In (k, decl) (variables self) ->
                                dict_find (variables self) k = Some decl).
  { intros k decl Hin. apply dict_find_NoDup_In; assumption. }
  clear Hnd Hgen. revert Hsub Hall.
  unfold dict_keys. generalize (variables self) at 1 3 4 as vars.
  intros vars. revert lists.
  induction vars as [|[k decl] vars IH]; intros lists Hsub Hall.
  - inversion Hall; subst. constructor.
  - inversion Hall as [|k' c ks lists' (inc & Hc & _) Hall' E1 E2]; subst.
    constructor.
    + cbn [snd]. assert (Hd : dict_find (variables self) k = Some decl)
        by (apply Hsub; left; reflexivity).
      apply (candidates_admit self r k decl c inc Hwf Hca Hd (Hdis k decl Hd));
        [|exact Hc].
      apply Hr. exact Hd.
    + apply IH; [|exact Hall']. intros k' d' Hin. apply Hsub. right. exact Hin.
Qed.

Lemma loop_head_generated (self : Cruncher) (k : nat) (fr : frame) :
  typed_engine any_exception a_number self ->
  loop_head self k fr ->
  exists s r,
    typed_dict (range_typed a_number (check_all_ints self)) (variables self) r
    /\ _generate_test_points (set_global_increment_storage self s) r
       = Ok (points_ fr, self_ fr).
Proof.
  intros Heng (fr0 & E0 & Hp).
  assert (Hnum : forall a b, a_number a -> a_number b ->
                             safe any_exception a_number (py_sub a b))
    by (intros; apply arith_numbers_safe; auto).
  assert (Hnext : forall a q, a_number a ->
                              safe any_exception a_number (py_add a (VFloat q)))
    by (intros; apply arith_numbers_safe; auto; reflexivity).
  assert (Hprev : forall a q, a_number a ->
                              safe any_exception a_number (py_sub a (VFloat q)))
    by (intros; apply arith_numbers_safe; auto; reflexivity).
  inversion Hp as [fr1 E1 E2 E3|m fr1 fr2 fr3 Hm Hpass E1 E2 E3]; subst.
  - unfold crunch_entry in E0. bind_inv E0 as ps Eg. destruct ps as [points self1].
    inversion E0; subst. exists (global_increment_storage self), (variables self).
    split; [apply (declared_space_typed any_exception a_number); exact Heng|].
    rewrite set_storage_same. exact Eg.
  - assert (Hh : loop_head self m fr2) by (exists fr0; auto).
    pose proof (loop_head_typed any_exception a_number (fun v H => H)
                  Hnum Hnext Hprev self m fr2 Heng Hh)
      as (Hself & Hbatch & Hstore & _).
    destruct (pass_continue_inv _ _ Hpass) as (ret & vs & r & Hf & Hconv & Eg & _).
    destruct (find_ideal_member _ _ _ _ Hf) as [Hin _].
    destruct (Hbatch vs Hin) as [Hvs Hkeys].
    exists (global_increment_storage (self_ fr2)), r. rewrite <- Hself.
    split; [|exact Eg].
    rewrite Hself in Hconv.
    refine (safe_Ok _ _ _ _
              (convert_typed any_exception a_number (fun v H => H) Hnext Hprev
                 (set_global_increment_storage self
                    (global_increment_storage (self_ fr2)))
                 (ret, vs) Heng Hvs Hkeys Hstore) Hconv).
Qed.

(** X17. When every integer is checked and the search space holds
    only ranges of ints given in order, booleans and constants, under
    distinct keys, each batch is the whole grid of the declared values;
    so when no score on the grid is NaN (under a target: no distance to
    it), [crunch] returns an assignment of the grid with its score, and
    no assignment of the grid scores better. *)
Theorem exhaustive_search_is_exact f vars n it g (self : Cruncher) :
  __init__ f vars n it g true = Ok self ->
  NoDup (dict_keys vars) ->
  (forall key decl, dict_find vars key = Some decl -> discrete decl = true) ->
  (forall a, in_grid vars a -> is_nan (rank g (f a)) = false) ->
  exists ret best self',
    crunch self = Ok ((ret, best), self')
    /\ in_grid vars best
    /\ ret = f best
    /\ forall a, in_grid vars a -> no_worse g ret (f a) = true.
Proof.
  intros Hinit Hnd Hdis Hnum.
  destruct (init_fields _ _ _ _ _ _ _ Hinit)
    as (Hf & Hv & Hpps & Hit & Hg & Hca & _ & _ & Hn3 & Hit1).
  pose proof (init_well_formed _ _ _ _ _ _ _ Hinit) as Hwf.
  rewrite <- Hv in Hnd, Hdis, Hnum |- *.
  assert (Hshape : forall key lo hi,
             dict_find (variables self) key = Some (VTuple [VInt lo; VInt hi]) ->
             lo <= hi).
  { intros key lo hi Hd. pose proof (Hdis key _ Hd) as H. simpl in H. lia. }
  assert (Hnolist : forall key a b,
             dict_find (variables self) key = Some (VList [a; b]) -> False).
  { intros key a b Hd. pose proof (Hdis key _ Hd) as H. discriminate H. }
  assert (Hreturns : exists rv self', crunch self = Ok (rv, self')).
  { assert (Heng : typed_engine no_exception nothing self).
    { split; [exact Hwf|]. split; [intros d []|]. split.
      - intros key a b Hd. destruct (Hnolist key a b Hd).
      - intros key lo hi Hd. rewrite Hca. intros Hlt.
        pose proof (Hshape key lo hi Hd). lia. }
    assert (Hsafe : safe no_exception (fun _ => True) (crunch self)).
    { apply (crunch_typed no_exception nothing); try assumption.
      - intros v [].
      - intros a b [].
      - intros a q [].
      - intros a q [].
      - lia. }
    destruct (crunch self) as [[rv self']|e]; [eauto|discriminate Hsafe]. }
  destruct Hreturns as ([ret best] & self' & Hcrunch).
  exists ret, best, self'. split; [exact Hcrunch|].
  destruct (crunch_last_pass self _ _ Hcrunch) as (k & fr & _ & Hh & Hend).
  assert (Hchoice : _find_ideal_choice (self_ fr) (points_ fr) = Some (ret, best)).
  { destruct Hend as [Hret|(_ & fr' & Hpass & Hrv & _)].
    - destruct (pass_inv _ _ Hret) as (r0 & v0 & Hc & _ & E & _).
      rewrite Hc. f_equal. symmetry. exact E.
    - destruct (pass_inv _ _ Hpass) as (r0 & v0 & Hc & _ & E).
      rewrite Hc. congruence. }
  assert (Heng : typed_engine any_exception a_number self).
  { apply (constructed_engine_typed any_exception _ _ _ _ _ _ _ Hinit);
      [reflexivity|].
    intros d _. destruct (py_truediv d (VInt (n - 1))) as [r|e] eqn:E;
      [|reflexivity].
    apply (truediv_is_float _ _ _ E). }
  destruct (loop_head_generated self k fr Heng Hh) as (s & r & Hr & Hgen).
  rewrite Hca in Hr.
  assert (Hgrid : forall a, In a (points_ fr) <-> in_grid (variables self) a).
  { apply (generated_grid (set_global_increment_storage self s) r
             (points_ fr) (self_ fr)); assumption. }
  pose proof (loop_head_keeps_configuration self k fr Hh) as Hconf.
  assert (Efun : function (self_ fr) = f) by (rewrite Hconf; exact Hf).
  assert (Egoal : goal (self_ fr) = g) by (rewrite Hconf; exact Hg).
  destruct (find_ideal_first_best (self_ fr) (points_ fr))
    as (i & a & Hi & Hbest & Hpref & _).
  - intros Hnil. rewrite Hnil in Hchoice. discriminate Hchoice.
  - intros y Hy. rewrite Egoal, Efun. apply Hnum. apply Hgrid. exact Hy.
  - rewrite Hchoice in Hbest. inversion Hbest; subst ret best.
    rewrite Egoal, Efun in Hpref. rewrite Efun.
    split; [apply Hgrid; eapply nth_error_In; exact Hi|].
    split; [reflexivity|].
    intros y Hy. apply no_worse_pref. apply Hpref. apply Hgrid. exact Hy.
Qed.

Lemma exhaustive_search_is_exact_witness :
  exists ret best self',
    crunch engine_small_grid = Ok ((ret, best), self')
    /\ in_grid small_grid best
    /\ ret = flag_score best
    /\ forall a, in_grid small_grid a -> no_worse GoalMax ret (flag_score a) = true.
Proof.
  apply (exhaustive_search_is_exact flag_score small_grid 3 2 GoalMax
           engine_small_grid eq_refl).
  - repeat constructor; simpl; intuition discriminate.
  - intros key decl H. simpl in H.
    repeat match type of H with
           | (if ?c then _ else _) = _ => destruct c
           end; inversion H; reflexivity.
  - intros a _. unfold flag_score.
    destruct (dict_find a "flag") as [[| |[|]| | | |]|]; reflexivity.
Defined.

(** ** The window around the best int *)

Lemma keep_ints_in_given_range (self : Cruncher) (key : string)
  (start end_ lo hi : Z) :
  dict_find (variables self) key = Some (VTuple [VInt lo; VInt hi]) ->
  keep_in_given_range self key (VInt start) (VInt end_)
  = Ok (VInt (Z.max lo start), VInt (Z.min hi end_)).
Proof.
  intros Hd. unfold keep_in_given_range, dict_get. rewrite Hd.
  cbn [bind py_index nth_error].
  change (py_lt (VInt start) (VInt lo)) with (Ok (num_lt (Int start) (Int lo))).
  change (py_gt (VInt end_) (VInt hi)) with (Ok (num_gt (Int end_) (Int hi))).
  cbn [bind]. rewrite int_gt. unfold num_lt, num_compare, is_lt.
  destruct (Z.compare_spec start lo); destruct (Z.ltb_spec hi end_);
    do 3 f_equal; lia.
Qed.

(** X18. The new range of an integer variable, when not every
    integer is checked. When the step recorded for it is below 1 (the
    range has fewer ints than points were asked for), the new range is
    best - 1 .. best + 1, cut to the declared bounds; otherwise it is
    round(best - step) .. round(best + step), cut in the same way. In the
    first case a best value within the declared bounds is within the new
    range, which holds at most three ints. *)
Theorem int_window_around_best (self : Cruncher) (best : float * dict value)
  (key : string) (lo hi z : Z) (q : float) :
  dict_find (types self) key = Some (Some KInt) ->
  check_all_ints self = false ->
  dict_find (variables self) key = Some (VTuple [VInt lo; VInt hi]) ->
  dict_find (global_increment_storage self) key = Some (VFloat q) ->
  dict_find (snd best) key = Some (VInt z) ->
  (py_lt (VFloat q) (VInt 1) = Ok true ->
   narrowed self best key
   = Ok (Some (VTuple [VInt (Z.max lo (z - 1)); VInt (Z.min hi (z + 1))]))
   /\ (lo <= z <= hi ->
       Z.max lo (z - 1) <= z <= Z.min hi (z + 1)
       /\ Z.min hi (z + 1) - Z.max lo (z - 1) <= 2))
  /\ (py_lt (VFloat q) (VInt 1) = Ok false ->
      narrowed self best key
      = (fz <- float_of_int z ;;
         start <- float_round (fz - q) ;;
         end_ <- float_round (fz + q) ;;
         Ok (Some (VTuple [VInt (Z.max lo start); VInt (Z.min hi end_)])))).
Proof.
  intros Hty Hca Hd Hinc Hbest.
  assert (E : narrowed self best key
              = (small <- py_lt (VFloat q) (VInt 1) ;;
                 if small then
                   Ok (Some (VTuple [VInt (Z.max lo (z - 1));
                                     VInt (Z.min hi (z + 1))]))
                 else
                   fz <- float_of_int z ;;
                   start <- float_round (fz - q) ;;
                   end_ <- float_round (fz + q) ;;
                   Ok (Some (VTuple [VInt (Z.max lo start);
                                     VInt (Z.min hi end_)])))).
  { unfold narrowed, dict_get. rewrite Hty, Hca, Hinc, Hbest. cbn [bind].
    destruct (py_lt (VFloat q) (VInt 1)) as [[|]|e]; cbn [bind]; [| |reflexivity].
    - change (py_sub (VInt z) (VInt 1)) with (Ok (VInt (z - 1))).
      change (py_add (VInt z) (VInt 1)) with (Ok (VInt (z + 1))).
      cbn [bind]. rewrite (keep_ints_in_given_range self key _ _ lo hi Hd).
      reflexivity.
    - unfold py_sub, py_add, lift2, num_sub, num_add, arith, py_round.
      cbn [num_of bind].
      destruct (float_of_int z) as [fz|e]; cbn [bind of_num num_of]; [|reflexivity].
      destruct (float_round (fz - q)) as [s|e]; cbn [bind]; [|reflexivity].
      destruct (float_round (fz + q)) as [e'|e]; cbn [bind]; [|reflexivity].
      rewrite (keep_ints_in_given_range self key _ _ lo hi Hd). reflexivity. }
  split; intros Hsmall; rewrite E, Hsmall; cbn [bind]; [|reflexivity].
  split; [reflexivity|]. intros Hz. lia.
Qed.

Lemma int_window_around_best_witness :
  narrowed engine_narrow_ints (0%float, [("i"%string, VInt 2)]) "i"
  = Ok (Some (VTuple [VInt 1; VInt 2])).
Proof.
  exact (proj1 (proj1 (int_window_around_best engine_narrow_ints
                         (0%float, [("i"%string, VInt 2)]) "i"%string 0 2 2
                         0.66666666666666663%float
                         eq_refl eq_refl eq_refl eq_refl eq_refl)
                  eq_refl)).
Defined.

(** ** The window around the best float *)

Lemma float_lt_num (a b : float) : num_lt (Flt a) (Flt b) = (a <? b)%float.
Proof.
  unfold num_lt, num_compare, is_lt, float_compare.
  rewrite ltb_spec, compare_spec. unfold SFltb.
  destruct (SFcompare (Prim2SF a) (Prim2SF b)) as [[| |]|]; reflexivity.
Qed.

Lemma float_gt_num (a b : float) : num_gt (Flt a) (Flt b) = (b <? a)%float.
Proof.
  unfold num_gt, num_compare, is_gt, float_compare.
  rewrite ltb_spec, compare_spec. unfold SFltb.
  rewrite (SFcompare_antisym (Prim2SF a) (Prim2SF b)).
  destruct (SFcompare (Prim2SF a) (Prim2SF b)) as [[| |]|]; reflexivity.
Qed.

Lemma nan_step (x q : float) :
  is_nan q = true -> is_nan (x - q) = true /\ is_nan (x + q) = true.
Proof.
  intros H. apply is_nan_Prim2SF in H.
  split; apply is_nan_Prim2SF; [rewrite sub_spec|rewrite add_spec];
    rewrite H; unfold SF64sub, SF64add, SFsub, SFadd;
    destruct (Prim2SF x); reflexivity.
Qed.

Lemma nan_is_not_below (a b : float) :
  is_nan a = true -> (a <? b)%float = false /\ (b <? a)%float = false.
Proof.
  intros H. split.
  - destruct (a <? b)%float eqn:E; [|reflexivity].
    apply ltb_not_nan in E. destruct E. congruence.
  - destruct (b <? a)%float eqn:E; [|reflexivity].
    apply ltb_not_nan in E. destruct E. congruence.
Qed.

(** X19. The new range of a float variable declared by two floats:
    best - step .. best + step, where the low end is replaced by the
    declared low when it is below it and the high end by the declared
    high when it is above it. A step that is NaN (as recorded for a
    range whose two ends are the same infinity, of width inf - inf)
    makes both ends NaN, which no comparison replaces. *)
Theorem float_window_around_best (self : Cruncher) (best : float * dict value)
  (key : string) (lo hi x q : float) :
  dict_find (types self) key = Some (Some KFloat) ->
  dict_find (variables self) key = Some (VList [VFloat lo; VFloat hi]) ->
  dict_find (global_increment_storage self) key = Some (VFloat q) ->
  dict_find (snd best) key = Some (VFloat x) ->
  narrowed self best key
  = Ok (Some (VList [VFloat (if (x - q <? lo) then lo else x - q);
                     VFloat (if (hi <? x + q) then hi else x + q)]))%float
  /\ (is_nan q = true ->
      exists s e,
        narrowed self best key = Ok (Some (VList [VFloat s; VFloat e]))
        /\ is_nan s = true /\ is_nan e = true).
Proof.
  intros Hty Hd Hinc Hbest.
  assert (E : narrowed self best key
              = Ok (Some (VList [VFloat (if (x - q <? lo) then lo else x - q);
                                 VFloat (if (hi <? x + q) then hi else x + q)]))%float).
  { unfold narrowed, dict_get. rewrite Hty, Hinc, Hbest. cbn [bind].
    change (py_sub (VFloat x) (VFloat q)) with (Ok (VFloat (x - q))).
    change (py_add (VFloat x) (VFloat q)) with (Ok (VFloat (x + q))).
    cbn [bind]. unfold keep_in_given_range, dict_get. rewrite Hd.
    cbn [bind py_index nth_error].
    change (py_lt (VFloat (x - q)) (VFloat lo))
      with (Ok (num_lt (Flt (x - q)) (Flt lo))).
    change (py_gt (VFloat (x + q)) (VFloat hi))
      with (Ok (num_gt (Flt (x + q)) (Flt hi))).
    cbn [bind]. rewrite float_lt_num, float_gt_num.
    destruct (x - q <? lo)%float, (hi <? x + q)%float; reflexivity. }
  split; [exact E|]. intros Hq. destruct (nan_step x q Hq) as [Hs He].
  destruct (nan_is_not_below (x - q) lo Hs) as [H1 _].
  destruct (nan_is_not_below (x + q) hi He) as [_ H2].
  rewrite E, H1, H2. eauto.
Qed.

Lemma float_window_around_best_witness :
  __init__ zero_function all_infinity 3 1 GoalMax false = Ok engine_all_infinity
  /\ match crunch_entry engine_all_infinity with
     | Ok fr =>
         match _find_ideal_choice (self_ fr) (points_ fr) with
         | Some best =>
             dict_find (global_increment_storage (self_ fr)) "x"%string
             = Some (VFloat nan)
             /\ exists s e,
                  narrowed (self_ fr) best "x"
                  = Ok (Some (VList [VFloat s; VFloat e]))
                  /\ is_nan s = true /\ is_nan e = true
         | None => False
         end
     | Raise _ => False
     end.
Proof.
  split; [vm_compute; reflexivity|].
  assert (H : match crunch_entry engine_all_infinity with
              | Ok fr =>
                  dict_find (types (self_ fr)) "x"%string = Some (Some KFloat)
                  /\ dict_find (variables (self_ fr)) "x"%string
                     = Some (VList [VFloat infinity; VFloat infinity])
                  /\ dict_find (global_increment_storage (self_ fr)) "x"%string
                     = Some (VFloat nan)
                  /\ match _find_ideal_choice (self_ fr) (points_ fr) with
                     | Some best =>
                         dict_find (snd best) "x"%string = Some (VFloat infinity)
                     | None => False
                     end
              | Raise _ => False
              end)
    by (vm_compute; repeat split; reflexivity).
  destruct (crunch_entry engine_all_infinity) as [fr|e]; [|exact H].
  destruct H as (Hty & Hv & Hq & Hb).
  destruct (_find_ideal_choice (self_ fr) (points_ fr)) as [best|]; [|exact Hb].
  split; [exact Hq|].
  exact (proj2 (float_window_around_best (self_ fr) best "x"%string
                  infinity infinity infinity nan Hty Hv Hq Hb)
               eq_refl).
Defined.

(** ** The step-size table during a run *)

(** X20. At the head of every iteration of a run on a constructed
    engine, the step-size table holds an entry for each declared
    variable: the int 0 for a constant, a boolean and, when every integer
    is checked, a range of ints; a float for a range of floats and, when
    not every integer is checked, for a range of ints, whose step is the
    quotient of a true division and is not rounded. *)
Theorem step_table_in_every_iteration f vars n it g ca (self : Cruncher) :
  __init__ f vars n it g ca = Ok self ->
  forall k fr key decl,
    loop_head self k fr ->
    dict_find vars key = Some decl ->
    exists inc,
      dict_find (global_increment_storage (self_ fr)) key = Some inc
      /\ match declared_kind decl with
         | KFloat => exists q, inc = VFloat q
         | KInt => if ca then inc = VInt 0 else exists q, inc = VFloat q
         | _ => inc = VInt 0
         end.
Proof.
  intros Hinit k fr key decl Hhead Hd.
  destruct (init_fields _ _ _ _ _ _ _ Hinit) as (_ & Hv & _ & _ & _ & Hca & _).
  assert (Heng : typed_engine any_exception a_number self).
  { apply (constructed_engine_typed any_exception _ _ _ _ _ _ _ Hinit);
      [reflexivity|].
    intros d _. destruct (py_truediv d (VInt (n - 1))) as [r|e] eqn:E;
      [|reflexivity].
    apply (truediv_is_float _ _ _ E). }
  assert (Hfr : frame_typed any_exception a_number self fr).
  { apply (loop_head_typed any_exception a_number) with (k := k);
      try assumption.
    - auto.
    - intros; apply arith_numbers_safe; auto.
    - intros; apply arith_numbers_safe; auto. reflexivity.
    - intros; apply arith_numbers_safe; auto. reflexivity. }
  destruct Hfr as (_ & _ & Hstore & _). rewrite <- Hv in Hd.
  destruct (Hstore key decl Hd) as (inc & Einc & Hinc).
  exists inc. split; [exact Einc|]. unfold step_typed in Hinc.
  rewrite Hca in Hinc. exact Hinc.
Qed.

Lemma step_table_in_every_iteration_witness :
  exists fr inc,
    crunch_entry engine_mixed = Ok fr
    /\ dict_find (global_increment_storage (self_ fr)) "i"%string = Some inc
    /\ exists q, inc = VFloat q.
Proof.
  destruct (crunch_entry engine_mixed) as [fr|e] eqn:E;
    [|vm_compute in E; discriminate E].
  destruct (step_table_in_every_iteration near_seven mixed 3 2 GoalMax false
              engine_mixed eq_refl 0%nat fr "i"%string (VTuple [VInt 0; VInt 10])
              (ex_intro _ fr (conj E (passes_none fr))) eq_refl)
    as (inc & Einc & Hinc).
  exists fr, inc. split; [reflexivity|]. split; [exact Einc|exact Hinc].
Defined.
